(** * Zen-GO: the rule engine of [utils/gameLogic.ts] and the game

    A shallow embedding of the move-legality engine ([tryMakeMove] and its
    helpers [copyBoard], [isOnBoard], [getNeighbors], [getGroupAndLiberties])
    and the properties its specification states about it; then the handlers
    of the page ([App.tsx]), what [GoBoard] draws ([components/Board.tsx])
    and the text of the board in the prompt ([services/geminiService.ts]),
    with the properties of a game played through them.

    - JavaScript numbers used as coordinates are integers here ([Z]); sizes
      and counters ([Set.size], [capturedCount]) are natural numbers.
    - A board is a JavaScript array of row arrays.  The rows are mutable
      objects that [tryMakeMove] writes to, so boards live in a [Heap] and
      are passed by reference; [copyBoard] allocates.
    - [getGroupAndLiberties] only reads its board argument: it is embedded as
      a function of the contents of the board at the time of the call.
    - Reading outside an array gives [undefined], and reading a property of
      [undefined] throws a [TypeError]; both are written out. *)

From Stdlib Require Import ZArith Lia DecimalString DecimalZ DecimalFacts.
From stdpp Require Import base list strings.

Local Open Scope Z_scope.

(** ** Data model ([types.ts]) *)

Inductive PlayerColor : Set := black | white.

#[global] Instance PlayerColor_eq_dec : EqDecision PlayerColor.
Proof. solve_decision. Defined.

(** A stored cell is [PlayerColor | null]; [None] is [null]. *)
Abbreviation Cell := (option PlayerColor).
Abbreviation Row := (list (option PlayerColor)).
(** The contents of a [BoardState]: [board[y][x]]. *)
Abbreviation Grid := (list (list (option PlayerColor))).
(** A coordinate object [{ x, y }]. *)
Abbreviation Coord := (Z * Z)%type.

Definition BOARD_SIZE : Z := 19.

(** What an evaluation can end in. *)
Inductive Outcome (A : Type) : Type :=
| Done (a : A)   (* normal completion with a value *)
| TypeError      (* a property of [undefined] was read or written *)
| OutOfRangeWrite (* a write outside the index range of an array (JavaScript
                     grows the array or adds a property): not covered *)
| OutOfFuel.     (* the bound put on the [while] loop was reached *)
Arguments Done {A} a.
Arguments TypeError {A}.
Arguments OutOfRangeWrite {A}.
Arguments OutOfFuel {A}.

#[global] Instance Outcome_bind : MBind Outcome := fun A B f m =>
  match m with
  | Done a => f a
  | TypeError => TypeError
  | OutOfRangeWrite => OutOfRangeWrite
  | OutOfFuel => OutOfFuel
  end.

(** The value of an array read [row[x]]. *)
Inductive JsCell : Set :=
| Undefined
| Holds (c : Cell).

#[global] Instance JsCell_eq_dec : EqDecision JsCell.
Proof. solve_decision. Defined.

(** [a[i]] for an integer [i]; [None] is [undefined]. *)
Definition arrayGet {A : Type} (a : list A) (i : Z) : option A :=
  if 0 <=? i then a !! Z.to_nat i else None.

(** [board[y][x]]. *)
Definition readCell (board : Grid) (x y : Z) : Outcome JsCell :=
  match arrayGet board y with
  | None => TypeError
  | Some row =>
      match arrayGet row x with
      | None => Done Undefined
      | Some c => Done (Holds c)
      end
  end.

(** ** Grid utilities *)

Definition isOnBoard (x y : Z) : bool :=
  (0 <=? x) && (x <? BOARD_SIZE) && (0 <=? y) && (y <? BOARD_SIZE).

Definition getNeighbors (x y : Z) : list Coord :=
  (if 0 <? x then [(x - 1, y)] else []) ++
  (if x <? BOARD_SIZE - 1 then [(x + 1, y)] else []) ++
  (if 0 <? y then [(x, y - 1)] else []) ++
  (if y <? BOARD_SIZE - 1 then [(x, y + 1)] else []).

(** ** Sets of strings

    A [Set<string>] keeps its elements in insertion order. *)

(** The template literal [`${n}`] of an integer. *)
Definition numToString (n : Z) : string :=
  NilZero.string_of_int (Z.to_int n).

(** [`${x},${y}`] *)
Definition key (x y : Z) : string :=
  numToString x +:+ "," +:+ numToString y.

Definition setHas (s : list string) (k : string) : bool :=
  bool_decide (k ∈ s).

Definition setAdd (s : list string) (k : string) : list string :=
  if setHas s k then s else s ++ [k].

(** ** Groups and liberties *)

(** The object returned by [getGroupAndLiberties]. *)
Record GroupResult : Set := {
  group : list Coord;
  liberties : nat
}.

(** The local variables of [getGroupAndLiberties]. *)
Record Search : Set := {
  s_group : list Coord;
  s_visited : list string;
  s_queue : list Coord;
  s_liberties : list string
}.

(** One iteration of [for (const n of neighbors)]. *)
Definition visitNeighbor (board : Grid) (color : PlayerColor)
    (st : Search) (n : Coord) : Outcome Search :=
  neighborColor ← readCell board n.1 n.2;
  let k := key n.1 n.2 in
  match neighborColor with
  | Holds None =>
      Done {| s_group := s_group st; s_visited := s_visited st;
              s_queue := s_queue st;
              s_liberties := setAdd (s_liberties st) k |}
  | Holds (Some c) =>
      if bool_decide (c = color) && negb (setHas (s_visited st) k)
      then Done {| s_group := s_group st;
                   s_visited := setAdd (s_visited st) k;
                   s_queue := s_queue st ++ [n];
                   s_liberties := s_liberties st |}
      else Done st
  | Undefined => Done st
  end.

Fixpoint visitNeighbors (board : Grid) (color : PlayerColor)
    (neighbors : list Coord) (st : Search) : Outcome Search :=
  match neighbors with
  | [] => Done st
  | n :: rest =>
      st' ← visitNeighbor board color st n;
      visitNeighbors board color rest st'
  end.

(** [while (queue.length > 0)], at most [fuel] iterations. *)
Fixpoint searchLoop (fuel : nat) (board : Grid) (color : PlayerColor)
    (st : Search) : Outcome Search :=
  match s_queue st with
  | [] => Done st
  | current :: rest =>
      match fuel with
      | O => OutOfFuel
      | S fuel' =>
          let st1 := {| s_group := s_group st ++ [current];
                        s_visited := s_visited st;
                        s_queue := rest;
                        s_liberties := s_liberties st |} in
          st2 ← visitNeighbors board color
                  (getNeighbors current.1 current.2) st1;
          searchLoop fuel' board color st2
      end
  end.

(** Every cell enters the queue at most once, so the loop body runs at most
    once per cell of the board. *)
Definition searchFuel : nat := Z.to_nat (BOARD_SIZE * BOARD_SIZE).

Definition getGroupAndLiberties (board : Grid) (x y : Z)
    : Outcome GroupResult :=
  color ← readCell board x y;
  match color with
  | Undefined | Holds None => Done {| group := []; liberties := 0 |}
  | Holds (Some color) =>
      st ← searchLoop searchFuel board color
             {| s_group := []; s_visited := setAdd [] (key x y);
                s_queue := [(x, y)]; s_liberties := [] |};
      Done {| group := s_group st;
              liberties := length (s_liberties st) |}
  end.

(** ** The heap

    Arrays are objects: a [BoardState] is a reference to an array of
    references to row arrays, a history is a reference to an array of
    strings.  References are numbers; [rowNext] and [boardNext] are the
    first references not allocated yet. *)

Record Heap : Type := {
  rowObj : nat -> Row;
  boardObj : nat -> list nat;
  historyObj : nat -> list string;
  rowNext : nat;
  boardNext : nat
}.

(** The contents of the board behind a reference. *)
Definition snapshot (h : Heap) (board : nat) : Grid :=
  map (rowObj h) (boardObj h board).

Definition storeRow (h : Heap) (r : nat) (cells : Row) : Heap :=
  {| rowObj := fun r' => if (r' =? r)%nat then cells else rowObj h r';
     boardObj := boardObj h; historyObj := historyObj h;
     rowNext := rowNext h; boardNext := boardNext h |}.

Definition allocRow (h : Heap) (cells : Row) : Heap * nat :=
  ({| rowObj := fun r' => if (r' =? rowNext h)%nat then cells else rowObj h r';
      boardObj := boardObj h; historyObj := historyObj h;
      rowNext := S (rowNext h); boardNext := boardNext h |},
   rowNext h).

Definition allocBoard (h : Heap) (rows : list nat) : Heap * nat :=
  ({| rowObj := rowObj h;
      boardObj := fun b' => if (b' =? boardNext h)%nat then rows
                            else boardObj h b';
      historyObj := historyObj h;
      rowNext := rowNext h; boardNext := S (boardNext h) |},
   boardNext h).

(** [a[i] = v] inside the index range of [a]. *)
Definition arraySet {A : Type} (a : list A) (i : Z) (v : A)
    : Outcome (list A) :=
  if (0 <=? i) && (i <? Z.of_nat (length a))
  then Done (<[Z.to_nat i := v]> a)
  else OutOfRangeWrite.

(** [board[y][x] = v] *)
Definition writeCell (h : Heap) (board : nat) (x y : Z) (v : Cell)
    : Outcome Heap :=
  match arrayGet (boardObj h board) y with
  | None => TypeError
  | Some r =>
      cells ← arraySet (rowObj h r) x v;
      Done (storeRow h r cells)
  end.

(** [rows.map(row => [...row])] *)
Fixpoint copyRows (h : Heap) (rows : list nat) : Heap * list nat :=
  match rows with
  | [] => (h, [])
  | row :: rest =>
      let '(h1, row') := allocRow h (rowObj h row) in
      let '(h2, rest') := copyRows h1 rest in
      (h2, row' :: rest')
  end.

Definition copyBoard (h : Heap) (board : nat) : Heap * nat :=
  let '(h1, rows) := copyRows h (boardObj h board) in
  allocBoard h1 rows.

(** ** Moves *)

Record MoveResult : Set := {
  success : bool;
  newBoard : option nat;
  capturedCount : option nat;
  error : option string
}.

Definition rejected (message : string) : MoveResult :=
  {| success := false; newBoard := None; capturedCount := None;
     error := Some message |}.

Definition accepted (board : nat) (count : nat) : MoveResult :=
  {| success := true; newBoard := Some board; capturedCount := Some count;
     error := None |}.

Definition opponentOf (player : PlayerColor) : PlayerColor :=
  match player with black => white | white => black end.

(** [group.forEach(stone => { newBoard[stone.y][stone.x] = null;
    capturedCount++; })] *)
Fixpoint removeStones (h : Heap) (board : nat) (stones : list Coord)
    (count : nat) : Outcome (Heap * nat) :=
  match stones with
  | [] => Done (h, count)
  | stone :: rest =>
      h' ← writeCell h board stone.1 stone.2 None;
      removeStones h' board rest (S count)
  end.

(** The body of [neighbors.forEach(n => ...)]. *)
Definition captureAt (h : Heap) (board : nat) (opponent : PlayerColor)
    (count : nat) (n : Coord) : Outcome (Heap * nat) :=
  c ← readCell (snapshot h board) n.1 n.2;
  if bool_decide (c = Holds (Some opponent)) then
    r ← getGroupAndLiberties (snapshot h board) n.1 n.2;
    if (liberties r =? 0)%nat
    then removeStones h board (group r) count
    else Done (h, count)
  else Done (h, count).

Fixpoint captureLoop (h : Heap) (board : nat) (opponent : PlayerColor)
    (neighbors : list Coord) (count : nat) : Outcome (Heap * nat) :=
  match neighbors with
  | [] => Done (h, count)
  | n :: rest =>
      '(h', count') ← captureAt h board opponent count n;
      captureLoop h' board opponent rest count'
  end.

(** [JSON.stringify] of a board. *)
Definition doubleQuote : string := String (Ascii.ascii_of_nat 34) EmptyString.

Definition stringifyCell (c : Cell) : string :=
  match c with
  | None => "null"
  | Some black => doubleQuote +:+ "black" +:+ doubleQuote
  | Some white => doubleQuote +:+ "white" +:+ doubleQuote
  end.

Definition stringifyArray (items : list string) : string :=
  match items with
  | [] => "[]"
  | first :: rest =>
      "[" +:+ fold_left (fun acc item => acc +:+ "," +:+ item) rest first
          +:+ "]"
  end.

Definition JSON_stringify (board : Grid) : string :=
  stringifyArray (map (fun row => stringifyArray (map stringifyCell row))
                      board).

Definition tryMakeMove (h : Heap) (currentBoard : nat) (x y : Z)
    (player : PlayerColor) (history : nat) : Outcome (Heap * MoveResult) :=
  (* 1. Basic validation *)
  if negb (isOnBoard x y) then Done (h, rejected "Invalid position") else
  target ← readCell (snapshot h currentBoard) x y;
  if negb (bool_decide (target = Holds None))
  then Done (h, rejected "Position occupied") else
  let '(h1, board) := copyBoard h currentBoard in
  h2 ← writeCell h1 board x y (Some player);
  (* 2. Capture enemy stones *)
  let neighbors := getNeighbors x y in
  let opponent := opponentOf player in
  '(h3, count) ← captureLoop h2 board opponent neighbors 0%nat;
  (* 3. Check for Suicide *)
  self ← getGroupAndLiberties (snapshot h3 board) x y;
  if (liberties self =? 0)%nat
  then Done (h3, rejected "Suicide move is forbidden") else
  (* 4. Ko Rule *)
  let boardHash := JSON_stringify (snapshot h3 board) in
  let past := historyObj h3 history in
  let len := Z.of_nat (length past) in
  if (1 <? len) && bool_decide (arrayGet past (len - 2) = Some boardHash)
  then Done (h3, rejected "Ko rule: cannot repeat position immediately")
  else Done (h3, accepted board count).

(** * The vocabulary of the properties *)

(** ** Coordinates and boards of the right shape *)

(** [c] is a cell of the board. *)
Definition onBoard (c : Coord) : Prop := isOnBoard c.1 c.2 = true.

(** Orthogonal adjacency: one step left, right, up or down. *)
Definition adjacent (a b : Coord) : Prop :=
  Z.abs (a.1 - b.1) + Z.abs (a.2 - b.2) = 1.

(** One of the four corners. *)
Definition isCorner (x y : Z) : bool :=
  ((x =? 0) || (x =? BOARD_SIZE - 1)) && ((y =? 0) || (y =? BOARD_SIZE - 1)).

(** Not on the border. *)
Definition isInterior (x y : Z) : bool :=
  (0 <? x) && (x <? BOARD_SIZE - 1) && (0 <? y) && (y <? BOARD_SIZE - 1).

(** On the border, not in a corner. *)
Definition isEdge (x y : Z) : bool :=
  negb (isCorner x y) && negb (isInterior x y).

(** All coordinates of the board, row by row. *)
Definition allCoords : list Coord :=
  y ← seqZ 0 BOARD_SIZE; (fun x => (x, y)) <$> seqZ 0 BOARD_SIZE.

(** The key under which [getGroupAndLiberties] records a coordinate. *)
Definition keyOf (c : Coord) : string := key c.1 c.2.

(** A board of [BOARD_SIZE] rows of [BOARD_SIZE] cells. *)
Definition wfGrid (g : Grid) : Prop :=
  length g = 19%nat /\ Forall (fun row : Row => length row = 19%nat) g.

(** The cell at a coordinate ([null] outside the arrays). *)
Definition cellAt (g : Grid) (c : Coord) : Cell :=
  match arrayGet g c.2 with
  | Some row => default None (arrayGet row c.1)
  | None => None
  end.

(** ** Groups

    [connected f color a c]: the cells [a] and [c] hold stones of [color]
    and are joined by a path of orthogonally adjacent stones of [color]. *)
Inductive connected (f : Coord -> Cell) (color : PlayerColor) (a : Coord)
    : Coord -> Prop :=
| connected_refl :
    onBoard a -> f a = Some color -> connected f color a a
| connected_step b n :
    connected f color a b -> n ∈ getNeighbors b.1 b.2 -> f n = Some color ->
    connected f color a n.

(** [e] is a liberty of the group of [a]. *)
Definition libertyOf (f : Coord -> Cell) (color : PlayerColor)
    (a e : Coord) : Prop :=
  exists c, connected f color a c /\ e ∈ getNeighbors c.1 c.2 /\ f e = None.

(** The group of the stone at [n] has no liberty. *)
Definition dead (f : Coord -> Cell) (color : PlayerColor) (n : Coord)
    : Prop :=
  f n = Some color /\ forall e, ~ libertyOf f color n e.

(** [c] is a stone of a group of [color] without liberties that has a stone
    among [ns]. *)
Definition capturedFrom (f : Coord -> Cell) (color : PlayerColor)
    (ns : list Coord) (c : Coord) : Prop :=
  exists n, n ∈ ns /\ dead f color n /\ connected f color n c.

(** Every stone belongs to a group that has a liberty. *)
Definition noDeadGroup (f : Coord -> Cell) : Prop :=
  forall c color,
    onBoard c -> f c = Some color -> exists e, libertyOf f color c e.

(** The position [f] with a stone of [player] put at [a]. *)
Definition withStone (f : Coord -> Cell) (a : Coord) (player : PlayerColor)
    : Coord -> Cell :=
  fun c => if decide (c = a) then Some player else f c.

(** ** The heap is only extended *)

(** Every object of [h] is in [h'] with the same contents. *)
Definition unchanged (h h' : Heap) : Prop :=
  (forall r, (r < rowNext h)%nat -> rowObj h' r = rowObj h r) /\
  (forall b, (b < boardNext h)%nat -> boardObj h' b = boardObj h b) /\
  (forall i, historyObj h' i = historyObj h i) /\
  (rowNext h <= rowNext h')%nat /\ (boardNext h <= boardNext h')%nat.

(** The board and its rows are objects of [h]. *)
Definition allocated (h : Heap) (board : nat) : Prop :=
  (board < boardNext h)%nat /\
  forall r, r ∈ boardObj h board -> (r < rowNext h)%nat.

(** [board] is a working copy made after [h0]: its rows are pairwise
    different objects that [h0] does not have. *)
Definition working (h0 h : Heap) (board : nat) : Prop :=
  unchanged h0 h /\
  NoDup (boardObj h board) /\
  forall r, r ∈ boardObj h board -> (rowNext h0 <= r)%nat.

(** The board behind the reference has the right shape and all its arrays
    are objects of the heap. *)
Definition validBoard (h : Heap) (board : nat) : Prop :=
  allocated h board /\ wfGrid (snapshot h board).

(** ** The same code on board contents

    [tryMakeMove] reads and writes its working copy only; seen from the
    contents of that copy it is the function [moveOn] below. *)

(** [board[y][x] = v] on the contents. *)
Definition writeCellOn (g : Grid) (x y : Z) (v : Cell) : Outcome Grid :=
  match arrayGet g y with
  | None => TypeError
  | Some row =>
      cells ← arraySet row x v;
      Done (<[Z.to_nat y := cells]> g)
  end.

Fixpoint removeStonesOn (g : Grid) (stones : list Coord) (count : nat)
    : Outcome (Grid * nat) :=
  match stones with
  | [] => Done (g, count)
  | stone :: rest =>
      g' ← writeCellOn g stone.1 stone.2 None;
      removeStonesOn g' rest (S count)
  end.

Definition captureAtOn (g : Grid) (opponent : PlayerColor) (count : nat)
    (n : Coord) : Outcome (Grid * nat) :=
  c ← readCell g n.1 n.2;
  if bool_decide (c = Holds (Some opponent)) then
    r ← getGroupAndLiberties g n.1 n.2;
    if (liberties r =? 0)%nat
    then removeStonesOn g (group r) count
    else Done (g, count)
  else Done (g, count).

Fixpoint captureLoopOn (g : Grid) (opponent : PlayerColor)
    (neighbors : list Coord) (count : nat) : Outcome (Grid * nat) :=
  match neighbors with
  | [] => Done (g, count)
  | n :: rest =>
      '(g', count') ← captureAtOn g opponent count n;
      captureLoopOn g' opponent rest count'
  end.

(** A [MoveResult] with the contents of [newBoard] in place of the
    reference. *)
Record MoveView : Set := {
  v_success : bool;
  v_board : option Grid;
  v_count : option nat;
  v_error : option string
}.

Definition viewOf (h : Heap) (r : MoveResult) : MoveView :=
  {| v_success := success r; v_board := snapshot h <$> newBoard r;
     v_count := capturedCount r; v_error := error r |}.

Definition rejectedView (message : string) : MoveView :=
  {| v_success := false; v_board := None; v_count := None;
     v_error := Some message |}.

Definition acceptedView (g : Grid) (count : nat) : MoveView :=
  {| v_success := true; v_board := Some g; v_count := Some count;
     v_error := None |}.

(** The ko test of step 4. *)
Definition koTest (past : list string) (boardHash : string) : bool :=
  let len := Z.of_nat (length past) in
  (1 <? len) && bool_decide (arrayGet past (len - 2) = Some boardHash).

Definition moveOn (g : Grid) (x y : Z) (player : PlayerColor)
    (past : list string) : Outcome MoveView :=
  if negb (isOnBoard x y) then Done (rejectedView "Invalid position") else
  target ← readCell g x y;
  if negb (bool_decide (target = Holds None))
  then Done (rejectedView "Position occupied") else
  g1 ← writeCellOn g x y (Some player);
  '(g2, count) ← captureLoopOn g1 (opponentOf player) (getNeighbors x y) 0%nat;
  self ← getGroupAndLiberties g2 x y;
  if (liberties self =? 0)%nat
  then Done (rejectedView "Suicide move is forbidden") else
  if koTest past (JSON_stringify g2)
  then Done (rejectedView "Ko rule: cannot repeat position immediately")
  else Done (acceptedView g2 count).

(** ** The steps of [tryMakeMove] *)

(** [tryMakeMove] up to the placement of the stone on the working copy. *)
Definition placeStone (h : Heap) (currentBoard : nat) (x y : Z)
    (player : PlayerColor) : Outcome (Heap * nat) :=
  let '(h1, board) := copyBoard h currentBoard in
  h2 ← writeCell h1 board x y (Some player);
  Done (h2, board).

(** [tryMakeMove] from the copy of the board to the end of the capture
    pass: the heap, the working copy and the count at that point. *)
Definition placeAndCapture (h : Heap) (currentBoard : nat) (x y : Z)
    (player : PlayerColor) : Outcome (Heap * nat * nat) :=
  let '(h1, board) := copyBoard h currentBoard in
  h2 ← writeCell h1 board x y (Some player);
  '(h3, count) ← captureLoop h2 board (opponentOf player)
                   (getNeighbors x y) 0%nat;
  Done (h3, board, count).

(** The steps of a move on an empty cell: [g1] is the board with the stone
    placed, [g2] the board after the capture pass, [removed] the stones
    taken and [self] the group of the new stone on [g2]. *)
Record MoveTrace (g : Grid) (x y : Z) (player : PlayerColor)
    (g1 g2 : Grid) (removed : list Coord) (self : GroupResult) : Prop := {
  trace_place : writeCellOn g x y (Some player) = Done g1;
  trace_wf1 : wfGrid g1;
  trace_cells1 : forall c, onBoard c ->
    cellAt g1 c = if decide (c = (x, y)) then Some player else cellAt g c;
  trace_capture :
    captureLoopOn g1 (opponentOf player) (getNeighbors x y) 0%nat
      = Done (g2, length removed);
  trace_wf2 : wfGrid g2;
  trace_nodup : NoDup removed;
  trace_removed : forall c,
    c ∈ removed <->
    capturedFrom (cellAt g1) (opponentOf player) (getNeighbors x y) c;
  trace_cells2 : forall c, onBoard c ->
    cellAt g2 c = if decide (c ∈ removed) then None else cellAt g1 c;
  trace_stone : cellAt g2 (x, y) = Some player;
  trace_self : getGroupAndLiberties g2 x y = Done self;
  trace_suicide :
    liberties self = 0%nat <->
    forall e, ~ libertyOf (cellAt g2) player (x, y) e
}.

(** The result of a move with trace [g2], [removed], [self]. *)
Definition verdict (past : list string) (g2 : Grid) (removed : list Coord)
    (self : GroupResult) : MoveView :=
  if (liberties self =? 0)%nat
  then rejectedView "Suicide move is forbidden"
  else if koTest past (JSON_stringify g2)
  then rejectedView "Ko rule: cannot repeat position immediately"
  else acceptedView g2 (length removed).


(** ** Invariants of the loops *)

(** The invariant of the loops.  [E c n] says that the neighbor [n] of
    the stone [c] has been looked at. *)
Record SearchInv (g : Grid) (color : PlayerColor) (seed : Coord)
    (E : Coord -> Coord -> Prop) (st : Search) : Prop := {
  inv_nodup : NoDup (s_group st ++ s_queue st);
  inv_visited : forall k,
    k ∈ s_visited st <->
    exists c, c ∈ s_group st ++ s_queue st /\ k = keyOf c;
  inv_conn : forall c,
    c ∈ s_group st ++ s_queue st -> connected (cellAt g) color seed c;
  inv_seed : seed ∈ s_group st ++ s_queue st;
  inv_closed : forall c n,
    E c n -> cellAt g n = Some color -> n ∈ s_group st ++ s_queue st;
  inv_libs : forall k,
    k ∈ s_liberties st <->
    exists c n, E c n /\ cellAt g n = None /\ k = keyOf n;
  inv_libs_nodup : NoDup (s_liberties st);
  inv_scanned : forall c n,
    E c n -> c ∈ s_group st /\ n ∈ getNeighbors c.1 c.2
}.

(** Everything next to a stone of the group has been looked at. *)
Definition scannedAll (st : Search) (c n : Coord) : Prop :=
  c ∈ s_group st /\ n ∈ getNeighbors c.1 c.2.

(** After the neighbors [seen]: the stones [removed] so far are those of
    the dead groups met, and nothing else has changed. *)
Definition CaptureInv (g1 : Grid) (opponent : PlayerColor)
    (seen : list Coord) (g : Grid) (count : nat) : Prop :=
  wfGrid g /\
  exists removed : list Coord,
    NoDup removed /\ count = length removed /\
    (forall c, c ∈ removed <-> capturedFrom (cellAt g1) opponent seen c) /\
    (forall c, onBoard c ->
       cellAt g c = if decide (c ∈ removed) then None else cellAt g1 c).

(** ** The text of a fingerprint *)

(** The items after the first one, each after a comma, then [close]. *)
Definition joinTail (items : list string) (close : string) : string :=
  foldr (fun item acc => "," +:+ item +:+ acc) close items.

(** No encoding is the beginning of another one followed by more text. *)
Definition prefixFree {A : Type} (enc : A -> string) : Prop :=
  forall a b s t, enc a +:+ s = enc b +:+ t -> a = b /\ s = t.

(** No encoding begins with a closing bracket. *)
Definition notClosing {A : Type} (enc : A -> string) : Prop :=
  forall a s t, "]" +:+ s <> enc a +:+ t.

(** The text of an array whose items are encoded by [enc]. *)
Definition arrayText {A : Type} (enc : A -> string) (items : list A)
    : string :=
  stringifyArray (enc <$> items).

(** ** Example positions *)

(** The empty board. *)
Definition emptyGrid : Grid := replicate 19 (replicate 19 None).

(** [g] with a stone at [(x, y)], for [s = (x, y, color)]. *)
Definition putStone (g : Grid) (s : Z * Z * PlayerColor) : Grid :=
  match writeCellOn g s.1.1 s.1.2 (Some s.2) with
  | Done g' => g'
  | _ => g
  end.

(** The board with the given stones [(x, y, color)]. *)
Definition boardWith (stones : list (Z * Z * PlayerColor)) : Grid :=
  foldl putStone emptyGrid stones.

(** A heap that holds the board [g] (reference 0, rows 0 to 18) and the
    history [past] (reference 0). *)
Definition heapOf (g : Grid) (past : list string) : Heap :=
  {| rowObj := fun r => default [] (g !! r);
     boardObj := fun _ => seq 0 (length g);
     historyObj := fun _ => past;
     rowNext := length g; boardNext := 1 |}.

(** The triple a run returned ([d] when it did not return). *)
Definition returned {A : Type} (o : Outcome A) (d : A) : A :=
  match o with Done a => a | _ => d end.

(** [wfGrid], computed. *)
Definition wfGridb (g : Grid) : bool :=
  (length g =? 19)%nat &&
  forallb (fun row : Row => (length row =? 19)%nat) g.

(** [noDeadGroup], computed with [getGroupAndLiberties]. *)
Definition noDeadGroupb (g : Grid) : bool :=
  forallb
    (fun c : Coord =>
       match cellAt g c with
       | None => true
       | Some _ =>
           match getGroupAndLiberties g c.1 c.2 with
           | Done r => negb (liberties r =? 0)%nat
           | _ => false
           end
       end)
    allCoords.

(** A ko: Black to play at (2, 1) takes the white stone at (1, 1). *)
Definition koBefore : Grid :=
  boardWith [(1, 0, black); (2, 0, white); (0, 1, black); (1, 1, white);
             (3, 1, white); (1, 2, black); (2, 2, white)].

(** The position after that capture. *)
Definition koAfter : Grid :=
  boardWith [(1, 0, black); (2, 0, white); (0, 1, black); (2, 1, black);
             (3, 1, white); (1, 2, black); (2, 2, white)].


(** Black to play at (5, 5): three white groups lose their last liberty
    ((4, 5), (5, 4) and the pair (6, 5), (7, 5)); the white stone at (5, 6)
    keeps one. *)
Definition crossBoard : Grid :=
  boardWith [(4, 5, white); (5, 4, white); (6, 5, white); (7, 5, white);
             (5, 6, white);
             (3, 5, black); (4, 4, black); (4, 6, black); (6, 4, black);
             (5, 3, black); (6, 6, black); (7, 4, black); (7, 6, black);
             (8, 5, black)].

(** Black at (0, 0) would have no liberty and captures nothing. *)
Definition suicideHeap : Heap :=
  heapOf (boardWith [(1, 0, white); (0, 1, white)]) [].

(** White to play at (1, 1) right after Black has taken the ko. *)
Definition koHeap : Heap :=
  heapOf koAfter [JSON_stringify koBefore; JSON_stringify koAfter].


(** The heap and the working copy once Black's stone is placed at (5, 5) of
    [crossBoard]. *)
Definition crossPlaced : Heap * nat :=
  returned (placeStone (heapOf crossBoard []) 0 5 5 black)
    (heapOf emptyGrid [], 0%nat).

(** ** Counting stones *)

(** The number of stones of [color] on the board. *)
Definition countStones (g : Grid) (color : PlayerColor) : nat :=
  length (filter (fun c : Coord => cellAt g c = Some color) allCoords).


(** ** Writes to cells

    The same arrays of row references and the same allocation pointers:
    what a write to a cell of a row leaves as it is. *)
Definition sameLayout (h h' : Heap) : Prop :=
  boardObj h' = boardObj h /\ rowNext h' = rowNext h /\
  boardNext h' = boardNext h.

(** * The game ([App.tsx])

    The state of the page and its handlers.  A handler runs in the render
    of the current state: the [gameState] of its closure is the state its
    updaters receive as [prev].  The turn of the AI, which calls the
    handlers after an [await], and the styling are not part of the model.

    Histories are arrays too: [handleMove] builds a new one for every
    accepted move, at the reference [historyNext]. *)

Module App.

(** [PlayerColor | 'draw'] *)
Inductive Winner : Set :=
| Won (p : PlayerColor)
| draw.

(** [captured: { black, white }]: the stones taken by Black and by
    White. *)
Record Captured : Set := {
  captured_black : nat;
  captured_white : nat
}.

Record GameState : Set := {
  board : nat;
  currentPlayer : PlayerColor;
  captured : Captured;
  history : nat;
  lastMove : option Coord;
  passes : nat;
  gameOver : bool;
  winner : option Winner
}.

(** The heap and the state variables of [App] that the handlers use. *)
Record State : Type := {
  store : Heap;
  historyNext : nat;
  gameState : GameState;
  errorMsg : option string;
  gameLog : list string
}.

(** A new array of strings at the reference [next]. *)
Definition allocHistory (h : Heap) (next : nat) (items : list string)
    : Heap :=
  {| rowObj := rowObj h; boardObj := boardObj h;
     historyObj := fun i => if (i =? next)%nat then items else historyObj h i;
     rowNext := rowNext h; boardNext := boardNext h |}.

(** The heap before any allocation. *)
Definition emptyHeap : Heap :=
  {| rowObj := fun _ => []; boardObj := fun _ => [];
     historyObj := fun _ => []; rowNext := 0; boardNext := 0 |}.

(** [n] new rows with the cells [cells]. *)
Fixpoint allocRows (h : Heap) (n : nat) (cells : Row) : Heap * list nat :=
  match n with
  | O => (h, [])
  | S n' =>
      let '(h1, row) := allocRow h cells in
      let '(h2, rest) := allocRows h1 n' cells in
      (h2, row :: rest)
  end.

(** [Array(BOARD_SIZE).fill(null).map(() => Array(BOARD_SIZE).fill(null))] *)
Definition INITIAL_BOARD : Heap * nat :=
  let '(h, rows) :=
    allocRows emptyHeap (Z.to_nat BOARD_SIZE)
      (replicate (Z.to_nat BOARD_SIZE) None) in
  allocBoard h rows.

Definition INITIAL_STATE : GameState :=
  {| board := INITIAL_BOARD.2;
     currentPlayer := black;
     captured := {| captured_black := 0; captured_white := 0 |};
     history := 0%nat;
     lastMove := None;
     passes := 0;
     gameOver := false;
     winner := None |}.

(** The state of the page when it is loaded. *)
Definition initialState : State :=
  {| store :=
       allocHistory INITIAL_BOARD.1 0
         [JSON_stringify (snapshot INITIAL_BOARD.1 INITIAL_BOARD.2)];
     historyNext := 1;
     gameState := INITIAL_STATE;
     errorMsg := None;
     gameLog := ["Game Started. Black to play."] |}.

(** [`${player}`] *)
Definition colorString (player : PlayerColor) : string :=
  match player with black => "black" | white => "white" end.

(** [player === 'black' ? 'Black' : 'White'] *)
Definition colorName (player : PlayerColor) : string :=
  match player with black => "Black" | white => "White" end.

(** [text || fallback] *)
Definition orElse (text : option string) (fallback : string) : string :=
  match text with
  | None | Some EmptyString => fallback
  | Some s => s
  end.

(** [String.fromCharCode(n)], for the codes below 256. *)
Definition fromCharCode (n : Z) : string :=
  String (Ascii.ascii_of_N (Z.to_N n)) EmptyString.

(** Conventional Go coordinates: the letter of the column, without [I],
    and the number of the row counted from the bottom. *)
Definition coordLabel (x y : Z) : string :=
  fromCharCode (65 + (if 8 <=? x then x + 1 else x)) +:+
  numToString (BOARD_SIZE - y).

Definition addLog (s : State) (msg : string) : State :=
  {| store := store s; historyNext := historyNext s;
     gameState := gameState s; errorMsg := errorMsg s;
     gameLog := gameLog s ++ [msg] |}.

Definition setErrorMsg (s : State) (msg : option string) : State :=
  {| store := store s; historyNext := historyNext s;
     gameState := gameState s; errorMsg := msg; gameLog := gameLog s |}.

Definition setGameState (s : State) (gs : GameState) : State :=
  {| store := store s; historyNext := historyNext s;
     gameState := gs; errorMsg := errorMsg s; gameLog := gameLog s |}.

Definition setStore (s : State) (h : Heap) : State :=
  {| store := h; historyNext := historyNext s;
     gameState := gameState s; errorMsg := errorMsg s;
     gameLog := gameLog s |}.

Definition handleMove (s : State) (x y : Z) : Outcome State :=
  let gs := gameState s in
  if gameOver gs then Done s else
  let s := setErrorMsg s None in
  '(h, result) ← tryMakeMove (store s) (board gs) x y (currentPlayer gs)
                   (history gs);
  let s := setStore s h in
  match success result, newBoard result with
  | true, Some newBoard =>
      let nextPlayer :=
        match currentPlayer gs with black => white | white => black end in
      (* Update Captures *)
      let count := default 0%nat (capturedCount result) in
      let newCaptured :=
        match currentPlayer gs with
        | black =>
            {| captured_black := captured_black (captured gs) + count;
               captured_white := captured_white (captured gs) |}
        | white =>
            {| captured_black := captured_black (captured gs);
               captured_white := captured_white (captured gs) + count |}
        end in
      (* Add to log *)
      let logMsg :=
        colorName (currentPlayer gs) +:+ " plays " +:+ coordLabel x y +:+
        (if (0 <? count)%nat
         then " and captures " +:+ numToString (Z.of_nat count)
         else EmptyString) in
      let s := addLog s logMsg in
      let entries :=
        historyObj h (history gs) ++ [JSON_stringify (snapshot h newBoard)] in
      Done
        {| store := allocHistory h (historyNext s) entries;
           historyNext := S (historyNext s);
           gameState :=
             {| board := newBoard;
                currentPlayer := nextPlayer;
                captured := newCaptured;
                history := historyNext s;
                lastMove := Some (x, y);
                passes := 0;
                gameOver := gameOver gs;
                winner := winner gs |};
           errorMsg := errorMsg s;
           gameLog := gameLog s |}
  | _, _ => Done (setErrorMsg s (Some (orElse (error result) "Invalid move")))
  end.

(** The timer that [handleMove] starts when a move is rejected. *)
Definition errorTimeout (s : State) : State := setErrorMsg s None.

Definition calculateScore (s : State) : State :=
  let s :=
    addLog s
      "Game Over. Please calculate score manually (Auto-score is complex in Go!)." in
  let prev := gameState s in
  setGameState s
    {| board := board prev; currentPlayer := currentPlayer prev;
       captured := captured prev; history := history prev;
       lastMove := lastMove prev; passes := passes prev;
       gameOver := true; winner := Some draw |}.

Definition handlePass (s : State) : State :=
  let gs := gameState s in
  if gameOver gs then s else
  let s := addLog s (colorName (currentPlayer gs) +:+ " passes.") in
  let nextPlayer :=
    match currentPlayer gs with black => white | white => black end in
  let newPasses := (passes gs + 1)%nat in
  let s :=
    setGameState s
      {| board := board gs; currentPlayer := nextPlayer;
         captured := captured gs; history := history gs;
         lastMove := lastMove gs; passes := newPasses;
         gameOver := (2 <=? newPasses)%nat; winner := winner gs |} in
  if (2 <=? newPasses)%nat then calculateScore s else s.

Definition handleResign (s : State) : State :=
  let gs := gameState s in
  let winner :=
    match currentPlayer gs with black => white | white => black end in
  let s :=
    setGameState s
      {| board := board gs; currentPlayer := currentPlayer gs;
         captured := captured gs; history := history gs;
         lastMove := lastMove gs; passes := passes gs;
         gameOver := true; winner := Some (Won winner) |} in
  addLog s (colorString (currentPlayer gs) +:+ " resigns. " +:+
            colorString winner +:+ " wins!").

Definition resetGame (s : State) : State :=
  {| store := store s; historyNext := historyNext s;
     gameState := INITIAL_STATE;
     errorMsg := None;
     gameLog := ["Game Started. Black to play."] |}.

(** The states of a game: what the handlers make of the initial state. *)
Inductive reachable : State -> Prop :=
| reachable_initial : reachable initialState
| reachable_move s x y s' :
    reachable s -> handleMove s x y = Done s' -> reachable s'
| reachable_pass s : reachable s -> reachable (handlePass s)
| reachable_resign s : reachable s -> reachable (handleResign s)
| reachable_reset s : reachable s -> reachable (resetGame s)
| reachable_timeout s : reachable s -> reachable (errorTimeout s).

(** The board on the screen. *)
Definition position (s : State) : Grid :=
  snapshot (store s) (board (gameState s)).

(** The entries of the history of the game. *)
Definition entries (s : State) : list string :=
  historyObj (store s) (history (gameState s)).

(** The stones taken so far. *)
Definition prisoners (s : State) : nat :=
  (captured_black (captured (gameState s)) +
   captured_white (captured (gameState s)))%nat.

End App.

(** * The board on the screen ([components/Board.tsx])

    What [GoBoard] draws of its [board]: the stones, with the marker of
    the last move, and the rectangles that take the clicks.  The grid
    lines, the star points and the styling are left out. *)

Module GoBoard.

(** An element of [stones]. *)
Record Stone : Set := {
  stoneAt : Coord;
  stoneColor : PlayerColor;
  lastMoveMarker : bool
}.

Record Rendering : Set := {
  stones : list Stone;
  hoverGuides : list Coord
}.

(** The body of the loops, for the cell [(x, y)]. *)
Definition renderCell (board : Grid) (lastMove : option Coord)
    (r : Rendering) (c : Coord) : Outcome Rendering :=
  stone ← readCell board c.1 c.2;
  match stone with
  | Holds (Some color) =>
      let marker :=
        match lastMove with
        | Some l => (l.1 =? c.1) && (l.2 =? c.2)
        | None => false
        end in
      Done {| stones :=
                stones r ++ [{| stoneAt := c; stoneColor := color;
                                lastMoveMarker := marker |}];
              hoverGuides := hoverGuides r |}
  | _ =>
      Done {| stones := stones r; hoverGuides := hoverGuides r ++ [c] |}
  end.

Fixpoint renderCells (board : Grid) (lastMove : option Coord)
    (cells : list Coord) (r : Rendering) : Outcome Rendering :=
  match cells with
  | [] => Done r
  | c :: rest =>
      r' ← renderCell board lastMove r c;
      renderCells board lastMove rest r'
  end.

(** [for (let y = 0; y < BOARD_SIZE; y++)
       for (let x = 0; x < BOARD_SIZE; x++) ...] *)
Definition render (board : Grid) (lastMove : option Coord)
    : Outcome Rendering :=
  renderCells board lastMove allCoords {| stones := []; hoverGuides := [] |}.

(** [onClick] of the rectangle of the cell [c]: the call of
    [onIntersectionClick] it makes, if any. *)
Definition onClick (isAiThinking : bool) (c : Coord) : option Coord :=
  if isAiThinking then None else Some c.

(** The geometry of the drawing, in pixels. *)
Definition cellSize : Z := 30.
Definition padding : Z := 30.
Definition boardPixelSize : Z := (BOARD_SIZE - 1) * cellSize + padding * 2.

(** [cx] of the column [x]; [cy] of a row is the same expression. *)
Definition cx (x : Z) : Z := padding + x * cellSize.
Definition cy (y : Z) : Z := padding + y * cellSize.

Record Rect : Set := {
  rect_x : Z;
  rect_y : Z;
  rect_width : Z;
  rect_height : Z
}.

(** The rectangle pushed to [hoverGuides] for the cell [c]. *)
Definition guideRect (c : Coord) : Rect :=
  {| rect_x := cx c.1 - cellSize / 2;
     rect_y := cy c.2 - cellSize / 2;
     rect_width := cellSize;
     rect_height := cellSize |}.

(** The radius of the body of a stone. *)
Definition stoneRadius : Z := cellSize / 2 - 1.

Record Line : Set := {
  line_x1 : Z;
  line_y1 : Z;
  line_x2 : Z;
  line_y2 : Z
}.

(** The lines pushed to [gridLines] for the index [i]. *)
Definition verticalLine (i : Z) : Line :=
  {| line_x1 := padding + i * cellSize; line_y1 := padding;
     line_x2 := padding + i * cellSize;
     line_y2 := boardPixelSize - padding |}.

Definition horizontalLine (i : Z) : Line :=
  {| line_x1 := padding; line_y1 := padding + i * cellSize;
     line_x2 := boardPixelSize - padding;
     line_y2 := padding + i * cellSize |}.

End GoBoard.

(** * The board in the prompt ([services/geminiService.ts])

    The text [boardStr] that [getAiMove] puts into its prompt.  The call of
    the model and the parsing of its answer are not part of the model. *)

Module Gemini.

(** [cell => cell === 'black' ? 'B' : cell === 'white' ? 'W' : '.'] *)
Definition cellChar (cell : Cell) : string :=
  match cell with
  | Some black => "B"
  | Some white => "W"
  | None => "."
  end.

(** [items.join(sep)] *)
Definition join (sep : string) (items : list string) : string :=
  match items with
  | [] => EmptyString
  | first :: rest => fold_left (fun acc item => acc +:+ sep +:+ item) rest first
  end.

Definition newline : string := String (Ascii.ascii_of_nat 10) EmptyString.

Definition boardStr (board : Grid) : string :=
  join newline (map (fun row => join EmptyString (map cellChar row)) board).

End Gemini.

(** * The states of a game

    What holds of every state of a game. *)
Record GameInv (s : App.State) : Prop := {
  game_board : validBoard (App.store s) (App.board (App.gameState s));
  game_initial_board :
    allocated (App.store s) (App.board App.INITIAL_STATE) /\
    snapshot (App.store s) (App.board App.INITIAL_STATE) = emptyGrid;
  game_initial_history :
    historyObj (App.store s) (App.history App.INITIAL_STATE)
      = [JSON_stringify emptyGrid];
  game_history_ref :
    (App.history (App.gameState s) < App.historyNext s)%nat;
  game_positions :
    exists positions : list Grid,
      App.entries s = JSON_stringify <$> positions /\
      head positions = Some emptyGrid /\
      last positions = Some (App.position s) /\
      forall i g0 g1,
        positions !! i = Some g0 -> positions !! S i = Some g1 ->
        wfGrid g0 /\
        exists player x y count,
          moveOn g0 x y player [] = Done (acceptedView g1 count);
  game_no_repeat : forall i a b,
    App.entries s !! i = Some a ->
    App.entries s !! S i = Some b \/ App.entries s !! S (S i) = Some b ->
    a <> b;
  game_legal : noDeadGroup (cellAt (App.position s));
  game_count :
    (countStones (App.position s) black + countStones (App.position s) white
     + App.prisoners s + 1)%nat = length (App.entries s);
  game_passes :
    (App.passes (App.gameState s) <= 2)%nat /\
    (App.gameOver (App.gameState s) = false ->
     (App.passes (App.gameState s) <= 1)%nat);
  game_over :
    App.gameOver (App.gameState s) = true <->
    App.winner (App.gameState s) <> None;
  game_lastMove :
    match App.lastMove (App.gameState s) with
    | Some c => onBoard c /\ cellAt (App.position s) c <> None
    | None =>
        App.position s = emptyGrid /\
        App.history (App.gameState s) = App.history App.INITIAL_STATE
    end
}.

(** ** Example games *)

(** The state after the moves [moves], each played if it is accepted. *)
Definition playAll (s : App.State) (moves : list Coord) : App.State :=
  foldl (fun s c => returned (App.handleMove s c.1 c.2) s) s moves.

(** Black (0, 1), White (0, 0), Black (1, 0), which takes the white stone
    in the corner. *)
Definition afterCapture : App.State :=
  playAll App.initialState [(0, 1); (0, 0); (1, 0)].


(** * Lemmas *)

(** ** Coordinates *)

Lemma isOnBoard_spec x y :
  isOnBoard x y = true <-> 0 <= x < BOARD_SIZE /\ 0 <= y < BOARD_SIZE.
Proof. unfold isOnBoard. rewrite !andb_true_iff. lia. Qed.

Lemma onBoard_spec c :
  onBoard c <-> 0 <= c.1 < 19 /\ 0 <= c.2 < 19.
Proof. unfold onBoard. rewrite isOnBoard_spec. unfold BOARD_SIZE. lia. Qed.

Ltac unfold_neighbors :=
  unfold getNeighbors, BOARD_SIZE;
  repeat match goal with
         | |- context [ (?a <? ?b) ] => destruct (Z.ltb_spec a b)
         end.

Lemma elem_of_getNeighbors x y (n : Coord) :
  onBoard (x, y) ->
  n ∈ getNeighbors x y <-> onBoard n /\ adjacent (x, y) n.
Proof.
  rewrite !onBoard_spec. unfold adjacent. destruct n as [nx ny]. simpl.
  intros Hxy. unfold_neighbors; simpl;
    rewrite ?elem_of_cons, ?elem_of_nil;
    (split;
     [ intros Hm; repeat destruct Hm as [Hm|Hm]; try done;
       injection Hm as -> ->; lia
     | intros [Hn Ha];
       assert (Hc : (nx = x - 1 /\ ny = y) \/ (nx = x + 1 /\ ny = y) \/
                    (nx = x /\ ny = y - 1) \/ (nx = x /\ ny = y + 1))
         by lia;
       destruct Hc as [[-> ->]|[[-> ->]|[[-> ->]|[-> ->]]]];
       try lia; auto 6 ]).
Qed.

Lemma getNeighbors_onBoard x y n :
  onBoard (x, y) -> n ∈ getNeighbors x y -> onBoard n.
Proof. intros H Hn. by apply (elem_of_getNeighbors x y n H) in Hn as [? _]. Qed.

Lemma NoDup_getNeighbors x y : NoDup (getNeighbors x y).
Proof.
  unfold_neighbors; simpl; repeat constructor;
    rewrite ?elem_of_cons, ?elem_of_nil;
    intros Hm; repeat destruct Hm as [Hm|Hm]; try done;
    injection Hm; lia.
Qed.

Lemma adjacent_sym a b : adjacent a b -> adjacent b a.
Proof. unfold adjacent. lia. Qed.

Lemma getNeighbors_sym (a b : Coord) :
  onBoard a -> onBoard b ->
  b ∈ getNeighbors a.1 a.2 -> a ∈ getNeighbors b.1 b.2.
Proof.
  destruct a as [ax ay], b as [bx b_y]. simpl. intros Ha Hb H.
  apply elem_of_getNeighbors in H as [_ H]; [|done].
  apply elem_of_getNeighbors; [done|]. split; [done|]. by apply adjacent_sym.
Qed.

Lemma length_getNeighbors x y :
  onBoard (x, y) ->
  length (getNeighbors x y) =
    if isCorner x y then 2%nat else if isInterior x y then 4%nat else 3%nat.
Proof.
  rewrite onBoard_spec. simpl. intros H.
  unfold isCorner, isInterior, getNeighbors, BOARD_SIZE.
  repeat match goal with
         | |- context [ (?a <? ?b) ] => destruct (Z.ltb_spec a b)
         | |- context [ (?a =? ?b) ] => destruct (Z.eqb_spec a b)
         end; simpl; try reflexivity; lia.
Qed.

Lemma elem_of_allCoords c : c ∈ allCoords <-> onBoard c.
Proof.
  unfold allCoords. rewrite onBoard_spec, list_elem_of_bind.
  unfold BOARD_SIZE. split.
  - intros (y & Hc & Hy). apply list_elem_of_fmap in Hc as (x & -> & Hx).
    apply elem_of_seqZ in Hx, Hy. simpl. lia.
  - intros [Hx Hy]. exists c.2. split.
    + apply list_elem_of_fmap. exists c.1. split; [by destruct c|].
      apply elem_of_seqZ. lia.
    + apply elem_of_seqZ. lia.
Qed.

Lemma length_allCoords : length allCoords = 361%nat.
Proof. reflexivity. Qed.

Lemma onBoard_length_bound (l : list Coord) :
  NoDup l -> (forall c, c ∈ l -> onBoard c) -> (length l <= 361)%nat.
Proof.
  intros Hnd Hall. rewrite <- length_allCoords.
  apply submseteq_length, NoDup_submseteq; [done|].
  intros c Hc. apply elem_of_allCoords. auto.
Qed.

Lemma NoDup_keys : NoDup (keyOf <$> allCoords).
Proof. eapply bool_decide_unpack. vm_compute. exact I. Qed.

Lemma fmap_NoDup_inj {A B : Type} (f : A -> B) (l : list A) (a b : A) :
  NoDup (f <$> l) -> a ∈ l -> b ∈ l -> f a = f b -> a = b.
Proof.
  induction l as [|x l IH]; simpl; intros Hnd Ha Hb Hab.
  - by apply elem_of_nil in Ha.
  - apply NoDup_cons in Hnd as [Hx Hnd].
    apply elem_of_cons in Ha as [->|Ha], Hb as [->|Hb]; auto.
    + exfalso. apply Hx. rewrite Hab. by apply list_elem_of_fmap_2.
    + exfalso. apply Hx. rewrite <- Hab. by apply list_elem_of_fmap_2.
Qed.

Lemma keyOf_inj a b : onBoard a -> onBoard b -> keyOf a = keyOf b -> a = b.
Proof.
  intros Ha Hb. apply (fmap_NoDup_inj keyOf allCoords).
  - apply NoDup_keys.
  - by apply elem_of_allCoords.
  - by apply elem_of_allCoords.
Qed.

(** ** Boards of the right shape *)

Lemma arrayGet_Some {A : Type} (a : list A) (i : Z) :
  0 <= i < Z.of_nat (length a) -> is_Some (arrayGet a i).
Proof.
  intros H. unfold arrayGet. destruct (Z.leb_spec 0 i); [|lia].
  apply lookup_lt_is_Some. lia.
Qed.

Lemma readCell_wf g x y :
  wfGrid g -> onBoard (x, y) ->
  readCell g x y = Done (Holds (cellAt g (x, y))).
Proof.
  intros [Hlen Hrows] Hc. apply onBoard_spec in Hc. simpl in Hc.
  unfold readCell, cellAt. simpl.
  destruct (arrayGet_Some g y) as [row Hrow]; [lia|]. rewrite Hrow.
  assert (length row = 19%nat) as Hr.
  { unfold arrayGet in Hrow. destruct (0 <=? y); [|done].
    apply list_elem_of_lookup_2 in Hrow.
    by apply (proj1 (Forall_forall _ _) Hrows) in Hrow. }
  destruct (arrayGet_Some row x) as [v Hv]; [lia|]. by rewrite Hv.
Qed.

(** ** Groups *)

Lemma connected_inv f color a c :
  connected f color a c ->
  onBoard a /\ f a = Some color /\ onBoard c /\ f c = Some color.
Proof.
  induction 1 as [|b n Hab (Ha & Hfa & Hb & Hfb) Hn Hfn]; [done|].
  repeat split; try done.
  destruct b as [bx b_y]. by apply (getNeighbors_onBoard bx b_y).
Qed.

Lemma connected_trans f color a b c :
  connected f color a b -> connected f color b c -> connected f color a c.
Proof.
  intros Hab Hbc. induction Hbc as [|c n Hbc IH Hn Hfn]; [done|].
  by apply (connected_step f color a c n).
Qed.

Lemma connected_sym f color a b :
  connected f color a b -> connected f color b a.
Proof.
  induction 1 as [|b n Hab IH Hn Hfn]; [by constructor|].
  destruct (connected_inv _ _ _ _ Hab) as (Ha & Hfa & Hb & Hfb).
  assert (Hnb : onBoard n).
  { destruct b as [bx b_y]. by apply (getNeighbors_onBoard bx b_y). }
  apply (connected_trans f color n b a); [|done].
  apply (connected_step f color n n b); [by constructor| |done].
  by apply getNeighbors_sym.
Qed.

Lemma libertyOf_onBoard f color a e : libertyOf f color a e -> onBoard e.
Proof.
  intros (c & Hc & He & _). apply connected_inv in Hc as (_ & _ & Hc & _).
  destruct c as [x y]. by apply (getNeighbors_onBoard x y).
Qed.

(** ** Sets of strings *)

Lemma setHas_true s k : setHas s k = true <-> k ∈ s.
Proof. unfold setHas. apply bool_decide_eq_true. Qed.

Lemma elem_of_setAdd s k k' : k' ∈ setAdd s k <-> k' ∈ s \/ k' = k.
Proof.
  unfold setAdd. destruct (setHas s k) eqn:Hk.
  - apply setHas_true in Hk. split; [auto|]. by intros [?| ->].
  - rewrite elem_of_app, list_elem_of_singleton. tauto.
Qed.

Lemma NoDup_setAdd s k : NoDup s -> NoDup (setAdd s k).
Proof.
  intros Hs. unfold setAdd. destruct (setHas s k) eqn:Hk; [done|].
  apply NoDup_app. repeat split; [done| |apply NoDup_singleton].
  intros x Hx Hxk. apply list_elem_of_singleton in Hxk as ->.
  apply setHas_true in Hx. congruence.
Qed.

(** ** The search of [getGroupAndLiberties] *)

Section SearchCorrect.
Variable g : Grid.
Hypothesis Hwf : wfGrid g.
Variable color : PlayerColor.
Variable seed : Coord.

Lemma SearchInv_iff E E' st :
  (forall c n, E c n <-> E' c n) ->
  SearchInv g color seed E st -> SearchInv g color seed E' st.
Proof.
  intros HE [H1 H2 H3 H4 H5 H6 H7 H8]. split; try done.
  - intros c n Hc. apply (H5 c n). by apply HE.
  - intros k. rewrite H6. split; intros (c & n & Hc & Hn);
      exists c, n; split; try done; by apply HE.
  - intros c n Hc. apply H8. by apply HE.
Qed.

Lemma visitNeighbor_inv E st cur n :
  SearchInv g color seed E st ->
  cur ∈ s_group st -> n ∈ getNeighbors cur.1 cur.2 ->
  exists st',
    visitNeighbor g color st n = Done st' /\
    SearchInv g color seed (fun c m => E c m \/ (c = cur /\ m = n)) st' /\
    s_group st' = s_group st.
Proof.
  intros Hinv Hcur Hn.
  assert (Hcb : onBoard cur).
  { eapply connected_inv, (inv_conn _ _ _ _ _ Hinv), elem_of_app. by left. }
  assert (Hnb : onBoard n).
  { destruct cur as [x y]. by apply (getNeighbors_onBoard x y). }
  unfold visitNeighbor. destruct n as [nx ny]. simpl.
  rewrite (readCell_wf g nx ny Hwf Hnb). simpl.
  destruct Hinv as [H1 H2 H3 H4 H5 H6 H7 H8].
  destruct (cellAt g (nx, ny)) as [c|] eqn:Hcell.
  - destruct (bool_decide (c = color) &&
              negb (setHas (s_visited st) (key nx ny))) eqn:Htest.
    + apply andb_true_iff in Htest as [Hc Hnew].
      apply bool_decide_eq_true in Hc as ->.
      apply negb_true_iff in Hnew.
      assert (Hfresh : (nx, ny) ∉ s_group st ++ s_queue st).
      { intros Hin.
        assert (setHas (s_visited st) (key nx ny) = true); [|congruence].
        apply setHas_true, H2. by exists (nx, ny). }
      eexists. split; [reflexivity|]. split; [|done].
      split; simpl; rewrite ?app_assoc.
      * apply NoDup_app. repeat split; [done| |apply NoDup_singleton].
        intros x Hx Hxn. by apply list_elem_of_singleton in Hxn as ->.
      * intros k. rewrite elem_of_setAdd, H2. split.
        -- intros [(c & Hc & ->)| ->].
           ++ exists c. split; [|done]. apply elem_of_app. by left.
           ++ exists (nx, ny). split; [|done]. apply elem_of_app. right.
              by apply list_elem_of_singleton.
        -- intros (c & Hc & ->). apply elem_of_app in Hc as [Hc|Hc].
           ++ left. by exists c.
           ++ apply list_elem_of_singleton in Hc as ->. by right.
      * intros c Hc. apply elem_of_app in Hc as [Hc|Hc]; [by apply H3|].
        apply list_elem_of_singleton in Hc as ->.
        apply (connected_step _ _ _ cur); [|done|done].
        apply H3, elem_of_app. by left.
      * apply elem_of_app. by left.
      * intros c m [Hc|[-> ->]] Hm; apply elem_of_app.
        -- left. by apply (H5 c m).
        -- right. by apply list_elem_of_singleton.
      * intros k. rewrite H6. split.
        -- intros (c & m & Hc & Hm). exists c, m. auto.
        -- intros (c & m & [Hc|[-> ->]] & Hm & ->); [|congruence].
           by exists c, m.
      * done.
      * intros c m [Hc|[-> ->]]; [by apply H8|done].
    + eexists. split; [reflexivity|]. split; [|done].
      split; try done.
      * intros c' m [Hc|[-> ->]] Hm; [by apply (H5 c' m)|].
        apply andb_false_iff in Htest as [Hc|Hseen].
        -- apply bool_decide_eq_false in Hc. congruence.
        -- apply negb_false_iff, setHas_true, H2 in Hseen
             as (c' & Hc' & Hk).
           assert ((nx, ny) = c') as <-; [|done].
           apply keyOf_inj; [done| |done].
           by eapply connected_inv, H3.
      * intros k. rewrite H6. split.
        -- intros (c' & m & Hc & Hm). exists c', m. auto.
        -- intros (c' & m & [Hc|[-> ->]] & Hm & ->); [|congruence].
           by exists c', m.
      * intros c' m [Hc|[-> ->]]; [by apply H8|done].
  - eexists. split; [reflexivity|]. split; [|done].
    split; simpl; try done.
    + intros c m [Hc|[-> ->]] Hm; [by apply (H5 c m)|congruence].
    + intros k. rewrite elem_of_setAdd, H6. split.
      * intros [(c & m & Hc & Hm)| ->].
        -- exists c, m. auto.
        -- exists cur, (nx, ny). auto.
      * intros (c & m & [Hc|[-> ->]] & Hm & ->); [|by right].
        left. by exists c, m.
    + by apply NoDup_setAdd.
    + intros c m [Hc|[-> ->]]; [by apply H8|done].
Qed.

Lemma visitNeighbors_inv ns : forall E st cur,
  SearchInv g color seed E st -> cur ∈ s_group st ->
  (forall n, n ∈ ns -> n ∈ getNeighbors cur.1 cur.2) ->
  exists st',
    visitNeighbors g color ns st = Done st' /\
    SearchInv g color seed (fun c m => E c m \/ (c = cur /\ m ∈ ns)) st' /\
    s_group st' = s_group st.
Proof.
  induction ns as [|n ns IH]; intros E st cur Hinv Hcur Hns; simpl.
  - exists st. split; [done|]. split; [|done].
    apply (SearchInv_iff E); [|done].
    intros c m. rewrite elem_of_nil. tauto.
  - destruct (visitNeighbor_inv E st cur n Hinv Hcur)
      as (st1 & -> & Hinv1 & Hg1).
    { apply Hns. by left. }
    simpl.
    destruct (IH _ st1 cur Hinv1) as (st2 & -> & Hinv2 & Hg2).
    { by rewrite Hg1. }
    { intros m Hm. apply Hns. by right. }
    exists st2. split; [done|]. split; [|congruence].
    revert Hinv2. apply SearchInv_iff.
    intros c m. rewrite elem_of_cons. tauto.
Qed.

Lemma searchLoop_inv fuel : forall st,
  SearchInv g color seed (scannedAll st) st ->
  (361 <= fuel + length (s_group st))%nat ->
  exists st',
    searchLoop fuel g color st = Done st' /\
    SearchInv g color seed (scannedAll st') st' /\ s_queue st' = [].
Proof.
  induction fuel as [|fuel IH]; intros st Hinv Hfuel;
    destruct st as [grp vis q libs]; simpl in *.
  - assert (length (grp ++ q) <= 361)%nat as Hlen.
    { apply onBoard_length_bound; [apply (inv_nodup _ _ _ _ _ Hinv)|].
      intros c Hc. by eapply connected_inv, (inv_conn _ _ _ _ _ Hinv). }
    rewrite length_app in Hlen.
    destruct q as [|cur rest]; [|simpl in Hlen; lia].
    by eexists.
  - destruct q as [|cur rest]; [by eexists|].
    set (st1 := {| s_group := grp ++ [cur]; s_visited := vis;
                   s_queue := rest; s_liberties := libs |}).
    assert (Hinv1 : SearchInv g color seed
              (fun c n => c ∈ grp /\ n ∈ getNeighbors c.1 c.2) st1).
    { destruct Hinv as [H1 H2 H3 H4 H5 H6 H7 H8]. simpl in *.
      split; simpl; rewrite <- ?app_assoc; simpl; try done.
      intros c n [Hc Hn]. split; [|done]. apply elem_of_app. by left. }
    destruct (visitNeighbors_inv (getNeighbors cur.1 cur.2) _ st1 cur Hinv1)
      as (st2 & Hrun & Hinv2 & Hg2).
    { apply elem_of_app. right. by apply list_elem_of_singleton. }
    { done. }
    rewrite Hrun. simpl. apply IH.
    + revert Hinv2. apply SearchInv_iff. intros c n.
      unfold scannedAll. rewrite Hg2. simpl.
      rewrite elem_of_app, list_elem_of_singleton.
      split; [intros [[? ?]|[-> ?]]; auto|].
      intros [[?| ->] ?]; auto.
    + rewrite Hg2. simpl. rewrite length_app. simpl. lia.
Qed.
End SearchCorrect.

(** What [getGroupAndLiberties] returns for an occupied cell: the group is
    the set of stones connected to the seed, each listed once, and the
    liberty count is the length of a duplicate-free list of the liberties
    of the group. *)
Lemma getGroupAndLiberties_correct g x y color :
  wfGrid g -> onBoard (x, y) -> cellAt g (x, y) = Some color ->
  exists (grp libs : list Coord),
    getGroupAndLiberties g x y
      = Done {| group := grp; liberties := length libs |} /\
    NoDup grp /\
    (forall c, c ∈ grp <-> connected (cellAt g) color (x, y) c) /\
    NoDup libs /\
    (forall e, e ∈ libs <-> libertyOf (cellAt g) color (x, y) e).
Proof.
  intros Hwf Hxy Hcell. unfold getGroupAndLiberties.
  rewrite (readCell_wf g x y Hwf Hxy), Hcell.
  cbv beta iota delta [mbind Outcome_bind].
  set (st0 := {| s_group := []; s_visited := setAdd [] (key x y);
                 s_queue := [(x, y)]; s_liberties := [] |}).
  destruct (searchLoop_inv g Hwf color (x, y) searchFuel st0)
    as (st & -> & Hinv & Hq).
  { split; simpl.
    - apply NoDup_singleton.
    - intros k. rewrite elem_of_setAdd, elem_of_nil. split.
      + intros [[]| ->]. exists (x, y). split; [|done].
        by apply list_elem_of_singleton.
      + intros (c & Hc & ->). apply list_elem_of_singleton in Hc as ->.
        by right.
    - intros c Hc. apply list_elem_of_singleton in Hc as ->.
      by constructor.
    - by apply list_elem_of_singleton.
    - intros c n [Hc _]. by apply elem_of_nil in Hc.
    - intros k. rewrite elem_of_nil. split; [done|].
      intros (c & n & [Hc _] & _). by apply elem_of_nil in Hc.
    - constructor.
    - intros c n [Hc _]. by apply elem_of_nil in Hc. }
  { simpl. unfold searchFuel, BOARD_SIZE. lia. }
  simpl. destruct Hinv as [H1 H2 H3 H4 H5 H6 H7 H8].
  rewrite Hq, app_nil_r in *.
  assert (Hgrp : forall c,
             c ∈ s_group st <-> connected (cellAt g) color (x, y) c).
  { intros c. split; [apply H3|].
    induction 1 as [|b n Hb IH Hn Hfn]; [done|].
    apply (H5 b n); [|done]. by split. }
  set (cand := filter (fun e => cellAt g e = None)
                 (c ← s_group st; getNeighbors c.1 c.2)).
  assert (Hcand : forall e,
             e ∈ remove_dups cand <-> libertyOf (cellAt g) color (x, y) e).
  { intros e. rewrite elem_of_remove_dups. unfold cand.
    rewrite list_elem_of_filter, list_elem_of_bind. unfold libertyOf.
    split.
    - intros (He & c & Hn & Hc). exists c. by rewrite <- Hgrp.
    - intros (c & Hc & Hn & He). split; [done|]. exists c.
      by rewrite Hgrp. }
  exists (s_group st), (remove_dups cand).
  split; [|by auto using NoDup_remove_dups].
  do 2 f_equal.
  rewrite <- (length_fmap keyOf (remove_dups cand)).
  apply Permutation_length, NoDup_Permutation; [done| |].
  - apply NoDup_fmap_2_strong; [|apply NoDup_remove_dups].
    intros a b Ha Hb. apply keyOf_inj.
    + by eapply libertyOf_onBoard, Hcand.
    + by eapply libertyOf_onBoard, Hcand.
  - intros k. rewrite H6, list_elem_of_fmap. split.
    + intros (c & n & [Hc Hn] & He & ->). exists n. split; [done|].
      apply Hcand. exists c. by rewrite <- Hgrp.
    + intros (e & -> & He). apply Hcand in He as (c & Hc & Hn & He).
      exists c, e. repeat split; try done. by apply Hgrp.
Qed.

(** ** The code on the heap and the code on board contents *)

Lemma unchanged_refl h : unchanged h h.
Proof. unfold unchanged. auto. Qed.

Lemma unchanged_snapshot h h' board :
  allocated h board -> unchanged h h' -> snapshot h' board = snapshot h board.
Proof.
  intros [Hb Hrows] (Hr & Hbo & _). unfold snapshot. rewrite (Hbo _ Hb).
  apply map_ext_in. intros r Hr'. apply Hr, Hrows. by apply list_elem_of_In.
Qed.

Lemma copyRows_spec rows : forall h h' rows',
  (forall r, r ∈ rows -> (r < rowNext h)%nat) ->
  copyRows h rows = (h', rows') ->
  rows' = seq (rowNext h) (length rows) /\
  rowNext h' = (rowNext h + length rows)%nat /\
  (forall r, (r < rowNext h)%nat -> rowObj h' r = rowObj h r) /\
  map (rowObj h') rows' = map (rowObj h) rows /\
  boardObj h' = boardObj h /\ historyObj h' = historyObj h /\
  boardNext h' = boardNext h.
Proof.
  induction rows as [|row rest IH]; intros h h' rows' Hrows Hcopy;
    simpl in Hcopy.
  - injection Hcopy as <- <-. simpl. repeat split; auto with lia.
  - destruct (copyRows _ rest) as [h2 rest'] eqn:Hrest.
    injection Hcopy as <- <-.
    apply IH in Hrest as (-> & Hnext & Hold & Hmap & Hb & Hh & Hbn).
    2:{ intros r Hr. simpl. assert (r < rowNext h)%nat; [|lia].
        apply Hrows. by right. }
    simpl in *.
    assert (Hkeep : forall r, (r < rowNext h)%nat -> rowObj h2 r = rowObj h r).
    { intros r Hr. rewrite Hold by lia.
      destruct (Nat.eqb_spec r (rowNext h)); [lia|done]. }
    repeat split; try done; try lia.
    f_equal.
    + rewrite Hold by lia. by rewrite Nat.eqb_refl.
    + rewrite Hmap. apply map_ext_in. intros r Hr.
      destruct (Nat.eqb_spec r (rowNext h)) as [->|]; [|done].
      assert (rowNext h < rowNext h)%nat; [|lia].
      apply Hrows. right. by apply list_elem_of_In.
Qed.

Lemma copyBoard_spec h board h1 copy :
  allocated h board -> copyBoard h board = (h1, copy) ->
  snapshot h1 copy = snapshot h board /\ working h h1 copy.
Proof.
  intros [Hb Hrows] Hcopy. unfold copyBoard in Hcopy.
  destruct (copyRows h (boardObj h board)) as [h' rows'] eqn:Hcr.
  apply copyRows_spec in Hcr
    as (-> & Hnext & Hold & Hmap & Hbo & Hh & Hbn); [|done].
  injection Hcopy as <- <-. unfold snapshot, working, unchanged. simpl.
  rewrite Hbn, Nat.eqb_refl. split; [done|]. split.
  - repeat split; auto with lia.
    + intros b Hlt. rewrite Hbo.
      destruct (Nat.eqb_spec b (boardNext h)); [lia|done].
    + intros i. by rewrite Hh.
  - split; [apply NoDup_seq|].
    intros r Hr. apply elem_of_seq in Hr. lia.
Qed.

Lemma arrayGet_fmap {A B : Type} (f : A -> B) (a : list A) (i : Z) :
  arrayGet (f <$> a) i = f <$> arrayGet a i.
Proof. unfold arrayGet. destruct (0 <=? i); [apply list_lookup_fmap|done]. Qed.

Lemma writeCell_sim h0 h board x y v g' :
  working h0 h board ->
  writeCellOn (snapshot h board) x y v = Done g' ->
  exists h',
    writeCell h board x y v = Done h' /\
    snapshot h' board = g' /\ working h0 h' board.
Proof.
  intros (Hun & Hnd & Hfresh). unfold writeCellOn, writeCell, snapshot.
  change (map (rowObj h)) with (fmap (M:=list) (rowObj h)).
  rewrite arrayGet_fmap.
  destruct (arrayGet (boardObj h board) y) as [r|] eqn:Hr; [|done]. simpl.
  destruct (arraySet (rowObj h r) x v) as [cells| | |]; try done. simpl.
  intros [= <-]. eexists. split; [done|].
  unfold arrayGet in Hr. destruct (0 <=? y); [|done].
  split.
  - apply list_eq. intros i. unfold storeRow. simpl.
    change (map ?f) with (fmap (M:=list) f).
    rewrite list_lookup_fmap.
    destruct (decide (i = Z.to_nat y)) as [->|Hi].
    + rewrite list_lookup_insert_eq.
      * rewrite Hr. simpl. by rewrite Nat.eqb_refl.
      * rewrite length_fmap. by eapply lookup_lt_Some.
    + rewrite list_lookup_insert_ne by done. rewrite list_lookup_fmap.
      destruct (boardObj h board !! i) as [r'|] eqn:Hr'; [|done]. simpl.
      destruct (Nat.eqb_spec r' r) as [->|]; [|done].
      destruct Hi. by apply (NoDup_lookup _ _ _ r Hnd).
  - unfold working, unchanged, storeRow. simpl.
    destruct Hun as (H1 & H2 & H3 & H4 & H5).
    repeat split; try done.
    intros r' Hr'. destruct (Nat.eqb_spec r' r) as [->|]; [|by apply H1].
    assert (rowNext h0 <= r)%nat; [|lia].
    by eapply Hfresh, list_elem_of_lookup_2.
Qed.

Lemma removeStones_sim h0 board stones : forall h count g' count',
  working h0 h board ->
  removeStonesOn (snapshot h board) stones count = Done (g', count') ->
  exists h',
    removeStones h board stones count = Done (h', count') /\
    snapshot h' board = g' /\ working h0 h' board.
Proof.
  induction stones as [|stone rest IH]; intros h count g' count' Hw; simpl.
  - intros [= <- <-]. by exists h.
  - destruct (writeCellOn _ _ _ _) as [g1| | |] eqn:Hwr; try done. simpl.
    destruct (writeCell_sim _ _ _ _ _ _ _ Hw Hwr) as (h1 & -> & <- & Hw1).
    simpl. by apply IH.
Qed.

Lemma captureAt_sim h0 h board opponent count n g' count' :
  working h0 h board ->
  captureAtOn (snapshot h board) opponent count n = Done (g', count') ->
  exists h',
    captureAt h board opponent count n = Done (h', count') /\
    snapshot h' board = g' /\ working h0 h' board.
Proof.
  intros Hw. unfold captureAtOn, captureAt.
  destruct (readCell _ _ _) as [c| | |]; try done. simpl.
  destruct (bool_decide _).
  - destruct (getGroupAndLiberties _ _ _) as [r| | |]; try done. simpl.
    destruct (liberties r =? 0)%nat.
    + by apply removeStones_sim.
    + intros [= <- <-]. by exists h.
  - intros [= <- <-]. by exists h.
Qed.

Lemma captureLoop_sim h0 board opponent ns : forall h count g' count',
  working h0 h board ->
  captureLoopOn (snapshot h board) opponent ns count = Done (g', count') ->
  exists h',
    captureLoop h board opponent ns count = Done (h', count') /\
    snapshot h' board = g' /\ working h0 h' board.
Proof.
  induction ns as [|n rest IH]; intros h count g' count' Hw; simpl.
  - intros [= <- <-]. by exists h.
  - destruct (captureAtOn _ _ _ _) as [[g1 count1]| | |] eqn:Hat; try done.
    destruct (captureAt_sim _ _ _ _ _ _ _ _ Hw Hat) as (h1 & -> & <- & Hw1).
    simpl. by apply IH.
Qed.

(** [tryMakeMove] computes [moveOn] of the contents of its arguments, and
    extends the heap without changing any object that was there. *)
Lemma tryMakeMove_refines h board x y player history v :
  allocated h board ->
  moveOn (snapshot h board) x y player (historyObj h history) = Done v ->
  exists h' r,
    tryMakeMove h board x y player history = Done (h', r) /\
    viewOf h' r = v /\ unchanged h h'.
Proof.
  intros Hal. unfold moveOn, tryMakeMove.
  destruct (negb (isOnBoard x y)).
  { intros [= <-]. exists h. eexists. by auto using unchanged_refl. }
  destruct (readCell _ x y) as [target| | |]; try done. simpl.
  destruct (negb (bool_decide _)).
  { intros [= <-]. exists h. eexists. by auto using unchanged_refl. }
  destruct (copyBoard h board) as [h1 copy] eqn:Hcopy.
  apply copyBoard_spec in Hcopy as [Hsnap Hw1]; [|done]. rewrite <- Hsnap.
  destruct (writeCellOn _ x y _) as [g1| | |] eqn:Hwr; try done. simpl.
  destruct (writeCell_sim _ _ _ _ _ _ _ Hw1 Hwr) as (h2 & -> & <- & Hw2).
  simpl.
  destruct (captureLoopOn _ _ _ _) as [[g2 count]| | |] eqn:Hcap; try done.
  destruct (captureLoop_sim _ _ _ _ _ _ _ _ Hw2 Hcap)
    as (h3 & -> & <- & Hw3).
  simpl.
  destruct (getGroupAndLiberties _ x y) as [self| | |]; try done. simpl.
  assert (Hun : unchanged h h3) by apply Hw3.
  assert (historyObj h3 history = historyObj h history) as ->
    by apply Hun.
  fold (koTest (historyObj h history) (JSON_stringify (snapshot h3 copy))).
  destruct (liberties self =? 0)%nat.
  { intros [= <-]. exists h3. eexists. by auto. }
  destruct (koTest _ _).
  { intros [= <-]. exists h3. eexists. by auto. }
  intros [= <-]. exists h3. eexists. by auto.
Qed.

(** ** Writing cells of a well-shaped board *)

Lemma arrayGet_lookup {A : Type} (a : list A) (i : Z) :
  0 <= i -> arrayGet a i = a !! Z.to_nat i.
Proof. intros H. unfold arrayGet. by destruct (Z.leb_spec 0 i); [|lia]. Qed.

Lemma wfGrid_row g y row :
  wfGrid g -> arrayGet g y = Some row -> length row = 19%nat.
Proof.
  intros [_ Hrows] Hrow. unfold arrayGet in Hrow.
  destruct (0 <=? y); [|done]. apply list_elem_of_lookup_2 in Hrow.
  by apply (proj1 (Forall_forall _ _) Hrows) in Hrow.
Qed.

Lemma writeCellOn_wf g x y v :
  wfGrid g -> onBoard (x, y) ->
  exists g',
    writeCellOn g x y v = Done g' /\ wfGrid g' /\
    forall c, onBoard c ->
      cellAt g' c = if decide (c = (x, y)) then v else cellAt g c.
Proof.
  intros Hwf Hxy. pose proof Hwf as [Hlen Hrows].
  apply onBoard_spec in Hxy. simpl in Hxy. unfold writeCellOn.
  destruct (arrayGet_Some g y) as [row Hrow]; [lia|]. rewrite Hrow.
  pose proof (wfGrid_row g y row Hwf Hrow) as Hr.
  rewrite arrayGet_lookup in Hrow by lia.
  unfold arraySet.
  destruct (Z.leb_spec 0 x); [|lia].
  destruct (Z.ltb_spec x (Z.of_nat (length row))); [|lia]. simpl.
  eexists. split; [done|]. split.
  - split; [by rewrite length_insert|].
    apply Forall_insert; [done|]. by rewrite length_insert.
  - intros [cx cy] Hc. apply onBoard_spec in Hc. simpl in Hc.
    unfold cellAt. simpl. rewrite !(arrayGet_lookup _ cy) by lia.
    destruct (decide (cy = y)) as [->|Hy].
    + rewrite list_lookup_insert_eq by lia. rewrite Hrow.
      rewrite !(arrayGet_lookup _ cx) by lia.
      destruct (decide (cx = x)) as [->|Hx].
      * rewrite list_lookup_insert_eq by lia. by rewrite decide_True.
      * rewrite list_lookup_insert_ne by lia.
        rewrite decide_False; [done|congruence].
    + rewrite list_lookup_insert_ne by lia.
      rewrite decide_False; [done|congruence].
Qed.

Lemma removeStonesOn_wf stones : forall g count,
  wfGrid g -> (forall s, s ∈ stones -> onBoard s) ->
  exists g',
    removeStonesOn g stones count = Done (g', (count + length stones)%nat) /\
    wfGrid g' /\
    forall c, onBoard c ->
      cellAt g' c = if decide (c ∈ stones) then None else cellAt g c.
Proof.
  induction stones as [|[sx sy] rest IH]; intros g count Hwf Hon; simpl.
  - exists g. rewrite Nat.add_0_r. repeat split; try done.
    apply Hwf. apply Hwf.
  - destruct (writeCellOn_wf g sx sy None Hwf) as (g1 & -> & Hwf1 & Hg1).
    { apply Hon. by left. }
    simpl.
    destruct (IH g1 (S count) Hwf1) as (g2 & -> & Hwf2 & Hg2).
    { intros s Hs. apply Hon. by right. }
    exists g2. split; [f_equal; f_equal; lia|]. split; [done|].
    intros c Hc. rewrite (Hg2 c Hc), (Hg1 c Hc).
    destruct (decide (c = (sx, sy))) as [->|Hne].
    + rewrite (decide_True (P := _ ∈ _ :: _)) by by left.
      by destruct (decide _).
    + destruct (decide (c ∈ rest)) as [Hin|Hout].
      * by rewrite decide_True by by right.
      * rewrite decide_False; [done|].
        intros [?|?]%elem_of_cons; done.
Qed.

(** Two boards of the right shape with the same cells are the same. *)
Lemma grid_ext g g' :
  wfGrid g -> wfGrid g' ->
  (forall c, onBoard c -> cellAt g c = cellAt g' c) -> g = g'.
Proof.
  intros Hwf Hwf' Heq. pose proof Hwf as [Hlen _].
  pose proof Hwf' as [Hlen' _].
  apply list_eq_same_length with 19%nat; try done.
  intros i row row' Hi Hrow Hrow'.
  assert (Hr : length row = 19%nat).
  { apply (wfGrid_row g (Z.of_nat i)); [done|].
    rewrite arrayGet_lookup by lia. by rewrite Nat2Z.id. }
  assert (Hr' : length row' = 19%nat).
  { apply (wfGrid_row g' (Z.of_nat i)); [done|].
    rewrite arrayGet_lookup by lia. by rewrite Nat2Z.id. }
  apply list_eq_same_length with 19%nat; try done.
  intros j v v' Hj Hv Hv'.
  specialize (Heq (Z.of_nat j, Z.of_nat i)). unfold cellAt in Heq.
  simpl in Heq. rewrite !arrayGet_lookup, !Nat2Z.id in Heq by lia.
  rewrite Hrow, Hrow' in Heq.
  rewrite !arrayGet_lookup, !Nat2Z.id, Hv, Hv' in Heq by lia.
  apply Heq, onBoard_spec. simpl. lia.
Qed.

(** ** The capture pass *)

Section CapturePass.
(** The board when the pass starts, and the color it removes. *)
Variable g1 : Grid.
Variable opponent : PlayerColor.

Section Step.
Variable g : Grid.
Variables seen removed : list Coord.
Hypothesis Hremoved :
  forall c, c ∈ removed <-> capturedFrom (cellAt g1) opponent seen c.
Hypothesis Hcells :
  forall c, onBoard c ->
    cellAt g c = if decide (c ∈ removed) then None else cellAt g1 c.

Lemma removed_closed n c :
  n ∉ removed -> connected (cellAt g1) opponent n c -> c ∉ removed.
Proof.
  intros Hn Hc Hin. apply Hremoved in Hin as (m & Hm & Hdead & Hmc).
  apply Hn, Hremoved. exists m. split; [done|]. split; [done|].
  eapply connected_trans; [exact Hmc|]. by apply connected_sym.
Qed.

Lemma live_cell c v :
  onBoard c -> cellAt g c = Some v ->
  (c ∉ removed) /\ cellAt g1 c = Some v.
Proof.
  intros Hc Hv. rewrite (Hcells c Hc) in Hv.
  by destruct (decide (c ∈ removed)).
Qed.

Lemma connected_current n c :
  n ∉ removed ->
  (connected (cellAt g) opponent n c <->
   connected (cellAt g1) opponent n c).
Proof.
  intros Hn. split.
  - induction 1 as [Hnb Hfn|b m Hb IH Hm Hfm].
    + constructor; [done|]. by apply (live_cell n).
    + apply (connected_step _ _ _ b); [done|done|].
      apply (live_cell m); [|done].
      apply connected_inv in Hb as (_ & _ & Hbb & _).
      destruct b as [bx b_y]. by apply (getNeighbors_onBoard bx b_y).
  - induction 1 as [Hnb Hfn|b m Hb IH Hm Hfm].
    + constructor; [done|]. rewrite (Hcells n Hnb).
      by rewrite decide_False.
    + assert (Hconn : connected (cellAt g1) opponent n m)
        by by apply (connected_step _ _ _ b).
      apply (connected_step _ _ _ b); [done|done|].
      rewrite Hcells by by eapply connected_inv.
      rewrite decide_False; [done|]. by apply (removed_closed n).
Qed.

Lemma libertyOf_current n e :
  n ∉ removed ->
  (libertyOf (cellAt g) opponent n e <->
   libertyOf (cellAt g1) opponent n e).
Proof.
  intros Hn. split; intros (c & Hc & He & Hnone).
  - apply connected_current in Hc; [|done]. exists c.
    split; [done|]. split; [done|].
    assert (Hb : onBoard e).
    { apply connected_inv in Hc as (_ & _ & Hcb & _).
      destruct c as [x y]. by apply (getNeighbors_onBoard x y). }
    rewrite (Hcells e Hb) in Hnone.
    destruct (decide (e ∈ removed)) as [Hin|]; [|done].
    exfalso. pose proof Hin as Hin'.
    apply Hremoved in Hin' as (m & _ & _ & Hme).
    apply (removed_closed n e Hn); [|done].
    apply (connected_step _ _ _ c); [done|done|].
    by apply connected_inv in Hme as (_ & _ & _ & Hfe).
  - exists c. split; [by apply connected_current|]. split; [done|].
    assert (Hb : onBoard e).
    { apply connected_inv in Hc as (_ & _ & Hcb & _).
      destruct c as [x y]. by apply (getNeighbors_onBoard x y). }
    rewrite (Hcells e Hb). by destruct (decide _).
Qed.
End Step.

Lemma capturedFrom_snoc seen n c :
  capturedFrom (cellAt g1) opponent (seen ++ [n]) c <->
  capturedFrom (cellAt g1) opponent seen c \/
  (dead (cellAt g1) opponent n /\ connected (cellAt g1) opponent n c).
Proof.
  unfold capturedFrom. split.
  - intros (m & Hm & Hd & Hc). apply elem_of_app in Hm as [Hm|Hm].
    + left. by exists m.
    + apply list_elem_of_singleton in Hm as ->. by right.
  - intros [(m & Hm & Hd & Hc)|[Hd Hc]].
    + exists m. split; [|done]. apply elem_of_app. by left.
    + exists n. split; [|done]. apply elem_of_app. right.
      by apply list_elem_of_singleton.
Qed.

Lemma captureAtOn_inv seen g count n :
  CaptureInv g1 opponent seen g count -> onBoard n ->
  exists g' count',
    captureAtOn g opponent count n = Done (g', count') /\
    CaptureInv g1 opponent (seen ++ [n]) g' count'.
Proof.
  intros (Hwf & removed & Hnd & -> & Hremoved & Hcells) Hn.
  unfold captureAtOn. destruct n as [nx ny]. simpl.
  rewrite (readCell_wf g nx ny Hwf Hn). simpl.
  set (n := (nx, ny)) in *.
  destruct (bool_decide (Holds (cellAt g n) = Holds (Some opponent)))
    eqn:Hcolor.
  - apply bool_decide_eq_true in Hcolor. injection Hcolor as Hcolor.
    destruct (live_cell g removed Hcells n _ Hn Hcolor) as [Hlive Hcolor1].
    destruct (getGroupAndLiberties_correct g nx ny opponent Hwf Hn Hcolor)
      as (grp & libs & -> & Hgnd & Hgrp & Hlnd & Hlibs).
    simpl.
    assert (Hgrp1 : forall c,
               c ∈ grp <-> connected (cellAt g1) opponent n c).
    { intros c. rewrite Hgrp.
      by apply (connected_current g seen removed). }
    assert (Hlibs1 : forall e,
               e ∈ libs <-> libertyOf (cellAt g1) opponent n e).
    { intros e. rewrite Hlibs.
      by apply (libertyOf_current g seen removed). }
    destruct libs as [|e libs]; simpl.
    + destruct (removeStonesOn_wf grp g (length removed) Hwf)
        as (g' & -> & Hwf' & Hcells').
      { intros s Hs. by eapply connected_inv, Hgrp1. }
      exists g', (length removed + length grp)%nat.
      split; [done|]. split; [done|].
      exists (removed ++ grp). split; [|split; [|split]].
      * apply NoDup_app. repeat split; try done.
        intros c Hc Hc'. revert Hc.
        apply (removed_closed seen removed Hremoved n); [done|].
        by apply Hgrp1.
      * by rewrite length_app.
      * intros c. rewrite elem_of_app, capturedFrom_snoc, Hremoved, Hgrp1.
        split; [|tauto]. intros [?|?]; [by left|]. right.
        split; [|done]. split; [done|].
        intros e' He'. apply Hlibs1 in He'. by apply elem_of_nil in He'.
      * intros c Hc. rewrite (Hcells' c Hc), (Hcells c Hc).
        destruct (decide (c ∈ grp)), (decide (c ∈ removed));
          destruct (decide (c ∈ removed ++ grp)) as [Hin|Hout];
          try done; rewrite elem_of_app in *; tauto.
    + exists g, (length removed). split; [done|]. split; [done|].
      exists removed. repeat split; try done.
      * intros Hc. apply capturedFrom_snoc. left. by apply Hremoved.
      * intros [Hc|[[_ Hd] _]]%capturedFrom_snoc; [by apply Hremoved|].
        destruct (Hd e). apply Hlibs1. by left.
  - exists g, (length removed). split; [done|]. split; [done|].
    exists removed. repeat split; try done.
    + intros Hc. apply capturedFrom_snoc. left. by apply Hremoved.
    + intros [Hc|[[Hd _] Hnc]]%capturedFrom_snoc; [by apply Hremoved|].
      apply bool_decide_eq_false in Hcolor.
      assert (Hin : n ∈ removed).
      { destruct (decide (n ∈ removed)) as [|Hout]; [done|].
        destruct Hcolor. rewrite (Hcells n Hn).
        rewrite decide_False by done. by rewrite Hd. }
      apply Hremoved in Hin as (m & Hm & Hdm & Hmn).
      apply Hremoved. exists m. split; [done|]. split; [done|].
      by apply (connected_trans _ _ m n c).
Qed.

Lemma captureLoopOn_inv ns : forall seen g count,
  CaptureInv g1 opponent seen g count -> (forall n, n ∈ ns -> onBoard n) ->
  exists g' count',
    captureLoopOn g opponent ns count = Done (g', count') /\
    CaptureInv g1 opponent (seen ++ ns) g' count'.
Proof.
  induction ns as [|n ns IH]; intros seen g count Hinv Hns; simpl.
  - exists g, count. by rewrite app_nil_r.
  - destruct (captureAtOn_inv seen g count n Hinv)
      as (g' & count' & -> & Hinv'); [apply Hns; by left|].
    simpl. destruct (IH (seen ++ [n]) g' count' Hinv')
      as (g'' & count'' & -> & Hinv'').
    { intros m Hm. apply Hns. by right. }
    exists g'', count''. split; [done|].
    by rewrite <- app_assoc in Hinv''.
Qed.
End CapturePass.

(** ** A move on an empty cell of the board *)

Lemma opponentOf_neq player : opponentOf player <> player.
Proof. by destruct player. Qed.

Lemma moveOn_spec g x y player past :
  wfGrid g -> onBoard (x, y) -> cellAt g (x, y) = None ->
  exists g1 g2 removed self,
    MoveTrace g x y player g1 g2 removed self /\
    moveOn g x y player past = Done (verdict past g2 removed self).
Proof.
  intros Hwf Hxy Hempty. unfold moveOn.
  pose proof Hxy as Hon. unfold onBoard in Hon. simpl in Hon.
  rewrite Hon, (readCell_wf g x y Hwf Hxy), Hempty. simpl.
  destruct (writeCellOn_wf g x y (Some player) Hwf Hxy)
    as (g1 & Hplace & Hwf1 & Hcells1).
  rewrite Hplace. simpl.
  destruct (captureLoopOn_inv g1 (opponentOf player) (getNeighbors x y)
              [] g1 0%nat)
    as (g2 & count & Hcap & Hwf2 & removed & Hnd & -> & Hrem & Hcells2).
  { split; [done|]. exists [].
    split; [constructor|]. split; [done|]. split; [|done].
    intros c. split.
    - intros Hc. by apply elem_of_nil in Hc.
    - intros (n & Hn & _). by apply elem_of_nil in Hn. }
  { intros n. apply getNeighbors_onBoard. done. }
  simpl in Hrem, Hcap. rewrite Hcap. simpl.
  assert (Hstone : cellAt g2 (x, y) = Some player).
  { rewrite (Hcells2 _ Hxy). rewrite decide_False.
    - rewrite (Hcells1 _ Hxy). by rewrite decide_True.
    - intros (n & _ & _ & Hc)%Hrem.
      apply connected_inv in Hc as (_ & _ & _ & Hc).
      rewrite (Hcells1 _ Hxy), decide_True in Hc by done.
      injection Hc as Hc. by destruct (opponentOf_neq player). }
  destruct (getGroupAndLiberties_correct g2 x y player Hwf2 Hxy Hstone)
    as (grp & libs & Hself & _ & _ & _ & Hlibs).
  rewrite Hself. simpl.
  exists g1, g2, removed, {| group := grp; liberties := length libs |}.
  split.
  2:{ unfold verdict. simpl. destruct (length libs =? 0)%nat; [done|].
      by destruct (koTest _ _). }
  split; try done. simpl. split.
  - intros Hlen e He%Hlibs. destruct libs; [|done]. by apply elem_of_nil in He.
  - intros Hnone. destruct libs as [|e libs]; [done|].
    destruct (Hnone e). apply Hlibs. by left.
Qed.

(** ** Moves on the heap *)

Lemma tryMakeMove_spec h board x y player history :
  validBoard h board -> onBoard (x, y) ->
  cellAt (snapshot h board) (x, y) = None ->
  exists g1 g2 removed self h' r,
    MoveTrace (snapshot h board) x y player g1 g2 removed self /\
    tryMakeMove h board x y player history = Done (h', r) /\
    unchanged h h' /\
    viewOf h' r = verdict (historyObj h history) g2 removed self.
Proof.
  intros [Hal Hwf] Hxy Hempty.
  destruct (moveOn_spec _ x y player (historyObj h history) Hwf Hxy Hempty)
    as (g1 & g2 & removed & self & Htrace & Hmove).
  destruct (tryMakeMove_refines _ _ _ _ _ _ _ Hal Hmove)
    as (h' & r & Hrun & Hview & Hun).
  by exists g1, g2, removed, self, h', r.
Qed.

Lemma moveOn_total g x y player past :
  wfGrid g -> exists v, moveOn g x y player past = Done v.
Proof.
  intros Hwf. destruct (isOnBoard x y) eqn:Hon.
  - destruct (cellAt g (x, y)) as [c|] eqn:Hcell.
    + unfold moveOn. rewrite Hon, (readCell_wf g x y Hwf Hon), Hcell.
      simpl. by eexists.
    + destruct (moveOn_spec g x y player past Hwf Hon Hcell)
        as (g1 & g2 & removed & self & _ & ->). by eexists.
  - unfold moveOn. rewrite Hon. simpl. by eexists.
Qed.

Lemma tryMakeMove_total h board x y player history :
  validBoard h board ->
  exists h' r,
    tryMakeMove h board x y player history = Done (h', r) /\
    unchanged h h' /\
    moveOn (snapshot h board) x y player (historyObj h history)
      = Done (viewOf h' r).
Proof.
  intros [Hal Hwf].
  destruct (moveOn_total _ x y player (historyObj h history) Hwf)
    as [v Hv].
  destruct (tryMakeMove_refines _ _ _ _ _ _ _ Hal Hv)
    as (h' & r & Hrun & <- & Hun).
  by exists h', r.
Qed.

Lemma viewOf_accepted h r g count :
  viewOf h r = acceptedView g count ->
  success r = true /\ error r = None /\ capturedCount r = Some count /\
  exists board, newBoard r = Some board /\ snapshot h board = g.
Proof.
  destruct r as [s [b|] c e]; unfold viewOf, acceptedView; simpl;
    intros [= -> H -> ->].
  repeat split; try done. by exists b.
Qed.

Lemma viewOf_rejected h r message :
  viewOf h r = rejectedView message -> r = rejected message.
Proof.
  destruct r as [s [b|] c e]; unfold viewOf, rejectedView, rejected; simpl;
    intros [= -> -> ->]; done.
Qed.

(** ** Positions as functions *)

Lemma connected_mono f f' color a b :
  (forall c, onBoard c -> f c = Some color -> f' c = Some color) ->
  connected f color a b -> connected f' color a b.
Proof.
  intros Hff'. induction 1 as [Ha Hfa|b n Hb IH Hn Hfn].
  - constructor; auto.
  - apply (connected_step _ _ _ b); [done|done|].
    apply Hff'; [|done]. apply connected_inv in Hb as (_ & _ & Hbb & _).
    destruct b as [bx b_y]. by apply (getNeighbors_onBoard bx b_y).
Qed.

Lemma connected_ext f f' color a b :
  (forall c, onBoard c -> f c = f' c) ->
  connected f color a b <-> connected f' color a b.
Proof.
  intros Heq. split; apply connected_mono; intros c Hc.
  - by rewrite <- Heq.
  - by rewrite Heq.
Qed.

Lemma libertyOf_ext f f' color a e :
  (forall c, onBoard c -> f c = f' c) ->
  libertyOf f color a e <-> libertyOf f' color a e.
Proof.
  intros Heq. unfold libertyOf.
  split; intros (c & Hc & He & Hnone); exists c.
  - assert (onBoard e).
    { apply connected_inv in Hc as (_ & _ & Hcb & _).
      destruct c as [cx cy]. by apply (getNeighbors_onBoard cx cy). }
    rewrite <- (connected_ext f f') by done. by rewrite <- Heq.
  - assert (onBoard e).
    { apply connected_inv in Hc as (_ & _ & Hcb & _).
      destruct c as [cx cy]. by apply (getNeighbors_onBoard cx cy). }
    rewrite (connected_ext f f') by done. by rewrite Heq.
Qed.

Lemma capturedFrom_ext f f' color ns c :
  (forall n, n ∈ ns -> onBoard n) ->
  (forall c, onBoard c -> f c = f' c) ->
  capturedFrom f color ns c <-> capturedFrom f' color ns c.
Proof.
  intros Hns Heq. unfold capturedFrom, dead.
  split; intros (n & Hn & [Hfn Hdead] & Hc); exists n;
    (split; [done|]); (split; [split|]).
  - rewrite <- Heq; auto.
  - intros e He. apply (Hdead e). by rewrite (libertyOf_ext f f').
  - by rewrite <- (connected_ext f f').
  - rewrite Heq; auto.
  - intros e He. apply (Hdead e). by rewrite <- (libertyOf_ext f f').
  - by rewrite (connected_ext f f').
Qed.

Lemma capturedFrom_perm f color ns ns' c :
  ns ≡ₚ ns' -> capturedFrom f color ns c -> capturedFrom f color ns' c.
Proof.
  intros Hp (n & Hn & H). exists n. split; [|done]. by rewrite <- Hp.
Qed.

Lemma libertyOf_connected f color a b e :
  connected f color a b -> libertyOf f color a e -> libertyOf f color b e.
Proof.
  intros Hab (c & Hc & He). exists c. split; [|done].
  apply (connected_trans _ _ b a c); [|done]. by apply connected_sym.
Qed.

(** ** Checks by computation *)

Lemma wfGridb_sound g : wfGridb g = true -> wfGrid g.
Proof.
  unfold wfGridb, wfGrid. rewrite andb_true_iff, forallb_forall, Forall_forall.
  intros [Hlen Hrows]. split; [by apply Nat.eqb_eq|].
  intros row Hrow. by apply Nat.eqb_eq, Hrows, list_elem_of_In.
Qed.

Lemma snapshot_heapOf g past : snapshot (heapOf g past) 0 = g.
Proof.
  unfold snapshot, heapOf. simpl. apply list_eq. intros i.
  change (map ?f) with (fmap (M:=list) f). rewrite list_lookup_fmap.
  destruct (g !! i) as [row|] eqn:Hrow.
  - rewrite lookup_seq_lt by by eapply lookup_lt_Some. simpl. by rewrite Hrow.
  - rewrite lookup_seq_ge by by apply lookup_ge_None. done.
Qed.

Lemma validBoard_heapOf g past : wfGridb g = true -> validBoard (heapOf g past) 0.
Proof.
  intros Hwf. split; [|rewrite snapshot_heapOf; by apply wfGridb_sound].
  split; simpl; [lia|]. intros r Hr. apply elem_of_seq in Hr. lia.
Qed.

(** * The properties of the specification *)

(** C9. For every coordinate [(x, y)] of the board, [getNeighbors x y] is
    the list left, right, up, down with the coordinates outside the board
    left out; its elements are exactly the cells of the board orthogonally
    adjacent to [(x, y)], each once; there are 2 of them in a corner, 3 on
    an edge outside the corners, and 4 in the interior. *)
Theorem getNeighbors_exact x y :
  onBoard (x, y) ->
  getNeighbors x y =
    List.filter (fun c : Coord => isOnBoard c.1 c.2)
      [(x - 1, y); (x + 1, y); (x, y - 1); (x, y + 1)] /\
  (forall n, n ∈ getNeighbors x y <-> onBoard n /\ adjacent (x, y) n) /\
  NoDup (getNeighbors x y) /\
  (isCorner x y = true -> length (getNeighbors x y) = 2%nat) /\
  (isEdge x y = true -> length (getNeighbors x y) = 3%nat) /\
  (isInterior x y = true -> length (getNeighbors x y) = 4%nat).
Proof.
  intros Hxy. split; [|split; [|split]].
  - apply onBoard_spec in Hxy. simpl in Hxy.
    assert (Hl : isOnBoard (x - 1) y = (0 <? x)).
    { apply eq_true_iff_eq. rewrite isOnBoard_spec, Z.ltb_lt.
      unfold BOARD_SIZE. lia. }
    assert (Hr : isOnBoard (x + 1) y = (x <? BOARD_SIZE - 1)).
    { apply eq_true_iff_eq. rewrite isOnBoard_spec, Z.ltb_lt.
      unfold BOARD_SIZE. lia. }
    assert (Hu : isOnBoard x (y - 1) = (0 <? y)).
    { apply eq_true_iff_eq. rewrite isOnBoard_spec, Z.ltb_lt.
      unfold BOARD_SIZE. lia. }
    assert (Hd : isOnBoard x (y + 1) = (y <? BOARD_SIZE - 1)).
    { apply eq_true_iff_eq. rewrite isOnBoard_spec, Z.ltb_lt.
      unfold BOARD_SIZE. lia. }
    unfold getNeighbors. simpl. rewrite Hl, Hr, Hu, Hd.
    by destruct (0 <? x), (x <? BOARD_SIZE - 1), (0 <? y),
      (y <? BOARD_SIZE - 1).
  - intros n. by apply elem_of_getNeighbors.
  - apply NoDup_getNeighbors.
  - rewrite (length_getNeighbors x y Hxy). unfold isEdge.
    destruct (isCorner x y) eqn:Hc, (isInterior x y) eqn:Hi; simpl;
      repeat split; try done.
    unfold isCorner, isInterior, BOARD_SIZE in *. lia.
Qed.

Lemma getNeighbors_exact_witness :
  onBoard (0, 18) /\ getNeighbors 0 18 = [(1, 18); (0, 17)] /\
  length (getNeighbors 0 18) = 2%nat.
Proof.
  assert (H : onBoard (0, 18)) by reflexivity.
  split; [exact H|].
  destruct (getNeighbors_exact 0 18 H) as (Hlist & _ & _ & Hcorner & _).
  split; [rewrite Hlist; reflexivity|]. apply Hcorner. reflexivity.
Defined.

(** C8. For a board of the right shape and an occupied seed, the liberty
    count returned by [getGroupAndLiberties] is the number of different
    empty cells next to a stone of the group, the group being the stones
    connected to the seed: a cell next to several stones counts once.  A
    stone alone on the board has 2 liberties in a corner, 3 on an edge and
    4 in the interior. *)
Theorem getGroupAndLiberties_counts g x y color :
  wfGrid g -> onBoard (x, y) -> cellAt g (x, y) = Some color ->
  exists grp libs : list Coord,
    getGroupAndLiberties g x y
      = Done {| group := grp; liberties := length libs |} /\
    NoDup grp /\
    (forall c, c ∈ grp <-> connected (cellAt g) color (x, y) c) /\
    NoDup libs /\
    (forall e, e ∈ libs <->
       cellAt g e = None /\ exists c, c ∈ grp /\ e ∈ getNeighbors c.1 c.2) /\
    ((forall c, onBoard c -> c <> (x, y) -> cellAt g c = None) ->
     grp = [(x, y)] /\
     length libs =
       if isCorner x y then 2%nat else if isInterior x y then 4%nat
       else 3%nat).
Proof.
  intros Hwf Hxy Hcell.
  destruct (getGroupAndLiberties_correct g x y color Hwf Hxy Hcell)
    as (grp & libs & Hrun & Hgnd & Hgrp & Hlnd & Hlibs).
  exists grp, libs. do 4 (split; [done|]).
  assert (Hlibs' : forall e, e ∈ libs <->
            cellAt g e = None /\
            exists c, c ∈ grp /\ e ∈ getNeighbors c.1 c.2).
  { intros e. rewrite Hlibs. unfold libertyOf. split.
    - intros (c & Hc & He & Hnone). split; [done|]. exists c.
      by rewrite Hgrp.
    - intros (Hnone & c & Hc & He). exists c. by rewrite <- Hgrp. }
  split; [done|]. intros Hlone.
  assert (Hone : forall c, c ∈ grp <-> c = (x, y)).
  { intros c. rewrite Hgrp. split; [|intros ->; by constructor].
    intros (_ & _ & Hc & Hfc)%connected_inv.
    destruct (decide (c = (x, y))) as [|Hne]; [done|].
    by rewrite (Hlone c Hc Hne) in Hfc. }
  split.
  - apply Permutation_singleton_r, NoDup_Permutation;
      [done|apply NoDup_singleton|].
    intros c. by rewrite Hone, list_elem_of_singleton.
  - rewrite <- (length_getNeighbors x y Hxy).
    apply Permutation_length, NoDup_Permutation;
      [done|apply NoDup_getNeighbors|].
    intros e. rewrite Hlibs'. split.
    + intros (_ & c & Hc%Hone & He). by subst c.
    + intros He. pose proof He as He'.
      apply elem_of_getNeighbors in He' as [Heb Hadj]; [|done].
      split.
      * apply Hlone; [done|]. intros ->. unfold adjacent in Hadj.
        simpl in Hadj. lia.
      * exists (x, y). by rewrite Hone.
Qed.

Lemma getGroupAndLiberties_counts_witness :
  exists grp libs : list Coord,
    getGroupAndLiberties
      (boardWith [(3, 3, black); (4, 3, black); (3, 4, black)]) 3 3
      = Done {| group := grp; liberties := length libs |} /\
    grp = [(3, 3); (4, 3); (3, 4)] /\ length libs = 7%nat.
Proof.
  set (g := boardWith [(3, 3, black); (4, 3, black); (3, 4, black)]).
  assert (Hwf : wfGrid g) by (apply wfGridb_sound; reflexivity).
  assert (Hxy : onBoard (3, 3)) by reflexivity.
  assert (Hcell : cellAt g (3, 3) = Some black) by reflexivity.
  destruct (getGroupAndLiberties_counts g 3 3 black Hwf Hxy Hcell)
    as (grp & libs & Hrun & _).
  exists grp, libs. split; [exact Hrun|].
  vm_compute in Hrun. injection Hrun as Hg Hl.
  split; [symmetry; exact Hg|symmetry; exact Hl].
Defined.

(** ** The first steps of a move *)

Lemma tryMakeMove_after_capture h currentBoard x y player history
    h3 board count :
  isOnBoard x y = true ->
  readCell (snapshot h currentBoard) x y = Done (Holds None) ->
  placeAndCapture h currentBoard x y player = Done (h3, board, count) ->
  tryMakeMove h currentBoard x y player history =
    self ← getGroupAndLiberties (snapshot h3 board) x y;
    if (liberties self =? 0)%nat
    then Done (h3, rejected "Suicide move is forbidden")
    else if koTest (historyObj h3 history) (JSON_stringify (snapshot h3 board))
    then Done (h3, rejected "Ko rule: cannot repeat position immediately")
    else Done (h3, accepted board count).
Proof.
  intros Hon Hread. unfold placeAndCapture, tryMakeMove.
  rewrite Hon, Hread. simpl.
  destruct (copyBoard h currentBoard) as [h1 copy].
  destruct (writeCell h1 copy x y (Some player)) as [h2| | |]; simpl;
    try (intros Hno; discriminate Hno).
  destruct (captureLoop h2 copy _ _ _) as [[h3' count']| | |]; simpl;
    try (intros Hno; discriminate Hno).
  intros [= -> -> ->]. reflexivity.
Qed.

Lemma placeAndCapture_trace h board x y player g1 g2 removed self :
  validBoard h board ->
  MoveTrace (snapshot h board) x y player g1 g2 removed self ->
  exists h3 copy,
    placeAndCapture h board x y player = Done (h3, copy, length removed) /\
    snapshot h3 copy = g2 /\ unchanged h h3.
Proof.
  intros [Hal Hwf] Htrace. unfold placeAndCapture.
  destruct (copyBoard h board) as [h1 copy] eqn:Hcopy.
  apply copyBoard_spec in Hcopy as [Hsnap Hw1]; [|done].
  pose proof (trace_place _ _ _ _ _ _ _ _ Htrace) as Hplace.
  rewrite <- Hsnap in Hplace.
  destruct (writeCell_sim _ _ _ _ _ _ _ Hw1 Hplace) as (h2 & -> & Hs2 & Hw2).
  simpl. pose proof (trace_capture _ _ _ _ _ _ _ _ Htrace) as Hcap.
  rewrite <- Hs2 in Hcap.
  destruct (captureLoop_sim _ _ _ _ _ _ _ _ Hw2 Hcap)
    as (h3 & -> & Hs3 & Hw3).
  simpl. exists h3, copy. split; [done|]. split; [done|]. apply Hw3.
Qed.

(** A liberty count of zero, computed, shows that there is no liberty. *)
Lemma no_liberty_check g x y color :
  wfGridb g = true -> isOnBoard x y = true ->
  cellAt g (x, y) = Some color ->
  match getGroupAndLiberties g x y with
  | Done r => (liberties r =? 0)%nat
  | _ => false
  end = true ->
  forall e, ~ libertyOf (cellAt g) color (x, y) e.
Proof.
  intros Hwf%wfGridb_sound Hon Hcell Hzero e He.
  destruct (getGroupAndLiberties_correct g x y color Hwf Hon Hcell)
    as (grp & libs & Hrun & _ & _ & _ & Hlibs).
  rewrite Hrun in Hzero. simpl in Hzero. apply Hlibs in He.
  destruct libs; [by apply elem_of_nil in He|done].
Qed.

(** C4. For a move on an empty cell of the board: when, after the stone is
    placed on the working copy and the capture pass has run, the group of
    the new stone has no liberty, [tryMakeMove] returns the error "Suicide
    move is forbidden", and every object the heap held before the call,
    the caller's board among them, has the contents it had. *)
Theorem tryMakeMove_suicide h board x y player history h3 copy count :
  validBoard h board -> onBoard (x, y) ->
  cellAt (snapshot h board) (x, y) = None ->
  placeAndCapture h board x y player = Done (h3, copy, count) ->
  (forall e, ~ libertyOf (cellAt (snapshot h3 copy)) player (x, y) e) ->
  tryMakeMove h board x y player history
    = Done (h3, rejected "Suicide move is forbidden") /\
  unchanged h h3 /\
  snapshot h3 board = snapshot h board.
Proof.
  intros Hvalid Hxy Hempty Hpc Hnone.
  destruct (moveOn_spec _ x y player [] (proj2 Hvalid) Hxy Hempty)
    as (g1 & g2 & removed & self & Htrace & _).
  destruct (placeAndCapture_trace _ _ _ _ _ _ _ _ _ Hvalid Htrace)
    as (h3' & copy' & Hpc' & Hsnap & Hun).
  rewrite Hpc in Hpc'. injection Hpc' as <- <- ->.
  split; [|split; [exact Hun|]].
  2:{ apply unchanged_snapshot; [apply Hvalid|exact Hun]. }
  assert (Hread : readCell (snapshot h board) x y = Done (Holds None)).
  { by rewrite (readCell_wf _ x y (proj2 Hvalid) Hxy), Hempty. }
  rewrite (tryMakeMove_after_capture h board x y player history h3 copy _
             Hxy Hread Hpc).
  rewrite Hsnap, (trace_self _ _ _ _ _ _ _ _ Htrace). simpl.
  rewrite <- Hsnap in Htrace.
  apply (trace_suicide _ _ _ _ _ _ _ _ Htrace) in Hnone. by rewrite Hnone.
Qed.

Lemma tryMakeMove_suicide_witness :
  exists h3,
    tryMakeMove suicideHeap 0 0 0 black 0
      = Done (h3, rejected "Suicide move is forbidden") /\
    unchanged suicideHeap h3 /\
    snapshot h3 0 = snapshot suicideHeap 0.
Proof.
  set (t := returned (placeAndCapture suicideHeap 0 0 0 black)
              (suicideHeap, 0%nat, 0%nat)).
  exists t.1.1.
  apply (tryMakeMove_suicide suicideHeap 0%nat 0 0 black 0%nat
           t.1.1 t.1.2 t.2).
  - apply validBoard_heapOf. reflexivity.
  - reflexivity.
  - reflexivity.
  - vm_compute. reflexivity.
  - apply no_liberty_check; vm_compute; reflexivity.
Defined.

(** ** Consequences for the caller *)

Lemma tryMakeMove_off_board h board x y player history :
  isOnBoard x y = false ->
  tryMakeMove h board x y player history
    = Done (h, rejected "Invalid position").
Proof. intros Hoff. unfold tryMakeMove. by rewrite Hoff. Qed.

Lemma tryMakeMove_occupied h board x y player history c :
  validBoard h board -> isOnBoard x y = true ->
  cellAt (snapshot h board) (x, y) = Some c ->
  tryMakeMove h board x y player history
    = Done (h, rejected "Position occupied").
Proof.
  intros [_ Hwf] Hon Hcell. unfold tryMakeMove. rewrite Hon. simpl.
  by rewrite (readCell_wf _ x y Hwf Hon), Hcell.
Qed.

Lemma validBoard_unchanged h h' board :
  validBoard h board -> unchanged h h' -> validBoard h' board.
Proof.
  intros [Hal Hwf] Hun. split.
  - destruct Hal as [Hb Hrows]. destruct Hun as (Hr & Hbo & _ & Hrn & Hbn).
    split; [lia|]. intros r Hin. rewrite (Hbo _ Hb) in Hin.
    apply Hrows in Hin. lia.
  - by rewrite (unchanged_snapshot h h' board).
Qed.

(** C5. [tryMakeMove] tests the bounds first: for a coordinate outside the
    board it returns the error "Invalid position", whatever the board
    holds; for a coordinate of the board whose cell is not empty it returns
    "Position occupied".  In both cases nothing is placed, captured or
    allocated: the heap is returned as it was. *)
Theorem tryMakeMove_validation h board x y player history :
  (isOnBoard x y = false ->
   tryMakeMove h board x y player history
     = Done (h, rejected "Invalid position")) /\
  (forall c,
     validBoard h board -> isOnBoard x y = true ->
     cellAt (snapshot h board) (x, y) = Some c ->
     tryMakeMove h board x y player history
       = Done (h, rejected "Position occupied")).
Proof.
  split.
  - apply tryMakeMove_off_board.
  - intros c. apply tryMakeMove_occupied.
Qed.

Lemma tryMakeMove_validation_witness :
  tryMakeMove (heapOf (boardWith [(3, 3, black)]) []) 0 19 3 white 0
    = Done (heapOf (boardWith [(3, 3, black)]) [],
            rejected "Invalid position") /\
  tryMakeMove (heapOf (boardWith [(3, 3, black)]) []) 0 3 3 white 0
    = Done (heapOf (boardWith [(3, 3, black)]) [],
            rejected "Position occupied").
Proof.
  set (h := heapOf (boardWith [(3, 3, black)]) []).
  split.
  - apply (tryMakeMove_validation h 0%nat 19 3 white 0%nat). reflexivity.
  - apply (proj2 (tryMakeMove_validation h 0%nat 3 3 white 0%nat) black).
    + apply validBoard_heapOf. reflexivity.
    + reflexivity.
    + reflexivity.
Defined.
(** What an accepted move went through. *)
Lemma tryMakeMove_success_inv h board x y player history h' r :
  validBoard h board ->
  tryMakeMove h board x y player history = Done (h', r) ->
  success r = true ->
  onBoard (x, y) /\ cellAt (snapshot h board) (x, y) = None /\
  exists g1 g2 removed self copy,
    MoveTrace (snapshot h board) x y player g1 g2 removed self /\
    r = accepted copy (length removed) /\ snapshot h' copy = g2 /\
    liberties self <> 0%nat /\
    koTest (historyObj h history) (JSON_stringify g2) = false /\
    unchanged h h'.
Proof.
  intros Hvalid Hrun Hok.
  destruct (isOnBoard x y) eqn:Hon.
  2:{ rewrite (tryMakeMove_off_board h board x y player history Hon) in Hrun.
      by injection Hrun as <- <-. }
  destruct (cellAt (snapshot h board) (x, y)) as [c|] eqn:Hcell.
  { rewrite (tryMakeMove_occupied h board x y player history c
               Hvalid Hon Hcell) in Hrun. by injection Hrun as <- <-. }
  split; [done|]. split; [done|].
  destruct (tryMakeMove_spec h board x y player history Hvalid Hon Hcell)
    as (g1 & g2 & removed & self & h'' & r' & Htrace & Hrun' & Hun & Hview).
  rewrite Hrun in Hrun'. injection Hrun' as <- <-.
  unfold verdict in Hview.
  destruct (liberties self =? 0)%nat eqn:Hself.
  { apply viewOf_rejected in Hview. by subst r. }
  destruct (koTest _ _) eqn:Hko.
  { apply viewOf_rejected in Hview. by subst r. }
  apply viewOf_accepted in Hview as (_ & Herr & Hcount & copy & Hnew & Hsnap).
  exists g1, g2, removed, self, copy. split; [done|].
  split; [destruct r; simpl in *; by subst|].
  split; [done|]. split; [by apply Nat.eqb_neq|]. done.
Qed.

Lemma koTest_spec past hash :
  koTest past hash = true <->
  (2 <= length past)%nat /\ past !! (length past - 2)%nat = Some hash.
Proof.
  unfold koTest. rewrite andb_true_iff, Z.ltb_lt, bool_decide_eq_true.
  split.
  - intros [Hlen Hget]. split; [lia|].
    rewrite arrayGet_lookup in Hget by lia.
    by replace (Z.to_nat (Z.of_nat (length past) - 2))
      with (length past - 2)%nat in Hget by lia.
  - intros [Hlen Hget]. split; [lia|].
    rewrite arrayGet_lookup by lia.
    by replace (Z.to_nat (Z.of_nat (length past) - 2))
      with (length past - 2)%nat by lia.
Qed.

Lemma placeStone_spec h board x y player :
  validBoard h board -> onBoard (x, y) ->
  exists h2 copy,
    placeStone h board x y player = Done (h2, copy) /\
    working h h2 copy /\ wfGrid (snapshot h2 copy) /\
    writeCellOn (snapshot h board) x y (Some player)
      = Done (snapshot h2 copy).
Proof.
  intros [Hal Hwf] Hxy. unfold placeStone.
  destruct (copyBoard h board) as [h1 copy] eqn:Hcopy.
  apply copyBoard_spec in Hcopy as [Hsnap Hw1]; [|done].
  destruct (writeCellOn_wf _ x y (Some player) Hwf Hxy)
    as (g1 & Hplace & Hwf1 & _).
  pose proof Hplace as Hplace'. rewrite <- Hsnap in Hplace'.
  destruct (writeCell_sim _ _ _ _ _ _ _ Hw1 Hplace') as (h2 & -> & <- & Hw2).
  simpl. by exists h2, copy.
Qed.

Lemma placeAndCapture_placeStone h board x y player h2 copy :
  placeStone h board x y player = Done (h2, copy) ->
  placeAndCapture h board x y player =
    '(h3, count) ← captureLoop h2 copy (opponentOf player)
                     (getNeighbors x y) 0%nat;
    Done (h3, copy, count).
Proof.
  unfold placeStone, placeAndCapture.
  destruct (copyBoard h board) as [h1 copy'].
  destruct (writeCell h1 copy' x y (Some player)) as [h2'| | |]; simpl;
    try (intros Hno; discriminate Hno).
  intros [= -> ->]. reflexivity.
Qed.

(** C7. [tryMakeMove] changes no object of the caller: after any call, each
    array the heap held before has the contents it had, so the board and
    the history passed in are as they were (whether the move is accepted
    or rejected).  Its result is a function of the contents of its
    arguments: a call with a board and a history of the same contents, and
    in particular the same call made again, returns the same result with a
    new board of the same contents. *)
Theorem tryMakeMove_pure h board x y player history :
  validBoard h board ->
  exists h1 r1,
    tryMakeMove h board x y player history = Done (h1, r1) /\
    unchanged h h1 /\
    snapshot h1 board = snapshot h board /\
    historyObj h1 history = historyObj h history /\
    (forall ha boardA historyA,
       validBoard ha boardA ->
       snapshot ha boardA = snapshot h board ->
       historyObj ha historyA = historyObj h history ->
       exists h2 r2,
         tryMakeMove ha boardA x y player historyA = Done (h2, r2) /\
         viewOf h2 r2 = viewOf h1 r1) /\
    exists h2 r2,
      tryMakeMove h1 board x y player history = Done (h2, r2) /\
      viewOf h2 r2 = viewOf h1 r1.
Proof.
  intros Hvalid.
  destruct (tryMakeMove_total h board x y player history Hvalid)
    as (h1 & r1 & Hrun & Hun & Hmove).
  assert (Hsnap : snapshot h1 board = snapshot h board).
  { apply unchanged_snapshot; [apply Hvalid|done]. }
  assert (Hpast : historyObj h1 history = historyObj h history)
    by apply Hun.
  assert (Hsame : forall ha boardA historyA,
             validBoard ha boardA ->
             snapshot ha boardA = snapshot h board ->
             historyObj ha historyA = historyObj h history ->
             exists h2 r2,
               tryMakeMove ha boardA x y player historyA = Done (h2, r2) /\
               viewOf h2 r2 = viewOf h1 r1).
  { intros ha boardA historyA Hva Hsa Hha.
    destruct (tryMakeMove_total ha boardA x y player historyA Hva)
      as (h2 & r2 & Hrun2 & _ & Hmove2).
    exists h2, r2. split; [done|].
    rewrite Hsa, Hha, Hmove in Hmove2. congruence. }
  exists h1, r1. do 4 (split; [done|]). split; [done|].
  apply Hsame; [|done|done]. by apply (validBoard_unchanged h).
Qed.

Lemma tryMakeMove_pure_witness :
  exists h1 r1,
    tryMakeMove suicideHeap 0 5 5 black 0 = Done (h1, r1) /\
    snapshot h1 0 = snapshot suicideHeap 0 /\
    exists h2 r2,
      tryMakeMove h1 0 5 5 black 0 = Done (h2, r2) /\
      viewOf h2 r2 = viewOf h1 r1.
Proof.
  assert (Hvalid : validBoard suicideHeap 0)
    by (apply validBoard_heapOf; reflexivity).
  destruct (tryMakeMove_pure suicideHeap 0%nat 5 5 black 0%nat Hvalid)
    as (h1 & r1 & Hrun & _ & Hsnap & _ & _ & Hagain).
  exists h1, r1. split; [exact Hrun|]. split; [exact Hsnap|exact Hagain].
Defined.

Lemma trace_post g x y player g1 g2 removed self c :
  onBoard (x, y) ->
  MoveTrace g x y player g1 g2 removed self ->
  c ∈ removed <->
  capturedFrom (withStone (cellAt g) (x, y) player) (opponentOf player)
    (getNeighbors x y) c.
Proof.
  intros Hxy Htrace. rewrite (trace_removed _ _ _ _ _ _ _ _ Htrace).
  apply capturedFrom_ext.
  - intros n. by apply getNeighbors_onBoard.
  - intros c' Hc'. by apply (trace_cells1 _ _ _ _ _ _ _ _ Htrace).
Qed.

Lemma trace_removed_opponent g x y player g1 g2 removed self c :
  onBoard (x, y) ->
  MoveTrace g x y player g1 g2 removed self ->
  c ∈ removed ->
  onBoard c /\ c <> (x, y) /\ cellAt g c = Some (opponentOf player).
Proof.
  intros Hxy Htrace Hc.
  apply (trace_removed _ _ _ _ _ _ _ _ Htrace) in Hc as (n & _ & _ & Hc).
  apply connected_inv in Hc as (_ & _ & Hcb & Hfc).
  rewrite (trace_cells1 _ _ _ _ _ _ _ _ Htrace c Hcb) in Hfc.
  destruct (decide (c = (x, y))) as [->|Hne]; [|done].
  injection Hfc as Hfc. by destruct (opponentOf_neq player).
Qed.



Lemma tryMakeMove_cases h board x y player history h3 copy count h' r :
  isOnBoard x y = true ->
  readCell (snapshot h board) x y = Done (Holds None) ->
  placeAndCapture h board x y player = Done (h3, copy, count) ->
  tryMakeMove h board x y player history = Done (h', r) ->
  h' = h3 /\
  (r = rejected "Suicide move is forbidden" \/
   r = rejected "Ko rule: cannot repeat position immediately" \/
   r = accepted copy count).
Proof.
  intros Hon Hread Hpc.
  rewrite (tryMakeMove_after_capture h board x y player history h3 copy count
             Hon Hread Hpc).
  destruct (getGroupAndLiberties _ x y) as [self| | |]; simpl;
    try (intros Hno; discriminate Hno).
  destruct (liberties self =? 0)%nat; [intros [= <- <-]; auto|].
  destruct (koTest _ _); intros [= <- <-]; auto.
Qed.

Lemma captureLoop_spec h0 h2 copy opponent ns :
  working h0 h2 copy -> wfGrid (snapshot h2 copy) ->
  (forall n, n ∈ ns -> onBoard n) ->
  exists h3 removed,
    captureLoop h2 copy opponent ns 0%nat = Done (h3, length removed) /\
    working h0 h3 copy /\ wfGrid (snapshot h3 copy) /\ NoDup removed /\
    (forall c, c ∈ removed <->
       capturedFrom (cellAt (snapshot h2 copy)) opponent ns c) /\
    (forall c, onBoard c ->
       cellAt (snapshot h3 copy) c =
         if decide (c ∈ removed) then None else cellAt (snapshot h2 copy) c).
Proof.
  intros Hw Hwf Hns.
  destruct (captureLoopOn_inv (snapshot h2 copy) opponent ns []
              (snapshot h2 copy) 0%nat)
    as (g3 & count & Hcap & Hwf3 & removed & Hnd & -> & Hrem & Hcells).
  { split; [done|]. exists [].
    split; [constructor|]. split; [done|]. split; [|done].
    intros c. split.
    - intros Hc. by apply elem_of_nil in Hc.
    - intros (n & Hn & _). by apply elem_of_nil in Hn. }
  { done. }
  destruct (captureLoop_sim _ _ _ _ _ _ _ _ Hw Hcap) as (h3 & Hrun & <- & Hw3).
  by exists h3, removed.
Qed.

(** C3. The capture pass, run on the working copy once the stone is placed:
    the stones it removes are exactly the stones of the groups of the
    opponent that have a stone next to [(x, y)] and no liberty on the board
    with the stone placed; each of these groups is removed whole, every one
    of its cells being empty afterwards, and the other cells are left as
    they were; the count is the number of stones removed.  The pass gives
    the same board and the same count whatever the order in which the
    neighbors are taken, and an accepted move returns that board and that
    count. *)
Theorem capture_pass_complete h board x y player h2 copy :
  validBoard h board -> onBoard (x, y) ->
  placeStone h board x y player = Done (h2, copy) ->
  exists h3 removed,
    captureLoop h2 copy (opponentOf player) (getNeighbors x y) 0%nat
      = Done (h3, length removed) /\
    NoDup removed /\
    (forall c, c ∈ removed <->
       capturedFrom (cellAt (snapshot h2 copy)) (opponentOf player)
         (getNeighbors x y) c) /\
    (forall n c,
       n ∈ getNeighbors x y ->
       dead (cellAt (snapshot h2 copy)) (opponentOf player) n ->
       connected (cellAt (snapshot h2 copy)) (opponentOf player) n c ->
       c ∈ removed /\ cellAt (snapshot h3 copy) c = None) /\
    (forall c, onBoard c -> c ∉ removed ->
       cellAt (snapshot h3 copy) c = cellAt (snapshot h2 copy) c) /\
    (forall ns, ns ≡ₚ getNeighbors x y ->
       exists h3',
         captureLoop h2 copy (opponentOf player) ns 0%nat
           = Done (h3', length removed) /\
         snapshot h3' copy = snapshot h3 copy) /\
    (forall history h' r,
       tryMakeMove h board x y player history = Done (h', r) ->
       success r = true ->
       r = accepted copy (length removed) /\
       snapshot h' copy = snapshot h3 copy).
Proof.
  intros Hvalid Hxy Hplace.
  destruct (placeStone_spec h board x y player Hvalid Hxy)
    as (h2' & copy' & Hplace' & Hw & Hwf & _).
  rewrite Hplace in Hplace'. injection Hplace' as <- <-.
  assert (Hnb : forall n, n ∈ getNeighbors x y -> onBoard n).
  { intros n. by apply getNeighbors_onBoard. }
  destruct (captureLoop_spec h h2 copy (opponentOf player) (getNeighbors x y)
              Hw Hwf Hnb)
    as (h3 & removed & Hrun & Hw3 & Hwf3 & Hnd & Hrem & Hcells).
  exists h3, removed. do 3 (split; [done|]). split; [|split; [|split]].
  - intros n c Hn Hdead Hc.
    assert (Hin : c ∈ removed) by (apply Hrem; by exists n).
    split; [done|]. rewrite Hcells by by eapply connected_inv.
    by rewrite decide_True.
  - intros c Hc Hout. rewrite (Hcells c Hc). by rewrite decide_False.
  - intros ns Hperm.
    destruct (captureLoop_spec h h2 copy (opponentOf player) ns Hw Hwf)
      as (h3' & removed' & Hrun' & _ & Hwf3' & Hnd' & Hrem' & Hcells').
    { intros n Hn. apply Hnb. by rewrite <- Hperm. }
    assert (Hsame : forall c, c ∈ removed' <-> c ∈ removed).
    { intros c. rewrite Hrem, Hrem'.
      split; apply capturedFrom_perm; [done|by symmetry]. }
    exists h3'. split.
    + rewrite Hrun'. do 2 f_equal.
      by apply Permutation_length, NoDup_Permutation.
    + apply grid_ext; try done. intros c Hc.
      rewrite (Hcells c Hc), (Hcells' c Hc).
      destruct (decide (c ∈ removed')) as [Hin|Hout].
      * by rewrite decide_True by by apply Hsame.
      * by rewrite decide_False by by rewrite <- Hsame.
  - intros history h' r Hmove Hok.
    destruct (tryMakeMove_success_inv _ _ _ _ _ _ _ _ Hvalid Hmove Hok)
      as (_ & Hempty & _).
    assert (Hread : readCell (snapshot h board) x y = Done (Holds None)).
    { by rewrite (readCell_wf _ x y (proj2 Hvalid) Hxy), Hempty. }
    assert (Hpc : placeAndCapture h board x y player
                  = Done (h3, copy, length removed)).
    { rewrite (placeAndCapture_placeStone _ _ _ _ _ _ _ Hplace), Hrun.
      reflexivity. }
    destruct (tryMakeMove_cases h board x y player history h3 copy _ h' r
                Hxy Hread Hpc Hmove) as [-> [-> | [-> | ->]]]; done.
Qed.

Lemma capture_pass_complete_witness :
  exists h3 (removed : list Coord),
    captureLoop crossPlaced.1 crossPlaced.2 white (getNeighbors 5 5) 0%nat
      = Done (h3, length removed) /\
    length removed = 4%nat /\
    cellAt (snapshot h3 crossPlaced.2) (4, 5) = None /\
    cellAt (snapshot h3 crossPlaced.2) (5, 4) = None /\
    cellAt (snapshot h3 crossPlaced.2) (6, 5) = None /\
    cellAt (snapshot h3 crossPlaced.2) (7, 5) = None /\
    cellAt (snapshot h3 crossPlaced.2) (5, 6) = Some white.
Proof.
  destruct (capture_pass_complete (heapOf crossBoard []) 0%nat 5 5 black
              crossPlaced.1 crossPlaced.2)
    as (h3 & removed & Hrun & _); [| |vm_compute; reflexivity|].
  - apply validBoard_heapOf. reflexivity.
  - reflexivity.
  - exists h3, removed. split; [exact Hrun|].
    vm_compute in Hrun.
    injection Hrun as Hh Hlen. subst h3. split; [symmetry; exact Hlen|].
    repeat split; reflexivity.
Defined.

(** A group without liberties on the board with the stone placed, checked
    by running [getGroupAndLiberties] on that board. *)
Lemma dead_check g x y player color n :
  wfGridb g = true -> isOnBoard x y = true -> isOnBoard n.1 n.2 = true ->
  cellAt (putStone g (x, y, player)) n = Some color ->
  match getGroupAndLiberties (putStone g (x, y, player)) n.1 n.2 with
  | Done r => (liberties r =? 0)%nat
  | _ => false
  end = true ->
  dead (withStone (cellAt g) (x, y) player) color n.
Proof.
  intros Hwfb Hxy Hn Hcell Hzero. pose proof (wfGridb_sound g Hwfb) as Hwf.
  destruct (writeCellOn_wf g x y (Some player) Hwf Hxy)
    as (g1 & Hplace & Hwf1 & Hcells).
  unfold putStone in *. simpl in *. rewrite Hplace in *.
  assert (Hext : forall c, onBoard c ->
             cellAt g1 c = withStone (cellAt g) (x, y) player c).
  { intros c Hc. by rewrite (Hcells c Hc). }
  destruct n as [nx ny]. simpl in *. split.
  - by rewrite <- Hext.
  - intros e He. rewrite <- (libertyOf_ext _ _ _ _ _ Hext) in He.
    destruct (getGroupAndLiberties_correct g1 nx ny color Hwf1 Hn Hcell)
      as (grp & libs & Hrun & _ & _ & _ & Hlibs).
    rewrite Hrun in Hzero. simpl in Hzero. apply Hlibs in He.
    destruct libs; [by apply elem_of_nil in He|done].
Qed.

(** C1 fails as stated: White's stone at (1, 1) would have no liberty
    standing alone and takes away the last liberty of the black stone at
    (2, 1), yet the move is not accepted: it repeats the position of two
    plies before and is rejected as a ko. *)
Lemma capture_rejected_by_ko :
  validBoard koHeap 0 /\ onBoard (1, 1) /\
  cellAt (snapshot koHeap 0) (1, 1) = None /\
  (2, 1) ∈ getNeighbors 1 1 /\
  dead (withStone (cellAt (snapshot koHeap 0)) (1, 1) white) black (2, 1) /\
  (forall e, ~ libertyOf (withStone (cellAt (snapshot koHeap 0)) (1, 1) white)
                 white (1, 1) e) /\
  exists h' r,
    tryMakeMove koHeap 0 1 1 white 0 = Done (h', r) /\
    success r = false /\
    r = rejected "Ko rule: cannot repeat position immediately".
Proof.
  split; [apply validBoard_heapOf; reflexivity|].
  split; [reflexivity|]. split; [reflexivity|].
  split; [by apply (list_elem_of_lookup_2 _ 1%nat)|].
  split; [|split].
  - unfold koHeap. rewrite snapshot_heapOf. apply dead_check; reflexivity.
  - unfold koHeap. rewrite snapshot_heapOf.
    apply (dead_check koAfter 1 1 white white (1, 1)); reflexivity.
  - set (t := returned (tryMakeMove koHeap 0 1 1 white 0)
                (koHeap, rejected "none")).
    exists t.1, t.2. split; [vm_compute; reflexivity|].
    split; reflexivity.
Qed.

(** C1, amended.  When the stone placed on an empty cell leaves a group of
    the opponent next to it without liberty, the capture pass comes first
    and the move is never rejected as a suicide: it is accepted unless the
    ko test rejects it.  The group is removed whole (the cells of its
    stones are empty on the board after the pass), and the count returned
    with an accepted move is the number of stones of all the groups
    captured by the move; it is the size of that group when no other group
    is captured. *)
Theorem capture_before_suicide h board x y player history n :
  validBoard h board -> onBoard (x, y) ->
  cellAt (snapshot h board) (x, y) = None ->
  n ∈ getNeighbors x y ->
  dead (withStone (cellAt (snapshot h board)) (x, y) player)
    (opponentOf player) n ->
  exists h3 copy removed,
    placeAndCapture h board x y player = Done (h3, copy, length removed) /\
    tryMakeMove h board x y player history
      = Done (h3,
              if koTest (historyObj h history)
                   (JSON_stringify (snapshot h3 copy))
              then rejected "Ko rule: cannot repeat position immediately"
              else accepted copy (length removed)) /\
    NoDup removed /\
    (forall c,
       connected (withStone (cellAt (snapshot h board)) (x, y) player)
         (opponentOf player) n c ->
       c ∈ removed /\ cellAt (snapshot h3 copy) c = None) /\
    (forall c, c ∈ removed <->
       capturedFrom (withStone (cellAt (snapshot h board)) (x, y) player)
         (opponentOf player) (getNeighbors x y) c) /\
    ((forall m, m ∈ getNeighbors x y ->
        dead (withStone (cellAt (snapshot h board)) (x, y) player)
          (opponentOf player) m ->
        connected (withStone (cellAt (snapshot h board)) (x, y) player)
          (opponentOf player) n m) ->
     forall c, c ∈ removed <->
       connected (withStone (cellAt (snapshot h board)) (x, y) player)
         (opponentOf player) n c).
Proof.
  intros Hvalid Hxy Hempty Hn Hdead.
  set (post := withStone (cellAt (snapshot h board)) (x, y) player) in *.
  destruct (moveOn_spec _ x y player [] (proj2 Hvalid) Hxy Hempty)
    as (g1 & g2 & removed & self & Htrace & _).
  destruct (placeAndCapture_trace _ _ _ _ _ _ _ _ _ Hvalid Htrace)
    as (h3 & copy & Hpc & Hsnap & Hun).
  pose proof (fun c => trace_post _ _ _ _ _ _ _ _ c Hxy Htrace) as Hrem.
  fold post in Hrem.
  assert (Hgroup : forall c, connected post (opponentOf player) n c ->
                     c ∈ removed /\ cellAt g2 c = None).
  { intros c Hc. assert (Hin : c ∈ removed) by (apply Hrem; by exists n).
    split; [done|].
    rewrite (trace_cells2 _ _ _ _ _ _ _ _ Htrace) by by eapply connected_inv.
    by rewrite decide_True. }
  assert (Hnb : onBoard n) by by apply (getNeighbors_onBoard x y).
  assert (Hlive : liberties self <> 0%nat).
  { intros Hzero.
    pose proof (proj1 (trace_suicide _ _ _ _ _ _ _ _ Htrace) Hzero) as Hnone.
    apply (Hnone n). exists (x, y). split; [|split; [done|]].
    - constructor; [done|]. apply (trace_stone _ _ _ _ _ _ _ _ Htrace).
    - apply Hgroup. constructor; [done|]. apply Hdead. }
  exists h3, copy, removed. split; [done|]. split.
  { assert (Hread : readCell (snapshot h board) x y = Done (Holds None)).
    { by rewrite (readCell_wf _ x y (proj2 Hvalid) Hxy), Hempty. }
    rewrite (tryMakeMove_after_capture h board x y player history h3 copy _
               Hxy Hread Hpc).
    rewrite Hsnap, (trace_self _ _ _ _ _ _ _ _ Htrace). simpl.
    apply Nat.eqb_neq in Hlive. rewrite Hlive.
    assert (historyObj h3 history = historyObj h history) as -> by apply Hun.
    by destruct (koTest _ _). }
  split; [apply (trace_nodup _ _ _ _ _ _ _ _ Htrace)|].
  split; [by rewrite Hsnap|]. split; [done|].
  intros Honly c. rewrite Hrem. split.
  - intros (m & Hm & Hdm & Hmc).
    apply (connected_trans _ _ n m c); [|done]. by apply Honly.
  - intros Hc. by exists n.
Qed.

Lemma capture_before_suicide_witness :
  exists h3 copy (removed : list Coord),
    tryMakeMove (heapOf koBefore []) 0 2 1 black 0
      = Done (h3, accepted copy (length removed)) /\
    length removed = 1%nat /\
    cellAt (snapshot h3 copy) (1, 1) = None.
Proof.
  set (h := heapOf koBefore []).
  destruct (capture_before_suicide h 0%nat 2 1 black 0%nat (1, 1))
    as (h3 & copy & removed & Hpc & Hrun & _ & Hgroup & _).
  - apply validBoard_heapOf. reflexivity.
  - reflexivity.
  - reflexivity.
  - by apply (list_elem_of_lookup_2 _ 0%nat).
  - unfold h. rewrite snapshot_heapOf. apply dead_check; reflexivity.
  - exists h3, copy, removed. split; [exact Hrun|].
    split.
    + vm_compute in Hpc. injection Hpc as _ _ Hlen. symmetry. exact Hlen.
    + apply Hgroup. constructor; reflexivity.
Defined.

(** ** Boards without dead groups *)

Lemma liberty_dec g c color :
  wfGrid g -> onBoard c -> cellAt g c = Some color ->
  (exists e, libertyOf (cellAt g) color c e) \/
  (forall e, ~ libertyOf (cellAt g) color c e).
Proof.
  intros Hwf Hc Hcell. destruct c as [x y].
  destruct (getGroupAndLiberties_correct g x y color Hwf Hc Hcell)
    as (grp & libs & _ & _ & _ & _ & Hlibs).
  destruct libs as [|e libs].
  - right. intros e He%Hlibs. by apply elem_of_nil in He.
  - left. exists e. apply Hlibs. by left.
Qed.

Lemma connected_dec g a c color :
  wfGrid g -> onBoard a -> cellAt g a = Some color ->
  connected (cellAt g) color a c \/ ~ connected (cellAt g) color a c.
Proof.
  intros Hwf Ha Hcell. destruct a as [x y].
  destruct (getGroupAndLiberties_correct g x y color Hwf Ha Hcell)
    as (grp & libs & _ & _ & Hgrp & _).
  destruct (decide (c ∈ grp)) as [Hin|Hout].
  - left. by apply Hgrp.
  - right. by rewrite <- Hgrp.
Qed.

Lemma color_cases (player color : PlayerColor) :
  color = player \/ color = opponentOf player.
Proof. destruct player, color; auto. Qed.

(** An accepted move on a board without dead groups leaves none. *)
Lemma trace_noDeadGroup g x y player g1 g2 removed self :
  wfGrid g -> onBoard (x, y) -> cellAt g (x, y) = None ->
  MoveTrace g x y player g1 g2 removed self ->
  liberties self <> 0%nat ->
  noDeadGroup (cellAt g) -> noDeadGroup (cellAt g2).
Proof.
  intros Hwf Hxy Hempty Htrace Hlive Hno c color Hc Hfc.
  pose proof (trace_wf1 _ _ _ _ _ _ _ _ Htrace) as Hwf1.
  pose proof (trace_wf2 _ _ _ _ _ _ _ _ Htrace) as Hwf2.
  pose proof (trace_cells1 _ _ _ _ _ _ _ _ Htrace) as F1.
  pose proof (trace_cells2 _ _ _ _ _ _ _ _ Htrace) as F2.
  pose proof (trace_removed _ _ _ _ _ _ _ _ Htrace) as Hrem.
  pose proof (trace_stone _ _ _ _ _ _ _ _ Htrace) as Hstone.
  pose proof (fun d => trace_removed_opponent _ _ _ _ _ _ _ _ d Hxy Htrace)
    as F3.
  assert (Hkeep : forall d, onBoard d -> d <> (x, y) -> d ∉ removed ->
                    cellAt g2 d = cellAt g d).
  { intros d Hd Hne Hout. rewrite (F2 d Hd), decide_False by done.
    by rewrite (F1 d Hd), decide_False. }
  assert (Hc2 : (c ∉ removed) /\ cellAt g1 c = Some color).
  { rewrite (F2 c Hc) in Hfc. by destruct (decide (c ∈ removed)). }
  destruct Hc2 as [Hcout Hc1].
  destruct (color_cases player color) as [->| ->].
  - (* a stone of the player *)
    destruct (connected_dec g2 (x, y) c player Hwf2 Hxy Hstone)
      as [Hconn|Hsep].
    + destruct (liberty_dec g2 (x, y) player Hwf2 Hxy Hstone)
        as [[e He]|Hnone].
      * exists e. by apply (libertyOf_connected _ _ (x, y)).
      * by apply (trace_suicide _ _ _ _ _ _ _ _ Htrace) in Hnone.
    + assert (Hne : c <> (x, y)).
      { intros ->. apply Hsep. by constructor. }
      assert (Hc0 : cellAt g c = Some player).
      { by rewrite (F1 c Hc), decide_False in Hc1. }
      destruct (Hno c player Hc Hc0) as (e & c' & Hcc' & He & Hnone).
      assert (Hmono : forall d, onBoard d -> cellAt g d = Some player ->
                        cellAt g2 d = Some player).
      { intros d Hd Hfd. rewrite Hkeep; try done.
        - intros ->. congruence.
        - intros Hin%F3. destruct Hin as (_ & _ & Hopp).
          rewrite Hfd in Hopp. injection Hopp as Hopp.
          by destruct (opponentOf_neq player). }
      pose proof (connected_mono _ _ _ _ _ Hmono Hcc') as Hcc2.
      assert (Heb : onBoard e).
      { apply connected_inv in Hcc' as (_ & _ & Hcb & _).
        destruct c' as [cx cy]. by apply (getNeighbors_onBoard cx cy). }
      destruct (decide (e = (x, y))) as [->|Hexy].
      * destruct Hsep. apply connected_sym.
        by apply (connected_step _ _ _ c').
      * exists e, c'. split; [done|]. split; [done|].
        rewrite Hkeep; try done.
        intros Hin%F3. destruct Hin as (_ & _ & Hopp). congruence.
  - (* a stone of the opponent *)
    assert (Hne : c <> (x, y)).
    { intros ->. rewrite (F1 _ Hxy), decide_True in Hc1 by done.
      injection Hc1 as Hc1. by destruct (opponentOf_neq player). }
    assert (Hc0 : cellAt g c = Some (opponentOf player)).
    { by rewrite (F1 c Hc), decide_False in Hc1. }
    destruct (Hno c _ Hc Hc0) as (e & c' & Hcc' & He & Hnone).
    assert (Hmono : forall d, onBoard d ->
                      cellAt g d = Some (opponentOf player) ->
                      cellAt g1 d = Some (opponentOf player)).
    { intros d Hd Hfd. rewrite (F1 d Hd), decide_False; [done|].
      intros ->. congruence. }
    pose proof (connected_mono _ _ _ _ _ Hmono Hcc') as Hcc1.
    assert (Hcc2 : connected (cellAt g2) (opponentOf player) c c').
    { by apply (connected_current g1 _ g2 _ removed Hrem F2). }
    assert (Hc'out : c' ∉ removed).
    { by apply (removed_closed g1 _ _ removed Hrem c). }
    assert (Heb : onBoard e).
    { apply connected_inv in Hcc' as (_ & _ & Hcb & _).
      destruct c' as [cx cy]. by apply (getNeighbors_onBoard cx cy). }
    destruct (decide (e = (x, y))) as [->|Hexy].
    + assert (Hc'b : onBoard c') by by eapply connected_inv.
      assert (Hc'1 : cellAt g1 c' = Some (opponentOf player))
        by by eapply connected_inv.
      destruct (liberty_dec g1 c' _ Hwf1 Hc'b Hc'1) as [[e' He']|Hnone'].
      * exists e'. apply (libertyOf_connected _ _ c'); [by apply connected_sym|].
        by apply (libertyOf_current g1 _ g2 _ removed Hrem F2).
      * destruct Hc'out. apply Hrem. exists c'.
        split; [by apply (getNeighbors_sym c' (x, y))|].
        split; [done|]. by constructor.
    + exists e, c'. split; [done|]. split; [done|].
      rewrite Hkeep; try done.
      intros Hin%F3. destruct Hin as (_ & _ & Hopp). congruence.
Qed.

(** C6. When no group on the board passed in is without liberty, no group
    on the board returned by an accepted move is: the group of the new
    stone has a liberty (the suicide test), the groups of the opponent that
    the stone left without liberty have been removed, and every other
    group keeps a liberty. *)
Theorem tryMakeMove_keeps_liberties h board x y player history h' r :
  validBoard h board ->
  noDeadGroup (cellAt (snapshot h board)) ->
  tryMakeMove h board x y player history = Done (h', r) ->
  success r = true ->
  exists copy,
    newBoard r = Some copy /\ wfGrid (snapshot h' copy) /\
    noDeadGroup (cellAt (snapshot h' copy)).
Proof.
  intros Hvalid Hno Hrun Hok.
  destruct (tryMakeMove_success_inv _ _ _ _ _ _ _ _ Hvalid Hrun Hok)
    as (Hxy & Hempty & g1 & g2 & removed & self & copy & Htrace & -> &
        Hsnap & Hlive & _ & _).
  exists copy. split; [done|]. rewrite Hsnap.
  split; [apply (trace_wf2 _ _ _ _ _ _ _ _ Htrace)|].
  by apply (trace_noDeadGroup _ x y player g1 g2 removed self
              (proj2 Hvalid)).
Qed.

Lemma noDeadGroupb_sound g :
  wfGridb g = true -> noDeadGroupb g = true -> noDeadGroup (cellAt g).
Proof.
  intros Hwf%wfGridb_sound Hall c color Hc Hcell.
  assert (Hin : In c allCoords) by by apply list_elem_of_In, elem_of_allCoords.
  unfold noDeadGroupb in Hall. rewrite forallb_forall in Hall.
  specialize (Hall c Hin). rewrite Hcell in Hall.
  destruct c as [x y]. cbn [fst snd] in Hall.
  destruct (getGroupAndLiberties_correct g x y color Hwf Hc Hcell)
    as (grp & libs & Hrun & _ & _ & _ & Hlibs).
  rewrite Hrun in Hall. cbn [liberties] in Hall.
  destruct libs as [|e libs]; [discriminate Hall|].
  exists e. apply Hlibs. by left.
Qed.

Lemma tryMakeMove_keeps_liberties_witness :
  exists h' copy count,
    tryMakeMove (heapOf crossBoard []) 0 5 5 black 0
      = Done (h', accepted copy count) /\
    noDeadGroup (cellAt (snapshot (heapOf crossBoard []) 0)) /\
    noDeadGroup (cellAt (snapshot h' copy)).
Proof.
  set (h := heapOf crossBoard []).
  set (t := returned (tryMakeMove h 0 5 5 black 0) (h, rejected "none")).
  assert (Hrun : tryMakeMove h 0 5 5 black 0 = Done (t.1, t.2))
    by (vm_compute; reflexivity).
  assert (Hno : noDeadGroup (cellAt (snapshot h 0))).
  { unfold h. rewrite snapshot_heapOf.
    apply noDeadGroupb_sound; vm_compute; reflexivity. }
  destruct (tryMakeMove_keeps_liberties h 0%nat 5 5 black 0%nat t.1 t.2)
    as (copy & Hnew & _ & Hafter).
  - apply validBoard_heapOf. reflexivity.
  - exact Hno.
  - exact Hrun.
  - reflexivity.
  - exists t.1, copy, 4%nat. split; [|split; [exact Hno|exact Hafter]].
    rewrite Hrun. vm_compute in Hnew. injection Hnew as <-.
    vm_compute. reflexivity.
Defined.

(** ** Fingerprints

    [JSON.stringify] of a board determines the board. *)

Lemma app_String ch (a b : string) : String ch a +:+ b = String ch (a +:+ b).
Proof. reflexivity. Qed.

Lemma app_Empty (b : string) : EmptyString +:+ b = b.
Proof. reflexivity. Qed.

(** Moves the characters of literal strings out of the concatenations. *)
Ltac push_append :=
  repeat (rewrite app_String in * || rewrite app_Empty in * ).

Lemma string_app_assoc (a b c : string) : (a +:+ b) +:+ c = a +:+ b +:+ c.
Proof.
  induction a as [|ch a IH]; [done|]. rewrite !app_String. by rewrite IH.
Qed.

Lemma string_app_empty (a : string) : a +:+ EmptyString = a.
Proof.
  induction a as [|ch a IH]; [done|]. rewrite app_String. by rewrite IH.
Qed.

Lemma joinTail_nil close : joinTail [] close = close.
Proof. reflexivity. Qed.

Lemma joinTail_cons item items close :
  joinTail (item :: items) close = "," +:+ item +:+ joinTail items close.
Proof. reflexivity. Qed.

Lemma fold_left_joinTail rest : forall first close,
  fold_left (fun acc item => acc +:+ "," +:+ item) rest first +:+ close
    = first +:+ joinTail rest close.
Proof.
  induction rest as [|item rest IH]; intros first close; [done|].
  rewrite joinTail_cons. simpl. by rewrite IH, !string_app_assoc.
Qed.

Lemma joinTail_app items close s :
  joinTail items close +:+ s = joinTail items (close +:+ s).
Proof.
  induction items as [|item items IH]; [done|].
  by rewrite !joinTail_cons, !string_app_assoc, IH.
Qed.

Section Arrays.
Context {A : Type}.
Variable enc : A -> string.

Hypothesis Hfree : prefixFree enc.
Hypothesis Hstart : notClosing enc.

Lemma joinTail_inj items : forall items' s t,
  joinTail (enc <$> items) ("]" +:+ s) = joinTail (enc <$> items') ("]" +:+ t) ->
  items = items' /\ s = t.
Proof.
  induction items as [|a items IH]; intros [|b items'] s t;
    rewrite ?fmap_nil, ?fmap_cons, ?joinTail_nil, ?joinTail_cons;
    push_append.
  - by intros [= ->].
  - intros [=].
  - intros [=].
  - intros [= Heq]. apply Hfree in Heq as [-> Heq].
    by apply IH in Heq as [-> ->].
Qed.

Lemma arrayText_cons a items s :
  arrayText enc (a :: items) +:+ s
    = "[" +:+ enc a +:+ joinTail (enc <$> items) ("]" +:+ s).
Proof.
  unfold arrayText, stringifyArray. simpl.
  by rewrite string_app_assoc, fold_left_joinTail, string_app_assoc,
    joinTail_app.
Qed.

Lemma arrayText_free items items' s t :
  arrayText enc items +:+ s = arrayText enc items' +:+ t -> items = items' /\ s = t.
Proof.
  destruct items as [|a items], items' as [|b items'];
    rewrite ?arrayText_cons; unfold arrayText, stringifyArray;
    rewrite ?fmap_nil; push_append.
  - by intros [= ->].
  - intros [= Heq]. by apply (Hstart b s) in Heq.
  - intros [= Heq]. symmetry in Heq. by apply (Hstart a t) in Heq.
  - intros [= Heq].
    apply Hfree in Heq as [-> Heq]. by apply joinTail_inj in Heq as [-> ->].
Qed.

Lemma arrayText_notClosing items s t : "]" +:+ s <> arrayText enc items +:+ t.
Proof.
  destruct items as [|a items];
    rewrite ?arrayText_cons; unfold arrayText, stringifyArray;
    rewrite ?fmap_nil; push_append; by intros [=].
Qed.
End Arrays.

Lemma stringifyCell_free : prefixFree stringifyCell.
Proof.
  intros [[]|] [[]|] s t; unfold stringifyCell, doubleQuote; push_append;
    intros [=]; by subst.
Qed.

Lemma stringifyCell_notClosing : notClosing stringifyCell.
Proof.
  intros [[]|] s t; unfold stringifyCell, doubleQuote; push_append;
    by intros [=].
Qed.

Lemma JSON_stringify_inj (g g' : Grid) :
  JSON_stringify g = JSON_stringify g' -> g = g'.
Proof.
  intros Heq.
  assert (Hrows : prefixFree (arrayText stringifyCell)).
  { intros a b s t.
    apply arrayText_free;
      [apply stringifyCell_free|apply stringifyCell_notClosing]. }
  assert (Hrows' : notClosing (arrayText stringifyCell)).
  { intros a s t. apply arrayText_notClosing. }
  apply (arrayText_free (arrayText stringifyCell) Hrows Hrows' g g'
           EmptyString EmptyString).
  by rewrite !string_app_empty.
Qed.

(** ** The ko test *)




(** * Further properties of the code *)

(** ** [copyBoard] *)

Lemma copyBoard_ref h board h1 copy :
  allocated h board -> copyBoard h board = (h1, copy) ->
  copy = boardNext h /\ allocated h1 copy /\
  rowNext h1 = (rowNext h + length (boardObj h board))%nat /\
  boardNext h1 = S (boardNext h).
Proof.
  intros [Hb Hrows] Hcopy. unfold copyBoard in Hcopy.
  destruct (copyRows h (boardObj h board)) as [h' rows'] eqn:Hcr.
  apply copyRows_spec in Hcr
    as (-> & Hnext & Hold & Hmap & Hbo & Hh & Hbn); [|done].
  injection Hcopy as <- <-. unfold allocated. simpl.
  rewrite Hbn, Nat.eqb_refl. repeat split; try done; try lia.
  intros r Hr. apply elem_of_seq in Hr. lia.
Qed.

Lemma snapshot_storeRow_other h r cells board :
  r ∉ boardObj h board ->
  snapshot (storeRow h r cells) board = snapshot h board.
Proof.
  intros Hout. unfold snapshot, storeRow. simpl. apply map_ext_in.
  intros r' Hr'%list_elem_of_In.
  destruct (Nat.eqb_spec r' r) as [->|]; [by destruct Hout|done].
Qed.

(** X1. [copyBoard] makes a deep copy: the copy is a new board with the
    contents of the original, its rows are new objects, pairwise different
    and different from the rows of the original, and nothing that was in
    the heap changes.  A later write to a cell of the copy changes that
    cell of the copy only, and a later write to the original does not
    change the copy. *)
Theorem copyBoard_deep h board h1 copy :
  validBoard h board -> copyBoard h board = (h1, copy) ->
  snapshot h1 copy = snapshot h board /\
  unchanged h h1 /\
  copy = boardNext h /\
  NoDup (boardObj h1 copy) /\
  (forall r, r ∈ boardObj h1 copy -> r ∉ boardObj h1 board) /\
  (forall x y v, onBoard (x, y) ->
     exists h2,
       writeCell h1 copy x y v = Done h2 /\
       snapshot h2 board = snapshot h board /\
       forall c, onBoard c ->
         cellAt (snapshot h2 copy) c =
           if decide (c = (x, y)) then v else cellAt (snapshot h board) c) /\
  (forall x y v, onBoard (x, y) ->
     exists h2,
       writeCell h1 board x y v = Done h2 /\
       snapshot h2 copy = snapshot h board).
Proof.
  intros [Hal Hwf] Hcopy.
  destruct (copyBoard_spec h board h1 copy Hal Hcopy) as [Hsnap Hw].
  destruct (copyBoard_ref h board h1 copy Hal Hcopy) as (Href & Hal1 & _).
  pose proof Hw as (Hun & Hnd & Hfresh).
  assert (Hbo : boardObj h1 board = boardObj h board).
  { destruct Hun as (_ & Hbo & _). apply Hbo, Hal. }
  assert (Hdisj : forall r, r ∈ boardObj h1 copy -> r ∉ boardObj h1 board).
  { intros r Hr Hr'. apply Hfresh in Hr. rewrite Hbo in Hr'.
    apply Hal in Hr'. lia. }
  do 5 (split; [done|]). split.
  - intros x y v Hxy.
    destruct (writeCellOn_wf (snapshot h board) x y v Hwf Hxy)
      as (g' & Hwr & _ & Hcells).
    rewrite <- Hsnap in Hwr.
    destruct (writeCell_sim _ _ _ _ _ _ _ Hw Hwr) as (h2 & Hrun & <- & Hw2).
    exists h2. split; [done|]. split; [|done].
    apply unchanged_snapshot; [done|apply Hw2].
  - intros x y v Hxy. pose proof Hxy as Hxy'.
    apply onBoard_spec in Hxy'. simpl in Hxy'.
    assert (Hwf1 : wfGrid (snapshot h1 board)).
    { by rewrite (unchanged_snapshot h h1 board). }
    unfold writeCell.
    assert (Hlen : length (boardObj h1 board) = 19%nat).
    { destruct Hwf1 as [Hlen _]. unfold snapshot in Hlen.
      by rewrite length_map in Hlen. }
    destruct (arrayGet_Some (boardObj h1 board) y) as [r Hr]; [lia|].
    rewrite Hr.
    assert (Hrow : arrayGet (snapshot h1 board) y = Some (rowObj h1 r)).
    { unfold snapshot. change (map ?f) with (fmap (M:=list) f).
      by rewrite arrayGet_fmap, Hr. }
    pose proof (wfGrid_row _ _ _ Hwf1 Hrow) as Hrlen.
    unfold arraySet. destruct (Z.leb_spec 0 x); [|lia].
    destruct (Z.ltb_spec x (Z.of_nat (length (rowObj h1 r)))); [|lia].
    simpl. eexists. split; [done|].
    rewrite snapshot_storeRow_other; [done|].
    intros Hin. apply (Hdisj r Hin).
    rewrite arrayGet_lookup in Hr by lia. by eapply list_elem_of_lookup_2.
Qed.

Lemma copyBoard_deep_witness :
  exists h1 copy h2,
    copyBoard (heapOf koBefore []) 0 = (h1, copy) /\
    writeCell h1 copy 5 5 (Some black) = Done h2 /\
    snapshot h2 0 = snapshot (heapOf koBefore []) 0 /\
    cellAt (snapshot h2 copy) (5, 5) = Some black.
Proof.
  set (h := heapOf koBefore []).
  destruct (copyBoard h 0) as [h1 copy] eqn:Hcopy.
  destruct (copyBoard_deep h 0%nat h1 copy) as (_ & _ & _ & _ & _ & Hwrite & _).
  - apply validBoard_heapOf. reflexivity.
  - exact Hcopy.
  - destruct (Hwrite 5 5 (Some black)) as (h2 & Hrun & Hsame & Hcells);
      [reflexivity|].
    exists h1, copy, h2. split; [reflexivity|]. split; [exact Hrun|].
    split; [exact Hsame|]. rewrite Hcells by reflexivity. reflexivity.
Defined.

(** ** The search from any stone of a group *)

(** X2. [getGroupAndLiberties] gives the same group and the same liberty
    count from whichever stone of the group it starts: started from a
    stone of the group it has returned, it returns the same stones, in
    some order, and the same count. *)
Theorem group_from_any_stone g x y ra b :
  wfGrid g -> onBoard (x, y) ->
  getGroupAndLiberties g x y = Done ra -> b ∈ group ra ->
  exists rb,
    getGroupAndLiberties g b.1 b.2 = Done rb /\
    group rb ≡ₚ group ra /\ liberties rb = liberties ra.
Proof.
  intros Hwf Hxy Hrun Hb.
  destruct (cellAt g (x, y)) as [color|] eqn:Hcell.
  2:{ unfold getGroupAndLiberties in Hrun.
      rewrite (readCell_wf g x y Hwf Hxy), Hcell in Hrun. simpl in Hrun.
      injection Hrun as <-. by apply elem_of_nil in Hb. }
  destruct (getGroupAndLiberties_correct g x y color Hwf Hxy Hcell)
    as (ga & la & Hrun' & Hnda & Hga & Hndla & Hla).
  rewrite Hrun in Hrun'. injection Hrun' as ->. simpl in *.
  apply Hga in Hb. pose proof (connected_inv _ _ _ _ Hb) as (_ & _ & Hbb & Hfb).
  destruct b as [bx b_y].
  destruct (getGroupAndLiberties_correct g bx b_y color Hwf Hbb Hfb)
    as (gb & lb & Hrunb & Hndb & Hgb & Hndlb & Hlb).
  eexists. split; [exact Hrunb|]. simpl. split.
  - apply NoDup_Permutation; [done|done|]. intros c. rewrite Hga, Hgb.
    split; intros Hc.
    + by apply (connected_trans _ _ _ (bx, b_y)).
    + apply (connected_trans _ _ _ (x, y)); [by apply connected_sym|done].
  - apply Permutation_length, NoDup_Permutation; [done|done|].
    intros e. rewrite Hla, Hlb. split.
    + apply libertyOf_connected. by apply connected_sym.
    + by apply libertyOf_connected.
Qed.

Lemma group_from_any_stone_witness :
  exists ra rb,
    getGroupAndLiberties crossBoard 6 5 = Done ra /\
    getGroupAndLiberties crossBoard 7 5 = Done rb /\
    group rb ≡ₚ group ra /\ liberties rb = liberties ra.
Proof.
  set (ra := returned (getGroupAndLiberties crossBoard 6 5)
               {| group := []; liberties := 0 |}).
  destruct (group_from_any_stone crossBoard 6 5 ra (7, 5))
    as (rb & Hrb & Hperm & Hlibs).
  - apply wfGridb_sound. reflexivity.
  - reflexivity.
  - vm_compute. reflexivity.
  - apply (list_elem_of_lookup_2 _ 1%nat). reflexivity.
  - exists ra, rb. split; [vm_compute; reflexivity|].
    split; [exact Hrb|]. split; [exact Hperm|exact Hlibs].
Defined.

(** ** Keys *)






(** ** Neighbors *)

(** X4. On the board, being a neighbor is symmetric, and no cell is its own
    neighbor. *)
Theorem getNeighbors_symmetric (a b : Coord) :
  onBoard a -> onBoard b ->
  (b ∈ getNeighbors a.1 a.2 <-> a ∈ getNeighbors b.1 b.2) /\
  a ∉ getNeighbors a.1 a.2.
Proof.
  intros Ha Hb. split.
  - split; by apply getNeighbors_sym.
  - destruct a as [x y]. simpl.
    intros [_ Hadj]%elem_of_getNeighbors; [|done].
    unfold adjacent in Hadj. simpl in Hadj. lia.
Qed.

Lemma getNeighbors_symmetric_witness :
  ((0, 1) ∈ getNeighbors 0 0 <-> (0, 0) ∈ getNeighbors 0 1) /\
  (0, 0) ∉ getNeighbors 0 0.
Proof.
  apply (getNeighbors_symmetric (0, 0) (0, 1)); reflexivity.
Defined.

(** ** Fingerprints *)

(** X5. The fingerprint [JSON.stringify] of a board determines the board:
    two boards with the same fingerprint have the same rows and cells. *)
Theorem fingerprint_inj (g g' : Grid) :
  JSON_stringify g = JSON_stringify g' <-> g = g'.
Proof. split; [apply JSON_stringify_inj|by intros ->]. Qed.

(** ** Seeds that are not stones *)

(** X6. [getGroupAndLiberties] on a board of the right shape: a seed
    whose row is outside the board makes it throw; a seed of a row of the
    board that is empty or outside the columns gives the empty group with
    no liberty; a stone gives a group that it belongs to, and the stones
    of the group and its liberties together are at most the 361 cells. *)
Theorem getGroupAndLiberties_seeds g x y :
  wfGrid g ->
  (y < 0 \/ 19 <= y -> getGroupAndLiberties g x y = TypeError) /\
  (0 <= y < 19 -> x < 0 \/ 19 <= x \/ cellAt g (x, y) = None ->
   getGroupAndLiberties g x y = Done {| group := []; liberties := 0 |}) /\
  (onBoard (x, y) -> cellAt g (x, y) <> None ->
   exists r,
     getGroupAndLiberties g x y = Done r /\ (x, y) ∈ group r /\
     (length (group r) + liberties r <= 361)%nat).
Proof.
  intros Hwf. pose proof Hwf as [Hlen Hrows]. split; [|split].
  - intros Hy. unfold getGroupAndLiberties, readCell, arrayGet.
    destruct (Z.leb_spec 0 y); [|reflexivity].
    rewrite (proj2 (lookup_ge_None g (Z.to_nat y))) by lia. reflexivity.
  - intros Hy Hx.
    destruct (isOnBoard x y) eqn:Hon.
    + unfold getGroupAndLiberties. rewrite (readCell_wf g x y Hwf Hon).
      destruct Hx as [Hx|[Hx|Hx]].
      * apply isOnBoard_spec in Hon. unfold BOARD_SIZE in Hon. lia.
      * apply isOnBoard_spec in Hon. unfold BOARD_SIZE in Hon. lia.
      * rewrite Hx. reflexivity.
    + assert (Hout : x < 0 \/ 19 <= x).
      { destruct (Z.ltb_spec x 0); [by left|].
        destruct (Z.leb_spec 19 x); [by right|].
        assert (isOnBoard x y = true); [|congruence].
        apply isOnBoard_spec. unfold BOARD_SIZE. lia. }
      unfold getGroupAndLiberties, readCell, arrayGet.
      destruct (Z.leb_spec 0 y); [|lia].
      destruct (g !! Z.to_nat y) as [row|] eqn:Hrow.
      2:{ apply lookup_ge_None in Hrow. lia. }
      assert (Hr : length row = 19%nat).
      { rewrite Forall_forall in Hrows. apply Hrows.
        by eapply list_elem_of_lookup_2. }
      destruct (Z.leb_spec 0 x); [|reflexivity].
      rewrite (proj2 (lookup_ge_None row (Z.to_nat x))) by lia. reflexivity.
  - intros Hxy Hstone.
    destruct (cellAt g (x, y)) as [color|] eqn:Hcell; [|done].
    destruct (getGroupAndLiberties_correct g x y color Hwf Hxy Hcell)
      as (grp & libs & Hrun & Hnd & Hgrp & Hlnd & Hlibs).
    eexists. split; [exact Hrun|]. cbn [group liberties]. split.
    + apply Hgrp. by apply connected_refl.
    + rewrite <- length_app. apply onBoard_length_bound.
      * apply NoDup_app. split; [done|]. split; [|done].
        intros c Hc%Hgrp He%Hlibs.
        apply connected_inv in Hc as (_ & _ & _ & Hc).
        destruct He as (c' & _ & _ & He). congruence.
      * intros c [Hc%Hgrp|Hc%Hlibs]%elem_of_app.
        -- by apply connected_inv in Hc as (_ & _ & ? & _).
        -- by apply libertyOf_onBoard in Hc.
Qed.

Lemma getGroupAndLiberties_seeds_witness :
  getGroupAndLiberties crossBoard 5 19 = TypeError /\
  getGroupAndLiberties crossBoard 19 5
    = Done {| group := []; liberties := 0 |} /\
  exists r,
    getGroupAndLiberties crossBoard 6 5 = Done r /\ (6, 5) ∈ group r /\
    (length (group r) + liberties r <= 361)%nat.
Proof.
  assert (Hwf : wfGrid crossBoard) by (apply wfGridb_sound; reflexivity).
  split; [|split].
  - apply (getGroupAndLiberties_seeds crossBoard 5 19 Hwf). lia.
  - apply (getGroupAndLiberties_seeds crossBoard 19 5 Hwf); lia.
  - apply (getGroupAndLiberties_seeds crossBoard 6 5 Hwf); [reflexivity|].
    assert (Hc : cellAt crossBoard (6, 5) = Some white)
      by (vm_compute; reflexivity).
    rewrite Hc. intros Hno. discriminate Hno.
Defined.

(** ** What a move allocates *)

Lemma writeCell_layout h board x y v h' :
  writeCell h board x y v = Done h' -> sameLayout h h'.
Proof.
  unfold writeCell. destruct (arrayGet _ y) as [r|]; [|done].
  destruct (arraySet _ x v) as [cells| | |]; simpl; try done.
  by intros [= <-].
Qed.

Lemma sameLayout_trans h1 h2 h3 :
  sameLayout h1 h2 -> sameLayout h2 h3 -> sameLayout h1 h3.
Proof. unfold sameLayout. intros (-> & -> & ->) (-> & -> & ->). done. Qed.

Lemma removeStones_layout board stones : forall h count h' count',
  removeStones h board stones count = Done (h', count') -> sameLayout h h'.
Proof.
  induction stones as [|stone rest IH]; intros h count h' count'; simpl.
  - by intros [= <- <-].
  - destruct (writeCell h board _ _ None) as [h1| | |] eqn:Hwr; simpl;
      try (intros Hno; discriminate Hno).
    intros Hrest. apply (sameLayout_trans _ h1).
    + by apply writeCell_layout in Hwr.
    + by apply IH in Hrest.
Qed.

Lemma captureAt_layout h board opponent count n h' count' :
  captureAt h board opponent count n = Done (h', count') -> sameLayout h h'.
Proof.
  unfold captureAt.
  destruct (readCell _ _ _) as [c| | |]; simpl;
    try (intros Hno; discriminate Hno).
  destruct (bool_decide _).
  - destruct (getGroupAndLiberties _ _ _) as [r| | |]; simpl;
      try (intros Hno; discriminate Hno).
    destruct (liberties r =? 0)%nat.
    + apply removeStones_layout.
    + by intros [= <- <-].
  - by intros [= <- <-].
Qed.

Lemma captureLoop_layout board opponent ns : forall h count h' count',
  captureLoop h board opponent ns count = Done (h', count') ->
  sameLayout h h'.
Proof.
  induction ns as [|n rest IH]; intros h count h' count'; simpl.
  - by intros [= <- <-].
  - destruct (captureAt h board opponent count n) as [[h1 count1]| | |] eqn:Hat;
      simpl; try (intros Hno; discriminate Hno).
    intros Hrest. apply (sameLayout_trans _ h1).
    + by apply captureAt_layout in Hat.
    + by apply IH in Hrest.
Qed.

(** The board of an accepted move is the working copy, the next board
    object of the heap, with rows that the heap did not have. *)
Lemma tryMakeMove_accepted_copy h board x y player history h' r :
  validBoard h board ->
  tryMakeMove h board x y player history = Done (h', r) ->
  success r = true ->
  exists count,
    r = accepted (boardNext h) count /\
    working h h' (boardNext h) /\ validBoard h' (boardNext h) /\
    boardNext h' = S (boardNext h).
Proof.
  intros Hvalid Hrun Hok.
  destruct (tryMakeMove_success_inv _ _ _ _ _ _ _ _ Hvalid Hrun Hok)
    as (Hxy & Hempty & g1 & g2 & removed & self & copy0 & Htrace & Hr0 &
        Hsnap0 & _ & _ & _).
  destruct (placeStone_spec h board x y player Hvalid Hxy)
    as (h2 & copy & Hps & Hw2 & Hwf2 & _).
  assert (Hcopy : copy = boardNext h /\ allocated h2 copy /\
                  boardNext h2 = S (boardNext h)).
  { unfold placeStone in Hps.
    destruct (copyBoard h board) as [h1 copy'] eqn:Hcb.
    destruct (copyBoard_ref _ _ _ _ (proj1 Hvalid) Hcb)
      as (-> & Hal1 & _ & Hbn1).
    destruct (writeCell h1 (boardNext h) x y (Some player)) as [h2'| | |] eqn:Hwr;
      simpl in Hps; try discriminate Hps.
    injection Hps as -> <-.
    apply writeCell_layout in Hwr as (Hbo & Hrn & Hbn).
    split; [done|]. split; [|congruence].
    unfold allocated. rewrite Hbo, Hrn, Hbn. exact Hal1. }
  destruct Hcopy as (-> & Hal2 & Hbn2).
  destruct (captureLoop_spec h h2 (boardNext h) (opponentOf player)
              (getNeighbors x y) Hw2 Hwf2)
    as (h3 & removed' & Hcap & Hw3 & Hwf3 & _).
  { intros n. by apply getNeighbors_onBoard. }
  pose proof (placeAndCapture_placeStone _ _ _ _ _ _ _ Hps) as Hpc.
  rewrite Hcap in Hpc. simpl in Hpc.
  assert (Hread : readCell (snapshot h board) x y = Done (Holds None)).
  { by rewrite (readCell_wf _ x y (proj2 Hvalid) Hxy), Hempty. }
  destruct (tryMakeMove_cases _ _ _ _ _ _ _ _ _ _ _ Hxy Hread Hpc Hrun)
    as [-> Hcases].
  apply captureLoop_layout in Hcap as (Hbo & Hrn & Hbn).
  exists (length removed'). split.
  { destruct Hcases as [-> | [-> | ->]]; done. }
  split; [done|]. split; [|congruence].
  split; [|done]. unfold allocated. rewrite Hbo, Hrn, Hbn. exact Hal2.
Qed.

(** The ways [tryMakeMove] ends in. *)
Lemma tryMakeMove_results h board x y player history :
  validBoard h board ->
  exists h' r,
    tryMakeMove h board x y player history = Done (h', r) /\
    unchanged h h' /\
    moveOn (snapshot h board) x y player (historyObj h history)
      = Done (viewOf h' r) /\
    ((isOnBoard x y = false /\ h' = h /\ r = rejected "Invalid position") \/
     (isOnBoard x y = true /\ cellAt (snapshot h board) (x, y) <> None /\
      h' = h /\ r = rejected "Position occupied") \/
     (isOnBoard x y = true /\ cellAt (snapshot h board) (x, y) = None /\
      (r = rejected "Suicide move is forbidden" \/
       r = rejected "Ko rule: cannot repeat position immediately" \/
       exists count, r = accepted (boardNext h) count))).
Proof.
  intros Hvalid.
  destruct (tryMakeMove_total h board x y player history Hvalid)
    as (h' & r & Hrun & Hun & Hmove).
  exists h', r. split; [exact Hrun|]. split; [exact Hun|].
  split; [exact Hmove|].
  destruct (isOnBoard x y) eqn:Hon.
  2:{ rewrite (tryMakeMove_off_board h board x y player history Hon) in Hrun.
      injection Hrun as <- <-. by left. }
  destruct (cellAt (snapshot h board) (x, y)) as [c|] eqn:Hcell.
  { rewrite (tryMakeMove_occupied h board x y player history c
               Hvalid Hon Hcell) in Hrun.
    injection Hrun as <- <-. right; left. done. }
  right; right. split; [done|]. split; [done|].
  destruct (success r) eqn:Hok.
  - destruct (tryMakeMove_accepted_copy _ _ _ _ _ _ _ _ Hvalid Hrun Hok)
      as (count & -> & _). right; right. by exists count.
  - destruct (tryMakeMove_spec h board x y player history Hvalid Hon Hcell)
      as (g1 & g2 & removed & self & h'' & r' & _ & Hrun' & _ & Hview).
    rewrite Hrun in Hrun'. injection Hrun' as <- <-.
    unfold verdict in Hview.
    destruct (liberties self =? 0)%nat.
    { apply viewOf_rejected in Hview. by left. }
    destruct (koTest _ _).
    { apply viewOf_rejected in Hview. by right; left. }
    apply (f_equal v_success) in Hview. simpl in Hview. congruence.
Qed.



(** ** Counting the stones of a move *)

Lemma NoDup_allCoords : NoDup allCoords.
Proof. apply (NoDup_fmap_1 keyOf), NoDup_keys. Qed.

Lemma trace_cells g x y player g1 g2 removed self c :
  onBoard (x, y) -> MoveTrace g x y player g1 g2 removed self -> onBoard c ->
  cellAt g2 c =
    if decide (c = (x, y)) then Some player
    else if decide (c ∈ removed) then None else cellAt g c.
Proof.
  intros Hxy Htrace Hc.
  rewrite (trace_cells2 _ _ _ _ _ _ _ _ Htrace c Hc),
    (trace_cells1 _ _ _ _ _ _ _ _ Htrace c Hc).
  destruct (decide (c = (x, y))) as [->|Hne]; [|done].
  rewrite decide_False; [done|]. intros Hin.
  by apply (trace_removed_opponent _ _ _ _ _ _ _ _ _ Hxy Htrace) in Hin
    as (_ & ? & _).
Qed.

Lemma trace_count g x y player g1 g2 removed self :
  onBoard (x, y) -> cellAt g (x, y) = None ->
  MoveTrace g x y player g1 g2 removed self ->
  countStones g2 player = S (countStones g player) /\
  (countStones g2 (opponentOf player) + length removed)%nat
    = countStones g (opponentOf player).
Proof.
  intros Hxy Hempty Htrace. unfold countStones.
  pose proof (fun c => trace_cells _ _ _ _ _ _ _ _ c Hxy Htrace) as Hcells.
  pose proof (fun c => trace_removed_opponent _ _ _ _ _ _ _ _ c Hxy Htrace)
    as Hrem.
  pose proof (opponentOf_neq player) as Hopp.
  split.
  - change (S (length ?l)) with (length ((x, y) :: l)).
    apply Permutation_length, NoDup_Permutation.
    + apply NoDup_filter, NoDup_allCoords.
    + constructor; [|apply NoDup_filter, NoDup_allCoords].
      rewrite list_elem_of_filter. intros [Hp _]. congruence.
    + intros c. rewrite elem_of_cons, !list_elem_of_filter, !elem_of_allCoords.
      split.
      * intros [Hp Hc]. rewrite (Hcells c Hc) in Hp.
        destruct (decide (c = (x, y))); [by left|].
        destruct (decide (c ∈ removed)); [done|]. by right.
      * intros [->|[Hp Hc]].
        -- split; [|done]. rewrite (Hcells _ Hxy). by rewrite decide_True.
        -- split; [|done]. rewrite (Hcells c Hc).
           destruct (decide (c = (x, y))) as [->|]; [congruence|].
           destruct (decide (c ∈ removed)) as [Hin|]; [|done].
           apply Hrem in Hin as (_ & _ & Hin). congruence.
  - rewrite Nat.add_comm, <- length_app.
    apply Permutation_length, NoDup_Permutation.
    + apply NoDup_app. split; [apply (trace_nodup _ _ _ _ _ _ _ _ Htrace)|].
      split; [|apply NoDup_filter, NoDup_allCoords].
      intros c Hin. rewrite list_elem_of_filter, elem_of_allCoords.
      intros [Hp Hc]. rewrite (Hcells c Hc) in Hp.
      destruct (decide (c = (x, y))); [congruence|].
      by rewrite decide_True in Hp.
    + apply NoDup_filter, NoDup_allCoords.
    + intros c. rewrite elem_of_app, !list_elem_of_filter, !elem_of_allCoords.
      split.
      * intros [Hin|[Hp Hc]].
        -- by apply Hrem in Hin as (? & _ & ?).
        -- split; [|done]. rewrite (Hcells c Hc) in Hp.
           destruct (decide (c = (x, y))); [congruence|].
           by destruct (decide (c ∈ removed)).
      * intros [Hp Hc]. destruct (decide (c ∈ removed)) as [|Hnot]; [by left|].
        right. split; [|done]. rewrite (Hcells c Hc).
        destruct (decide (c = (x, y))) as [->|]; [congruence|].
        by rewrite decide_False.
Qed.

(** X8. An accepted move adds one stone of the player and takes
    [capturedCount] stones of the opponent off the board; no stone of the
    player is taken. *)
Theorem tryMakeMove_stone_count h board x y player history h' r :
  validBoard h board ->
  tryMakeMove h board x y player history = Done (h', r) ->
  success r = true ->
  exists count,
    r = accepted (boardNext h) count /\
    countStones (snapshot h' (boardNext h)) player
      = S (countStones (snapshot h board) player) /\
    (countStones (snapshot h' (boardNext h)) (opponentOf player) + count)%nat
      = countStones (snapshot h board) (opponentOf player).
Proof.
  intros Hvalid Hrun Hok.
  destruct (tryMakeMove_success_inv _ _ _ _ _ _ _ _ Hvalid Hrun Hok)
    as (Hxy & Hempty & g1 & g2 & removed & self & copy & Htrace & Hr &
        Hsnap & _ & _ & _).
  destruct (tryMakeMove_accepted_copy _ _ _ _ _ _ _ _ Hvalid Hrun Hok)
    as (count & Hr' & _).
  rewrite Hr in Hr'. injection Hr' as -> <-.
  exists (length removed). split; [done|]. rewrite Hsnap.
  by apply (trace_count _ x y player g1 g2 removed self).
Qed.

Lemma tryMakeMove_stone_count_witness :
  exists h',
    tryMakeMove (heapOf crossBoard []) 0 5 5 black 0
      = Done (h', accepted 1 4) /\
    countStones (snapshot h' 1) black = 10%nat /\
    countStones (snapshot h' 1) white = 1%nat.
Proof.
  set (h := heapOf crossBoard []).
  set (t := returned (tryMakeMove h 0 5 5 black 0) (h, rejected "none")).
  assert (Hrun : tryMakeMove h 0 5 5 black 0 = Done (t.1, t.2))
    by (vm_compute; reflexivity).
  destruct (tryMakeMove_stone_count h 0%nat 5 5 black 0%nat t.1 t.2)
    as (count & Hr & Hown & Hopp).
  - apply validBoard_heapOf. reflexivity.
  - exact Hrun.
  - reflexivity.
  - assert (Hcount : count = 4%nat).
    { assert (Hc : capturedCount t.2 = Some 4%nat) by (vm_compute; reflexivity).
      rewrite Hr in Hc. by injection Hc. }
    subst count. change (boardNext h) with 1%nat in Hr, Hown, Hopp.
    exists t.1. rewrite <- Hr. split; [exact Hrun|].
    unfold h in Hown, Hopp. rewrite snapshot_heapOf in Hown, Hopp.
    assert (Hb : countStones crossBoard black = 9%nat)
      by (vm_compute; reflexivity).
    assert (Hw : countStones crossBoard white = 5%nat)
      by (vm_compute; reflexivity).
    rewrite Hb in Hown. change (opponentOf black) with white in Hopp.
    rewrite Hw in Hopp. split; [exact Hown|lia].
Defined.

(** ** A free cell beside the stone *)

(** A free cell next to the new stone stays free and is a liberty of its
    group. *)
Lemma trace_beside_empty g x y player g1 g2 removed self e :
  onBoard (x, y) -> MoveTrace g x y player g1 g2 removed self ->
  e ∈ getNeighbors x y -> cellAt g e = None ->
  cellAt g2 e = None /\ liberties self <> 0%nat.
Proof.
  intros Hxy Htrace He Hfree.
  pose proof (getNeighbors_onBoard _ _ _ Hxy He) as Heb.
  assert (Hne : e <> (x, y)).
  { intros ->. apply elem_of_getNeighbors in He as [_ Hadj]; [|done].
    unfold adjacent in Hadj. simpl in Hadj. lia. }
  assert (Hfree2 : cellAt g2 e = None).
  { rewrite (trace_cells _ _ _ _ _ _ _ _ _ Hxy Htrace Heb).
    rewrite decide_False by done. by destruct (decide (e ∈ removed)). }
  split; [done|]. intros Hzero.
  pose proof (proj1 (trace_suicide _ _ _ _ _ _ _ _ Htrace) Hzero) as Hnone.
  apply (Hnone e). exists (x, y). split; [|done].
  apply connected_refl; [done|].
  apply (trace_stone _ _ _ _ _ _ _ _ Htrace).
Qed.

(** X9. A stone put next to an empty cell is never a suicide: such a move
    is rejected only for ko, and is accepted otherwise. *)
Theorem tryMakeMove_beside_empty h board x y player history e :
  validBoard h board -> onBoard (x, y) ->
  cellAt (snapshot h board) (x, y) = None ->
  e ∈ getNeighbors x y -> cellAt (snapshot h board) e = None ->
  exists h' r,
    tryMakeMove h board x y player history = Done (h', r) /\
    (r = rejected "Ko rule: cannot repeat position immediately" \/
     exists count,
       r = accepted (boardNext h) count /\
       cellAt (snapshot h' (boardNext h)) e = None).
Proof.
  intros Hvalid Hxy Hempty He Hfree.
  destruct (tryMakeMove_spec h board x y player history Hvalid Hxy Hempty)
    as (g1 & g2 & removed & self & h' & r & Htrace & Hrun & _ & Hview).
  exists h', r. split; [exact Hrun|].
  destruct (trace_beside_empty _ _ _ _ _ _ _ _ _ Hxy Htrace He Hfree)
    as [Hfree2 Hlibs].
  unfold verdict in Hview. apply Nat.eqb_neq in Hlibs. rewrite Hlibs in Hview.
  destruct (koTest _ _).
  { apply viewOf_rejected in Hview. by left. }
  right.
  assert (Hok : success r = true).
  { apply (f_equal v_success) in Hview. exact Hview. }
  destruct (tryMakeMove_accepted_copy _ _ _ _ _ _ _ _ Hvalid Hrun Hok)
    as (count & -> & _).
  exists count. split; [done|].
  apply (f_equal v_board) in Hview. simpl in Hview.
  injection Hview as ->. exact Hfree2.
Qed.

Lemma tryMakeMove_beside_empty_witness :
  exists h' r,
    tryMakeMove (heapOf koBefore []) 0 5 5 black 0 = Done (h', r) /\
    (r = rejected "Ko rule: cannot repeat position immediately" \/
     exists count,
       r = accepted 1 count /\ cellAt (snapshot h' 1) (4, 5) = None).
Proof.
  apply (tryMakeMove_beside_empty (heapOf koBefore []) 0%nat 5 5 black 0%nat
           (4, 5)).
  - apply validBoard_heapOf. reflexivity.
  - reflexivity.
  - reflexivity.
  - apply (list_elem_of_lookup_2 _ 0%nat). reflexivity.
  - reflexivity.
Defined.

(** ** The board of an accepted move *)

(** X10. The board of an accepted move is a new object that shares no row
    with any board the heap held: it is the next board reference, of the
    right shape, and a later write to one of its cells leaves the contents
    of every earlier board as they were before the move. *)
Theorem tryMakeMove_new_board h board x y player history h' r :
  validBoard h board ->
  tryMakeMove h board x y player history = Done (h', r) ->
  success r = true ->
  newBoard r = Some (boardNext h) /\
  validBoard h' (boardNext h) /\
  NoDup (boardObj h' (boardNext h)) /\
  forall b, allocated h b ->
    b <> boardNext h /\
    (forall row, row ∈ boardObj h' (boardNext h) -> row ∉ boardObj h' b) /\
    snapshot h' b = snapshot h b /\
    forall x' y' v h2,
      writeCell h' (boardNext h) x' y' v = Done h2 ->
      snapshot h2 b = snapshot h b.
Proof.
  intros Hvalid Hrun Hok.
  destruct (tryMakeMove_accepted_copy _ _ _ _ _ _ _ _ Hvalid Hrun Hok)
    as (count & -> & (Hun & Hnd & Hfresh) & Hvalid' & _).
  split; [done|]. split; [done|]. split; [done|].
  intros b [Hb Hrows].
  assert (Hdisj : forall row,
            row ∈ boardObj h' (boardNext h) -> row ∉ boardObj h' b).
  { intros row Hrow Hin. apply Hfresh in Hrow.
    destruct Hun as (_ & Hbo & _). rewrite (Hbo _ Hb) in Hin.
    apply Hrows in Hin. lia. }
  assert (Hsnap : snapshot h' b = snapshot h b)
    by by apply unchanged_snapshot.
  split; [lia|]. split; [done|]. split; [done|].
  intros x' y' v h2. unfold writeCell.
  destruct (arrayGet (boardObj h' (boardNext h)) y') as [row|] eqn:Hrow;
    [|done].
  destruct (arraySet _ x' v) as [cells| | |]; simpl; try done.
  intros [= <-]. rewrite snapshot_storeRow_other; [done|].
  apply Hdisj. unfold arrayGet in Hrow. destruct (0 <=? y'); [|done].
  by eapply list_elem_of_lookup_2.
Qed.

Lemma tryMakeMove_new_board_witness :
  exists h' r,
    tryMakeMove (heapOf koBefore []) 0 2 1 black 0 = Done (h', r) /\
    newBoard r = Some 1%nat /\
    forall x' y' v h2,
      writeCell h' 1 x' y' v = Done h2 -> snapshot h2 0 = koBefore.
Proof.
  set (h := heapOf koBefore []).
  set (t := returned (tryMakeMove h 0 2 1 black 0) (h, rejected "none")).
  assert (Hrun : tryMakeMove h 0 2 1 black 0 = Done (t.1, t.2))
    by (vm_compute; reflexivity).
  assert (Hvalid : validBoard h 0) by (apply validBoard_heapOf; reflexivity).
  destruct (tryMakeMove_new_board h 0%nat 2 1 black 0%nat t.1 t.2 Hvalid Hrun)
    as (Hnew & _ & _ & Hothers).
  - reflexivity.
  - exists t.1, t.2. split; [exact Hrun|]. split; [exact Hnew|].
    destruct (Hothers 0%nat (proj1 Hvalid)) as (_ & _ & _ & Hwrite).
    intros x' y' v h2 Hwr. rewrite (Hwrite x' y' v h2 Hwr).
    apply snapshot_heapOf.
Defined.

(** * The game *)

(** ** The handlers, case by case *)

Lemma handleMove_over s x y :
  App.gameOver (App.gameState s) = true -> App.handleMove s x y = Done s.
Proof. intros Hover. unfold App.handleMove. by rewrite Hover. Qed.

Lemma handleMove_rejected s x y h msg :
  App.gameOver (App.gameState s) = false ->
  tryMakeMove (App.store s) (App.board (App.gameState s)) x y
    (App.currentPlayer (App.gameState s)) (App.history (App.gameState s))
    = Done (h, rejected msg) ->
  msg <> EmptyString ->
  App.handleMove s x y =
    Done {| App.store := h; App.historyNext := App.historyNext s;
            App.gameState := App.gameState s; App.errorMsg := Some msg;
            App.gameLog := App.gameLog s |}.
Proof.
  intros Hover Hrun Hmsg. unfold App.handleMove. rewrite Hover.
  cbn [App.setErrorMsg App.store]. rewrite Hrun.
  cbv beta iota delta [mbind Outcome_bind rejected success newBoard error
                       App.setStore App.setErrorMsg App.orElse
                       App.store App.historyNext App.gameState App.gameLog].
  by destruct msg.
Qed.

Lemma handleMove_accepted s x y h copy count :
  App.gameOver (App.gameState s) = false ->
  tryMakeMove (App.store s) (App.board (App.gameState s)) x y
    (App.currentPlayer (App.gameState s)) (App.history (App.gameState s))
    = Done (h, accepted copy count) ->
  App.handleMove s x y =
    Done
      {| App.store :=
           App.allocHistory h (App.historyNext s)
             (historyObj h (App.history (App.gameState s)) ++
              [JSON_stringify (snapshot h copy)]);
         App.historyNext := S (App.historyNext s);
         App.gameState :=
           {| App.board := copy;
              App.currentPlayer := opponentOf (App.currentPlayer (App.gameState s));
              App.captured :=
                match App.currentPlayer (App.gameState s) with
                | black =>
                    {| App.captured_black :=
                         App.captured_black (App.captured (App.gameState s))
                         + count;
                       App.captured_white :=
                         App.captured_white (App.captured (App.gameState s)) |}
                | white =>
                    {| App.captured_black :=
                         App.captured_black (App.captured (App.gameState s));
                       App.captured_white :=
                         App.captured_white (App.captured (App.gameState s))
                         + count |}
                end;
              App.history := App.historyNext s;
              App.lastMove := Some (x, y);
              App.passes := 0;
              App.gameOver := false;
              App.winner := App.winner (App.gameState s) |};
         App.errorMsg := None;
         App.gameLog :=
           App.gameLog s ++
           [App.colorName (App.currentPlayer (App.gameState s)) +:+ " plays "
            +:+ App.coordLabel x y +:+
            (if (0 <? count)%nat
             then " and captures " +:+ numToString (Z.of_nat count)
             else EmptyString)] |}.
Proof.
  intros Hover Hrun. unfold App.handleMove. rewrite Hover.
  cbn [App.setErrorMsg App.store]. rewrite Hrun.
  cbv beta iota delta [mbind Outcome_bind accepted success newBoard
                       capturedCount default
                       App.setStore App.setErrorMsg App.addLog
                       App.store App.historyNext App.gameState App.gameLog
                       App.errorMsg].
  reflexivity.
Qed.

(** ** The invariant of the game *)

Lemma cellAt_emptyGrid c : cellAt emptyGrid c = None.
Proof.
  unfold cellAt, arrayGet, emptyGrid.
  destruct (0 <=? c.2); [|done].
  destruct (replicate 19 (replicate 19 None) !! Z.to_nat c.2) as [row|] eqn:Hrow;
    [|done].
  apply lookup_replicate in Hrow as [-> _].
  destruct (0 <=? c.1); [|done].
  destruct (replicate 19 None !! Z.to_nat c.1) as [cell|] eqn:Hcell; [|done].
  by apply lookup_replicate in Hcell as [-> _].
Qed.

Lemma wfGrid_emptyGrid : wfGrid emptyGrid.
Proof. apply wfGridb_sound. reflexivity. Qed.

Lemma noDeadGroup_emptyGrid : noDeadGroup (cellAt emptyGrid).
Proof. intros c color _ Hc. by rewrite cellAt_emptyGrid in Hc. Qed.

Lemma countStones_emptyGrid color : countStones emptyGrid color = 0%nat.
Proof. destruct color; vm_compute; reflexivity. Qed.

Lemma initial_snapshot :
  snapshot (App.store App.initialState) (App.board App.INITIAL_STATE)
    = emptyGrid.
Proof. vm_compute. reflexivity. Qed.

Lemma initial_allocated :
  allocated (App.store App.initialState) (App.board App.INITIAL_STATE).
Proof.
  split; [vm_compute; lia|]. intros r Hr.
  assert (Hrows : boardObj (App.store App.initialState)
                    (App.board App.INITIAL_STATE) = seq 0 19)
    by (vm_compute; reflexivity).
  rewrite Hrows in Hr. apply elem_of_seq in Hr.
  change (rowNext (App.store App.initialState)) with 19%nat. lia.
Qed.

Lemma initial_entries :
  App.entries App.initialState = [JSON_stringify emptyGrid].
Proof. vm_compute. reflexivity. Qed.

Lemma initial_position : App.position App.initialState = emptyGrid.
Proof. vm_compute. reflexivity. Qed.

Lemma GameInv_initial : GameInv App.initialState.
Proof.
  split; rewrite ?initial_position, ?initial_entries.
  - change (App.gameState App.initialState) with App.INITIAL_STATE.
    split; [apply initial_allocated|].
    rewrite initial_snapshot. apply wfGrid_emptyGrid.
  - split; [apply initial_allocated|apply initial_snapshot].
  - apply initial_entries.
  - vm_compute. lia.
  - exists [emptyGrid]. split; [reflexivity|]. split; [reflexivity|].
    split; [reflexivity|]. intros i g0 g1 _ Hno. destruct i; discriminate Hno.
  - intros i a b _ [Hb|Hb]; destruct i; discriminate Hb.
  - apply noDeadGroup_emptyGrid.
  - rewrite !countStones_emptyGrid. reflexivity.
  - split; [vm_compute; lia|]. intros _. vm_compute. lia.
  - change (App.gameState App.initialState) with App.INITIAL_STATE.
    split; [intros Hno; discriminate Hno|intros Hno; by destruct Hno].
  - change (App.gameState App.initialState) with App.INITIAL_STATE.
    split; reflexivity.
Qed.

(** The invariant does not look at the error message or at the log, nor at
    the player to move. *)
Lemma GameInv_update s s' :
  GameInv s ->
  App.store s' = App.store s -> App.historyNext s' = App.historyNext s ->
  App.board (App.gameState s') = App.board (App.gameState s) ->
  App.history (App.gameState s') = App.history (App.gameState s) ->
  App.captured (App.gameState s') = App.captured (App.gameState s) ->
  App.lastMove (App.gameState s') = App.lastMove (App.gameState s) ->
  ((App.passes (App.gameState s') <= 2)%nat /\
   (App.gameOver (App.gameState s') = false ->
    (App.passes (App.gameState s') <= 1)%nat)) ->
  (App.gameOver (App.gameState s') = true <->
   App.winner (App.gameState s') <> None) ->
  GameInv s'.
Proof.
  intros Hinv Hst Hnext Hb Hh Hc Hl Hpasses Hover.
  assert (Hpos : App.position s' = App.position s).
  { unfold App.position. by rewrite Hst, Hb. }
  assert (Hent : App.entries s' = App.entries s).
  { unfold App.entries. by rewrite Hst, Hh. }
  assert (Hpris : App.prisoners s' = App.prisoners s).
  { unfold App.prisoners. by rewrite Hc. }
  destruct Hinv as [H1 H2 H3 H4 H5 H6 H7 H8 H9 H10 H11].
  split; rewrite ?Hpos, ?Hent, ?Hpris, ?Hst, ?Hnext, ?Hb, ?Hh, ?Hl; done.
Qed.

(** Nor at what is allocated after the objects of the game. *)
Lemma GameInv_store s h :
  GameInv s -> unchanged (App.store s) h -> GameInv (App.setStore s h).
Proof.
  intros [H1 H2 H3 H4 H5 H6 H7 H8 H9 H10 H11] Hun.
  assert (Hpos : App.position (App.setStore s h) = App.position s).
  { unfold App.position. cbn [App.setStore App.store App.gameState].
    apply unchanged_snapshot; [apply H1|exact Hun]. }
  assert (Hent : App.entries (App.setStore s h) = App.entries s).
  { unfold App.entries. cbn [App.setStore App.store App.gameState].
    apply Hun. }
  assert (Hpris : App.prisoners (App.setStore s h) = App.prisoners s)
    by reflexivity.
  destruct H2 as [Hal0 Hsnap0].
  assert (Hv0 : validBoard (App.store s) (App.board App.INITIAL_STATE)).
  { split; [exact Hal0|]. rewrite Hsnap0. apply wfGrid_emptyGrid. }
  split; rewrite ?Hpos, ?Hent, ?Hpris;
    cbn [App.setStore App.store App.gameState App.historyNext].
  - exact (validBoard_unchanged _ _ _ H1 Hun).
  - split.
    + exact (proj1 (validBoard_unchanged _ _ _ Hv0 Hun)).
    + rewrite <- Hsnap0. apply unchanged_snapshot; [exact Hal0|exact Hun].
  - rewrite <- H3. apply Hun.
  - exact H4.
  - exact H5.
  - exact H6.
  - exact H7.
  - exact H8.
  - exact H9.
  - exact H10.
  - exact H11.
Qed.

Lemma GameInv_reset s : GameInv s -> GameInv (App.resetGame s).
Proof.
  intros [H1 [Hal0 Hsnap0] H3 H4 H5 H6 H7 H8 H9 H10 H11].
  assert (Hpos : App.position (App.resetGame s) = emptyGrid) by exact Hsnap0.
  assert (Hent : App.entries (App.resetGame s) = [JSON_stringify emptyGrid])
    by exact H3.
  split; rewrite ?Hpos, ?Hent;
    cbn [App.resetGame App.store App.gameState App.historyNext].
  - split; [exact Hal0|]. rewrite Hsnap0. apply wfGrid_emptyGrid.
  - split; [exact Hal0|exact Hsnap0].
  - exact H3.
  - change (App.history App.INITIAL_STATE) with 0%nat. lia.
  - exists [emptyGrid]. split; [reflexivity|]. split; [reflexivity|].
    split; [reflexivity|]. intros i g0 g1 _ Hno. destruct i; discriminate Hno.
  - intros i a b _ [Hb|Hb]; destruct i; discriminate Hb.
  - apply noDeadGroup_emptyGrid.
  - rewrite !countStones_emptyGrid. reflexivity.
  - change (App.passes App.INITIAL_STATE) with 0%nat.
    split; [lia|]. intros _. lia.
  - change (App.gameOver App.INITIAL_STATE) with false.
    change (App.winner App.INITIAL_STATE) with (@None App.Winner).
    split; [intros Hno; discriminate Hno|intros Hno; by destruct Hno].
  - change (App.lastMove App.INITIAL_STATE) with (@None Coord).
    split; reflexivity.
Qed.

Lemma GameInv_pass s : GameInv s -> GameInv (App.handlePass s).
Proof.
  intros Hinv. unfold App.handlePass.
  destruct (App.gameOver (App.gameState s)) eqn:Hover; [exact Hinv|].
  destruct (game_passes s Hinv) as [_ Hp]. specialize (Hp Hover).
  destruct (2 <=? App.passes (App.gameState s) + 1)%nat eqn:Htwo.
  - apply (GameInv_update s);
      [exact Hinv|reflexivity|reflexivity|reflexivity|reflexivity|
       reflexivity|reflexivity| |]; cbn.
    + apply Nat.leb_le in Htwo. split; [lia|]. intros Hno. discriminate Hno.
    + split; [intros _ Hno; discriminate Hno|reflexivity].
  - apply (GameInv_update s);
      [exact Hinv|reflexivity|reflexivity|reflexivity|reflexivity|
       reflexivity|reflexivity| |]; cbn.
    + apply Nat.leb_gt in Htwo. split; [lia|]. intros _. lia.
    + rewrite <- (game_over s Hinv). rewrite Hover. reflexivity.
Qed.

Lemma GameInv_resign s : GameInv s -> GameInv (App.handleResign s).
Proof.
  intros Hinv.
  apply (GameInv_update s);
      [exact Hinv|reflexivity|reflexivity|reflexivity|reflexivity|
       reflexivity|reflexivity| |]; cbn.
  - split; [apply (game_passes s Hinv)|]. intros Hno. discriminate Hno.
  - split; [intros _ Hno; discriminate Hno|reflexivity].
Qed.

Lemma GameInv_timeout s : GameInv s -> GameInv (App.errorTimeout s).
Proof.
  intros Hinv.
  apply (GameInv_update s);
      [exact Hinv|reflexivity|reflexivity|reflexivity|reflexivity|
       reflexivity|reflexivity| |]; cbn.
  - apply (game_passes s Hinv).
  - apply (game_over s Hinv).
Qed.

(** The result of a move from its steps. *)
Lemma moveOn_trace g x y player g1 g2 removed self past :
  wfGrid g -> onBoard (x, y) -> cellAt g (x, y) = None ->
  MoveTrace g x y player g1 g2 removed self ->
  moveOn g x y player past = Done (verdict past g2 removed self).
Proof.
  intros Hwf Hxy Hempty Htrace. unfold moveOn.
  pose proof Hxy as Hon. unfold onBoard in Hon. cbn [fst snd] in Hon.
  rewrite Hon, (readCell_wf g x y Hwf Hxy), Hempty.
  cbv beta iota delta [negb mbind Outcome_bind bool_decide decide_rel].
  destruct (JsCell_eq_dec (Holds None) (Holds None)) as [_|Hne];
    [|by destruct Hne].
  rewrite (trace_place _ _ _ _ _ _ _ _ Htrace).
  cbv beta iota delta [mbind Outcome_bind].
  rewrite (trace_capture _ _ _ _ _ _ _ _ Htrace).
  cbv beta iota delta [mbind Outcome_bind].
  rewrite (trace_self _ _ _ _ _ _ _ _ Htrace).
  cbv beta iota delta [mbind Outcome_bind]. unfold verdict.
  destruct (liberties self =? 0)%nat; [reflexivity|].
  destruct (koTest past (JSON_stringify g2)); reflexivity.
Qed.


(** A new history changes no board. *)
Lemma snapshot_allocHistory h next items board :
  snapshot (App.allocHistory h next items) board = snapshot h board.
Proof. reflexivity. Qed.

Lemma validBoard_allocHistory h next items board :
  validBoard h board -> validBoard (App.allocHistory h next items) board.
Proof. intros Hvalid. exact Hvalid. Qed.

Lemma historyObj_allocHistory h next items i :
  historyObj (App.allocHistory h next items) i =
    if (i =? next)%nat then items else historyObj h i.
Proof. reflexivity. Qed.

(** The state after an accepted move. *)
Lemma GameInv_accepted s x y h count :
  GameInv s ->
  App.gameOver (App.gameState s) = false ->
  tryMakeMove (App.store s) (App.board (App.gameState s)) x y
    (App.currentPlayer (App.gameState s)) (App.history (App.gameState s))
    = Done (h, accepted (boardNext (App.store s)) count) ->
  forall s', App.handleMove s x y = Done s' -> GameInv s'.
Proof.
  intros Hinv Hover Hrun s' Hs'.
  rewrite (handleMove_accepted s x y h _ count Hover Hrun) in Hs'.
  injection Hs' as <-.
  pose proof (game_board s Hinv) as Hvalid.
  set (player := App.currentPlayer (App.gameState s)) in *.
  destruct (tryMakeMove_success_inv _ _ _ _ _ _ _ _ Hvalid Hrun eq_refl)
    as (Hxy & Hempty & g1 & g2 & removed & self & copy & Htrace & Hr &
        Hsnap & Hlibs & Hko & Hun).
  injection Hr as <- ->.
  destruct (tryMakeMove_accepted_copy _ _ _ _ _ _ _ _ Hvalid Hrun eq_refl)
    as (_ & _ & _ & Hvalid' & _).
  fold (App.position s) in Hempty, Htrace.
  assert (Hentries : historyObj h (App.history (App.gameState s))
                     = App.entries s) by apply Hun.
  destruct (game_initial_board s Hinv) as [Hal0 Hsnap0].
  assert (Hv0 : validBoard (App.store s) (App.board App.INITIAL_STATE)).
  { split; [done|]. rewrite Hsnap0. apply wfGrid_emptyGrid. }
  pose proof (game_history_ref s Hinv) as Href.
  destruct (game_positions s Hinv)
    as (positions & Hpos & Hhead & Hlast & Hmoves).
  assert (Hstone : cellAt g2 (x, y) = Some player)
    by apply (trace_stone _ _ _ _ _ _ _ _ Htrace).
  assert (Hdiff : JSON_stringify (App.position s) <> JSON_stringify g2).
  { intros Heq%JSON_stringify_inj. rewrite <- Heq in Hstone. congruence. }
  assert (Hlen : length (App.entries s) = length positions)
    by (by rewrite Hpos, length_fmap).
  assert (Hlast' : App.entries s !! pred (length (App.entries s))
                   = Some (JSON_stringify (App.position s))).
  { rewrite Hpos, list_lookup_fmap, length_fmap, <- last_lookup, Hlast.
    done. }
  assert (Hne : (0 < length (App.entries s))%nat).
  { rewrite Hlen. destruct positions; [done|simpl; lia]. }
  split; unfold App.position, App.entries, App.prisoners;
    cbn [App.store App.gameState App.board App.history App.historyNext
         App.captured App.lastMove App.passes App.gameOver App.winner];
    rewrite ?snapshot_allocHistory, ?historyObj_allocHistory,
      ?Nat.eqb_refl, ?Hsnap, ?Hentries.
  - apply validBoard_allocHistory. exact Hvalid'.
  - split.
    + exact (proj1 (validBoard_unchanged _ _ _ Hv0 Hun)).
    + rewrite <- Hsnap0. apply unchanged_snapshot; [exact Hal0|exact Hun].
  - change (App.history App.INITIAL_STATE) with 0%nat.
    destruct (Nat.eqb_spec 0 (App.historyNext s)) as [Heq|_]; [lia|].
    rewrite <- (game_initial_history s Hinv). apply Hun.
  - lia.
  - exists (positions ++ [g2]). split; [|split; [|split]].
    + by rewrite fmap_app, Hpos.
    + by destruct positions.
    + apply last_snoc.
    + intros i g0 g3 Hg0 Hg3.
      destruct (decide (S i < length positions)%nat) as [Hi|Hi].
      { rewrite lookup_app_l in Hg0 by lia. rewrite lookup_app_l in Hg3 by lia.
        by apply (Hmoves i). }
      pose proof (lookup_lt_Some _ _ _ Hg3) as Hlt.
      rewrite length_app in Hlt. cbn [length] in Hlt.
      assert (S i = length positions) as Hi' by lia.
      rewrite lookup_app_l in Hg0 by lia.
      rewrite lookup_app_r, Hi', Nat.sub_diag in Hg3 by lia.
      injection Hg3 as <-.
      replace i with (pred (length positions)) in Hg0 by lia.
      rewrite <- last_lookup, Hlast in Hg0. injection Hg0 as <-.
      split; [apply Hvalid|].
      exists player, x, y, (length removed).
      rewrite (moveOn_trace (App.position s) x y player g1 g2 removed self []
                 (proj2 Hvalid) Hxy Hempty Htrace).
      unfold verdict. apply Nat.eqb_neq in Hlibs. rewrite Hlibs. reflexivity.
  - intros i a b Ha Hb.
    destruct (decide (i < length (App.entries s))%nat) as [Hi|Hi].
    2:{ destruct Hb as [Hb|Hb]; apply lookup_lt_Some in Hb;
          rewrite length_app in Hb; simpl in Hb; lia. }
    rewrite lookup_app_l in Ha by done.
    assert (Hnew : forall j, (length (App.entries s) <= j)%nat ->
              (App.entries s ++ [JSON_stringify g2]) !! j = Some b ->
              j = length (App.entries s) /\ b = JSON_stringify g2).
    { intros j Hj Hjb. pose proof (lookup_lt_Some _ _ _ Hjb) as Hlt.
      rewrite length_app in Hlt. simpl in Hlt.
      assert (j = length (App.entries s)) as -> by lia.
      rewrite lookup_app_r, Nat.sub_diag in Hjb by done.
      split; [done|]. by injection Hjb. }
    destruct Hb as [Hb|Hb].
    + destruct (decide (S i < length (App.entries s))%nat) as [Hj|Hj].
      * rewrite lookup_app_l in Hb by done.
        apply (game_no_repeat s Hinv i); auto.
      * destruct (Hnew (S i)) as [Hi' ->]; [lia|done|].
        replace i with (pred (length (App.entries s))) in Ha by lia.
        rewrite Hlast' in Ha. by injection Ha as <-.
    + destruct (decide (S (S i) < length (App.entries s))%nat) as [Hj|Hj].
      * rewrite lookup_app_l in Hb by done.
        apply (game_no_repeat s Hinv i); auto.
      * destruct (Hnew (S (S i))) as [Hi' ->]; [lia|done|].
        intros ->. rewrite <- not_true_iff_false in Hko. apply Hko.
        apply koTest_spec. fold (App.entries s). split; [lia|].
        by replace (length (App.entries s) - 2)%nat with i by lia.
  - apply (trace_noDeadGroup (App.position s) x y player g1 g2 removed self);
      try done.
    + apply Hvalid.
    + apply (game_legal s Hinv).
  - destruct (trace_count _ x y player g1 g2 removed self Hxy Hempty Htrace)
      as [Hown Hopp].
    pose proof (game_count s Hinv) as Hcount. unfold App.prisoners in Hcount.
    rewrite length_app. cbn [length].
    clearbody player.
    destruct player;
      cbn [opponentOf App.captured_black App.captured_white] in *; lia.
  - split; [lia|]. intros _. lia.
  - split; [intros Hno; discriminate Hno|].
    intros Hw. apply (game_over s Hinv) in Hw. congruence.
  - split; [done|]. by rewrite Hstone.
Qed.

(** What [handleMove] does in a state of a game that is not over. *)
Lemma handleMove_spec s x y :
  GameInv s -> App.gameOver (App.gameState s) = false ->
  exists h r,
    tryMakeMove (App.store s) (App.board (App.gameState s)) x y
      (App.currentPlayer (App.gameState s)) (App.history (App.gameState s))
      = Done (h, r) /\
    unchanged (App.store s) h /\
    moveOn (App.position s) x y (App.currentPlayer (App.gameState s))
      (App.entries s) = Done (viewOf h r) /\
    ((exists msg,
        r = rejected msg /\
        msg ∈ ["Invalid position"; "Position occupied";
               "Suicide move is forbidden";
               "Ko rule: cannot repeat position immediately"] /\
        App.handleMove s x y =
          Done {| App.store := h; App.historyNext := App.historyNext s;
                  App.gameState := App.gameState s;
                  App.errorMsg := Some msg;
                  App.gameLog := App.gameLog s |}) \/
     (exists count s',
        r = accepted (boardNext (App.store s)) count /\
        App.handleMove s x y = Done s' /\ GameInv s')).
Proof.
  intros Hinv Hover.
  destruct (tryMakeMove_results (App.store s) (App.board (App.gameState s))
              x y (App.currentPlayer (App.gameState s))
              (App.history (App.gameState s)) (game_board s Hinv))
    as (h & r & Hrun & Hun & Hmove & Hcases).
  exists h, r. split; [exact Hrun|]. split; [exact Hun|].
  split; [exact Hmove|].
  assert (Hrej : forall msg, r = rejected msg -> msg <> EmptyString ->
            App.handleMove s x y =
              Done {| App.store := h; App.historyNext := App.historyNext s;
                      App.gameState := App.gameState s;
                      App.errorMsg := Some msg;
                      App.gameLog := App.gameLog s |}).
  { intros msg -> Hmsg. by apply handleMove_rejected. }
  destruct Hcases as [(_ & _ & Hr)|[(_ & _ & _ & Hr)|(_ & _ & Hcases)]].
  - left. eexists. split; [exact Hr|]. split.
    + apply (list_elem_of_lookup_2 _ 0%nat). reflexivity.
    + by apply Hrej.
  - left. eexists. split; [exact Hr|]. split.
    + apply (list_elem_of_lookup_2 _ 1%nat). reflexivity.
    + by apply Hrej.
  - destruct Hcases as [Hr | [Hr | [count Hr]]].
    + left. eexists. split; [exact Hr|]. split.
      * apply (list_elem_of_lookup_2 _ 2%nat). reflexivity.
      * by apply Hrej.
    + left. eexists. split; [exact Hr|]. split.
      * apply (list_elem_of_lookup_2 _ 3%nat). reflexivity.
      * by apply Hrej.
    + right. subst r.
      pose proof (handleMove_accepted s x y h _ count Hover Hrun) as Hs'.
      eexists count, _. split; [done|]. split; [exact Hs'|].
      by apply (GameInv_accepted s x y h count Hinv Hover Hrun).
Qed.

Lemma GameInv_move s x y s' :
  GameInv s -> App.handleMove s x y = Done s' -> GameInv s'.
Proof.
  intros Hinv Hs'.
  destruct (App.gameOver (App.gameState s)) eqn:Hover.
  { rewrite (handleMove_over s x y Hover) in Hs'. by injection Hs' as <-. }
  destruct (handleMove_spec s x y Hinv Hover)
    as (h & r & _ & Hun & _ & [(msg & _ & _ & Hrej)|(count & s2 & _ & Hacc & Hinv2)]).
  - rewrite Hrej in Hs'. injection Hs' as <-.
    apply (GameInv_update (App.setStore s h)); try done.
    + by apply GameInv_store.
    + apply (game_passes s Hinv).
    + apply (game_over s Hinv).
  - rewrite Hacc in Hs'. by injection Hs' as <-.
Qed.

Lemma reachable_GameInv s : App.reachable s -> GameInv s.
Proof.
  induction 1.
  - apply GameInv_initial.
  - by apply (GameInv_move s x y).
  - by apply GameInv_pass.
  - by apply GameInv_resign.
  - by apply GameInv_reset.
  - by apply GameInv_timeout.
Qed.

(** ** Games *)

Lemma reachable_playAll moves : forall s,
  App.reachable s -> App.reachable (playAll s moves).
Proof.
  induction moves as [|c rest IH]; intros s Hs; [exact Hs|].
  apply IH. unfold returned.
  destruct (App.handleMove s c.1 c.2) as [s'| | |] eqn:Hmove; try exact Hs.
  exact (App.reachable_move s c.1 c.2 s' Hs Hmove).
Qed.

Lemma reachable_afterCapture : App.reachable afterCapture.
Proof. apply reachable_playAll, App.reachable_initial. Qed.

(** X11. Every position of a game is legal: the board on the screen has
    19 rows of 19 cells, and every group of stones on it has a liberty. *)
Theorem game_position_legal s :
  App.reachable s ->
  wfGrid (App.position s) /\ noDeadGroup (cellAt (App.position s)).
Proof.
  intros Hinv%reachable_GameInv. split.
  - apply (game_board s Hinv).
  - apply (game_legal s Hinv).
Qed.

Lemma game_position_legal_witness :
  wfGrid (App.position afterCapture) /\
  noDeadGroup (cellAt (App.position afterCapture)).
Proof.
  apply (game_position_legal afterCapture). apply reachable_afterCapture.
Defined.





(** ** The handlers *)



(** X15. A pass is not recorded in the history and changes no board; it
    gives the turn to the other player.  It ends the game exactly when the
    count of passes is 1, that is when a pass was made and no move accepted
    since, and the result is then a draw.  Two passes in a row always end
    the game. *)
Theorem handlePass_ends_game s :
  App.reachable s -> App.gameOver (App.gameState s) = false ->
  App.position (App.handlePass s) = App.position s /\
  App.entries (App.handlePass s) = App.entries s /\
  App.currentPlayer (App.gameState (App.handlePass s))
    = opponentOf (App.currentPlayer (App.gameState s)) /\
  (App.gameOver (App.gameState (App.handlePass s)) = true <->
   App.passes (App.gameState s) = 1%nat) /\
  (App.gameOver (App.gameState (App.handlePass s)) = true ->
   App.winner (App.gameState (App.handlePass s)) = Some App.draw) /\
  App.gameOver (App.gameState (App.handlePass (App.handlePass s))) = true /\
  App.winner (App.gameState (App.handlePass (App.handlePass s)))
    = Some App.draw.
Proof.
  intros Hinv%reachable_GameInv Hover.
  destruct (game_passes s Hinv) as [_ Hp]. specialize (Hp Hover).
  assert (Hcases : App.passes (App.gameState s) = 0%nat \/
                   App.passes (App.gameState s) = 1%nat) by lia.
  unfold App.handlePass at 1 2 3 4 5 6. rewrite Hover.
  destruct Hcases as [Hzero|Hone]; rewrite ?Hzero, ?Hone;
    cbn [Nat.add Nat.leb].
  - cbn. do 3 (split; [reflexivity|]).
    split; [split; [intros Hno; discriminate Hno|lia]|].
    split; [intros Hno; discriminate Hno|].
    unfold App.handlePass. rewrite Hover, Hzero. cbn. split; reflexivity.
  - cbn. do 3 (split; [reflexivity|]).
    split; [split; [lia|reflexivity]|].
    split; [reflexivity|].
    unfold App.handlePass. rewrite Hover, Hone. cbn. split; reflexivity.
Qed.

Lemma handlePass_ends_game_witness :
  App.gameOver (App.gameState (App.handlePass afterCapture)) = false /\
  App.gameOver (App.gameState (App.handlePass (App.handlePass afterCapture)))
    = true /\
  App.winner (App.gameState (App.handlePass (App.handlePass afterCapture)))
    = Some App.draw.
Proof.
  destruct (handlePass_ends_game afterCapture)
    as (_ & _ & _ & _ & _ & Hover & Hwin).
  - apply reachable_afterCapture.
  - vm_compute. reflexivity.
  - split; [vm_compute; reflexivity|]. split; [exact Hover|exact Hwin].
Defined.



(** ** A new game *)

Lemma getNeighbors_nonempty x y :
  onBoard (x, y) -> exists e, e ∈ getNeighbors x y.
Proof.
  intros Hxy. pose proof (length_getNeighbors x y Hxy) as Hlen.
  destruct (getNeighbors x y) as [|e rest].
  - destruct (isCorner x y); [done|]. by destruct (isInterior x y).
  - exists e. by left.
Qed.

(** The first move of a game, on any cell of the board, is accepted and
    takes nothing. *)
Lemma moveOn_emptyGrid x y player :
  onBoard (x, y) ->
  exists g2,
    moveOn emptyGrid x y player [JSON_stringify emptyGrid]
      = Done (acceptedView g2 0) /\
    forall c, onBoard c ->
      cellAt g2 c = if decide (c = (x, y)) then Some player else None.
Proof.
  intros Hxy.
  destruct (moveOn_spec emptyGrid x y player [JSON_stringify emptyGrid]
              wfGrid_emptyGrid Hxy (cellAt_emptyGrid _))
    as (g1 & g2 & removed & self & Htrace & Hmove).
  destruct (getNeighbors_nonempty x y Hxy) as [e He].
  destruct (trace_beside_empty _ _ _ _ _ _ _ _ _ Hxy Htrace He
              (cellAt_emptyGrid _)) as [_ Hlibs].
  assert (Hnone : removed = []).
  { destruct removed as [|c rest]; [done|].
    destruct (trace_removed_opponent _ _ _ _ _ _ _ _ c Hxy Htrace)
      as (_ & _ & Hc); [by left|].
    by rewrite cellAt_emptyGrid in Hc. }
  subst removed. exists g2. split.
  - rewrite Hmove. unfold verdict.
    apply Nat.eqb_neq in Hlibs. rewrite Hlibs. reflexivity.
  - intros c Hc. rewrite (trace_cells _ _ _ _ _ _ _ _ _ Hxy Htrace Hc).
    destruct (decide (c = (x, y))); [done|].
    rewrite decide_False by apply not_elem_of_nil. apply cellAt_emptyGrid.
Qed.

(** X17. [resetGame], after any play, gives the initial state back: the
    board on the screen is empty (the initial board was never written to),
    the history has the one entry of the empty board, and the first stone,
    Black's, is accepted on any cell of the board. *)
Theorem resetGame_new_game s x y :
  App.reachable s -> onBoard (x, y) ->
  App.gameState (App.resetGame s) = App.INITIAL_STATE /\
  App.position (App.resetGame s) = emptyGrid /\
  App.entries (App.resetGame s) = [JSON_stringify emptyGrid] /\
  App.errorMsg (App.resetGame s) = None /\
  exists s',
    App.handleMove (App.resetGame s) x y = Done s' /\
    (forall c, onBoard c ->
       cellAt (App.position s') c =
         if decide (c = (x, y)) then Some black else None) /\
    App.currentPlayer (App.gameState s') = white /\
    App.prisoners s' = 0%nat /\
    App.errorMsg s' = None.
Proof.
  intros Hinv%reachable_GameInv Hxy.
  assert (Hpos : App.position (App.resetGame s) = emptyGrid)
    by apply (game_initial_board s Hinv).
  assert (Hent : App.entries (App.resetGame s) = [JSON_stringify emptyGrid])
    by apply (game_initial_history s Hinv).
  do 4 (split; [done|]).
  assert (Hover : App.gameOver (App.gameState (App.resetGame s)) = false)
    by reflexivity.
  destruct (handleMove_spec (App.resetGame s) x y (GameInv_reset s Hinv) Hover)
    as (h & r & Hrun & Hun & Hmove & Hcases).
  rewrite Hpos, Hent in Hmove.
  change (App.currentPlayer (App.gameState (App.resetGame s))) with black
    in Hmove, Hrun.
  destruct (moveOn_emptyGrid x y black Hxy) as (g2 & Hmove' & Hcells).
  rewrite Hmove' in Hmove.
  apply (f_equal (fun o => returned o (rejectedView EmptyString))) in Hmove.
  cbn [returned] in Hmove. rename Hmove into Hview.
  destruct Hcases as [(msg & -> & _)|(count & s' & -> & _)].
  { apply (f_equal v_success) in Hview. discriminate Hview. }
  pose proof (handleMove_accepted (App.resetGame s) x y h _ count Hover Hrun)
    as Hs'.
  eexists. split; [exact Hs'|].
  unfold App.position, App.prisoners.
  cbn [App.store App.gameState App.board App.history App.historyNext
       App.captured App.captured_black App.captured_white
       App.currentPlayer App.errorMsg App.resetGame].
  rewrite snapshot_allocHistory.
  assert (Hg2 : snapshot h (boardNext (App.store s)) = g2).
  { apply (f_equal v_board) in Hview. by injection Hview. }
  assert (Hcount : count = 0%nat).
  { apply (f_equal v_count) in Hview. by injection Hview. }
  rewrite Hg2, Hcount. split; [exact Hcells|].
  split; [reflexivity|]. split; reflexivity.
Qed.

Lemma resetGame_new_game_witness :
  App.position (App.resetGame afterCapture) = emptyGrid /\
  exists s',
    App.handleMove (App.resetGame afterCapture) 0 0 = Done s' /\
    App.currentPlayer (App.gameState s') = white.
Proof.
  destruct (resetGame_new_game afterCapture 0 0)
    as (_ & Hpos & _ & _ & s' & Hs' & _ & Hturn & _).
  - apply reachable_afterCapture.
  - reflexivity.
  - split; [exact Hpos|]. exists s'. split; [exact Hs'|exact Hturn].
Defined.

(** ** The labels of the log *)

Lemma NoDup_labels :
  NoDup ((fun c : Coord => App.coordLabel c.1 c.2) <$> allCoords).
Proof. eapply bool_decide_unpack. vm_compute. exact I. Qed.

(** X18. The label of a move in the log is the letter of its column, from
    [A] to [T] without [I], followed by the number of its row counted from
    the bottom of the board; two cells of the board have different
    labels. *)
Theorem coordLabel_board (a b : Coord) :
  onBoard a -> onBoard b ->
  (exists letter,
     String.get (Z.to_nat a.1) "ABCDEFGHJKLMNOPQRST" = Some letter /\
     App.coordLabel a.1 a.2 = String letter (numToString (19 - a.2))) /\
  (App.coordLabel a.1 a.2 = App.coordLabel b.1 b.2 -> a = b).
Proof.
  intros Ha Hb. split.
  - destruct a as [x y]. apply onBoard_spec in Ha. cbn [fst snd] in *.
    assert (Hx : x = 0 \/ x = 1 \/ x = 2 \/ x = 3 \/ x = 4 \/ x = 5 \/ x = 6 \/
                 x = 7 \/ x = 8 \/ x = 9 \/ x = 10 \/ x = 11 \/ x = 12 \/
                 x = 13 \/ x = 14 \/ x = 15 \/ x = 16 \/ x = 17 \/ x = 18)
      by lia.
    repeat (destruct Hx as [->|Hx]; [eexists; split; reflexivity|]).
    subst x. eexists; split; reflexivity.
  - apply (fmap_NoDup_inj (fun c : Coord => App.coordLabel c.1 c.2) allCoords).
    + apply NoDup_labels.
    + by apply elem_of_allCoords.
    + by apply elem_of_allCoords.
Qed.

Lemma coordLabel_board_witness :
  App.coordLabel 8 0 = "J19" /\
  (App.coordLabel 8 0 = App.coordLabel 7 0 -> (8, 0) = (7, 0)).
Proof.
  destruct (coordLabel_board (8, 0) (7, 0)) as [(letter & Hl & Hlabel) Hinj].
  - reflexivity.
  - reflexivity.
  - split; [|exact Hinj]. cbn [fst snd] in Hlabel. rewrite Hlabel.
    vm_compute in Hl. injection Hl as <-. vm_compute. reflexivity.
Defined.

(** * Ko in a game *)





(** * The board on the screen *)

Lemma renderCells_spec g lastMove cells : forall r,
  wfGrid g -> (forall c, c ∈ cells -> onBoard c) ->
  exists r',
    GoBoard.renderCells g lastMove cells r = Done r' /\
    (forall c, c ∈ GoBoard.hoverGuides r' <->
       c ∈ GoBoard.hoverGuides r \/ (c ∈ cells /\ cellAt g c = None)) /\
    (forall st, st ∈ GoBoard.stones r' <->
       st ∈ GoBoard.stones r \/
       (GoBoard.stoneAt st ∈ cells /\
        cellAt g (GoBoard.stoneAt st) = Some (GoBoard.stoneColor st) /\
        GoBoard.lastMoveMarker st
          = bool_decide (lastMove = Some (GoBoard.stoneAt st)))) /\
    (length (GoBoard.stones r') + length (GoBoard.hoverGuides r')
     = length (GoBoard.stones r) + length (GoBoard.hoverGuides r)
       + length cells)%nat.
Proof.
  induction cells as [|c rest IH]; intros r Hwf Hcells.
  - exists r. split; [done|]. split; [|split].
    + intros c. rewrite elem_of_nil. tauto.
    + intros st. rewrite elem_of_nil. tauto.
    + simpl. lia.
  - assert (Hc : onBoard c) by (apply Hcells; by left).
    assert (Hrest : forall c', c' ∈ rest -> onBoard c')
      by (intros c' Hc'; apply Hcells; by right).
    cbn [GoBoard.renderCells]. unfold GoBoard.renderCell.
    destruct c as [x y]. cbn [fst snd].
    rewrite (readCell_wf g x y Hwf Hc).
    cbv beta iota delta [mbind Outcome_bind].
    destruct (cellAt g (x, y)) as [color|] eqn:Hcell.
    + match goal with
      | |- context [GoBoard.renderCells g lastMove rest ?r0] =>
          destruct (IH r0 Hwf Hrest) as (r' & -> & Hguides & Hstones & Hlen)
      end.
      exists r'. split; [done|]. cbn [GoBoard.stones GoBoard.hoverGuides] in *.
      split; [|split].
      * intros c. rewrite Hguides, elem_of_cons. split.
        -- intros [?|[? ?]]; auto.
        -- intros [?|[[-> |?] ?]]; auto. congruence.
      * intros st. rewrite Hstones, elem_of_app, list_elem_of_singleton,
          elem_of_cons.
        split.
        -- intros [[?| ->]|(? & ? & ?)]; auto.
           right. cbn [GoBoard.stoneAt GoBoard.stoneColor
                       GoBoard.lastMoveMarker].
           split; [by left|]. split; [done|].
           destruct lastMove as [[lx ly]|]; cbn [fst snd].
           ++ apply eq_true_iff_eq.
              rewrite andb_true_iff, !Z.eqb_eq, bool_decide_eq_true.
              split; [by intros [-> ->]|by intros [= -> ->]].
           ++ symmetry. by apply bool_decide_eq_false.
        -- intros [?|([Heq|?] & Hcol & Hmark)]; auto.
           left; right. destruct st as [at0 col0 mark0].
           cbn [GoBoard.stoneAt GoBoard.stoneColor GoBoard.lastMoveMarker]
             in *.
           subst at0. rewrite Hcell in Hcol. injection Hcol as <-.
           f_equal. rewrite Hmark.
           destruct lastMove as [[lx ly]|]; cbn [fst snd].
           ++ apply eq_true_iff_eq.
              rewrite andb_true_iff, !Z.eqb_eq, bool_decide_eq_true.
              split; [by intros [= -> ->]|by intros [-> ->]].
           ++ by apply bool_decide_eq_false.
      * rewrite Hlen, length_app. simpl. lia.
    + match goal with
      | |- context [GoBoard.renderCells g lastMove rest ?r0] =>
          destruct (IH r0 Hwf Hrest) as (r' & -> & Hguides & Hstones & Hlen)
      end.
      exists r'. split; [done|]. cbn [GoBoard.stones GoBoard.hoverGuides] in *.
      split; [|split].
      * intros c. rewrite Hguides, elem_of_app, list_elem_of_singleton,
          elem_of_cons.
        split.
        -- intros [[?| ->]|[? ?]]; auto.
        -- intros [?|[[-> |?] ?]]; auto.
      * intros st. rewrite Hstones, elem_of_cons. split.
        -- intros [?|(? & ? & ?)]; auto.
        -- intros [?|([Heq|?] & Hcol & ?)]; auto.
           rewrite Heq in Hcol. congruence.
      * rewrite Hlen, length_app. simpl. lia.
Qed.

(** X20. [GoBoard] draws every cell of a board of the right shape once: a
    stone of the color of the cell where the board has one, with the marker
    exactly on the cell of the last move, and a rectangle for clicks
    exactly on the empty cells. *)
Theorem GoBoard_render g lastMove :
  wfGrid g ->
  exists r,
    GoBoard.render g lastMove = Done r /\
    (forall c, c ∈ GoBoard.hoverGuides r <-> onBoard c /\ cellAt g c = None) /\
    (forall st, st ∈ GoBoard.stones r <->
       onBoard (GoBoard.stoneAt st) /\
       cellAt g (GoBoard.stoneAt st) = Some (GoBoard.stoneColor st) /\
       GoBoard.lastMoveMarker st
         = bool_decide (lastMove = Some (GoBoard.stoneAt st))) /\
    (length (GoBoard.stones r) + length (GoBoard.hoverGuides r))%nat
      = 361%nat.
Proof.
  intros Hwf. unfold GoBoard.render.
  destruct (renderCells_spec g lastMove allCoords
              {| GoBoard.stones := []; GoBoard.hoverGuides := [] |} Hwf)
    as (r & Hrun & Hguides & Hstones & Hlen).
  { intros c. apply elem_of_allCoords. }
  exists r. split; [exact Hrun|]. split; [|split].
  - intros c. rewrite Hguides, elem_of_allCoords.
    cbn [GoBoard.hoverGuides]. rewrite elem_of_nil. tauto.
  - intros st. rewrite Hstones, elem_of_allCoords.
    cbn [GoBoard.stones]. rewrite elem_of_nil. tauto.
  - rewrite Hlen, length_allCoords. reflexivity.
Qed.

Lemma GoBoard_render_witness :
  exists r,
    GoBoard.render koBefore (Some (1, 1)) = Done r /\
    (forall c, c ∈ GoBoard.hoverGuides r <->
       onBoard c /\ cellAt koBefore c = None) /\
    length (GoBoard.stones r) = 7%nat.
Proof.
  destruct (GoBoard_render koBefore (Some (1, 1)))
    as (r & Hrun & Hguides & _ & _).
  - apply wfGridb_sound. reflexivity.
  - exists r. split; [exact Hrun|]. split; [exact Hguides|].
    set (r0 := returned (GoBoard.render koBefore (Some (1, 1)))
                 {| GoBoard.stones := []; GoBoard.hoverGuides := [] |}).
    assert (Hr : GoBoard.render koBefore (Some (1, 1)) = Done r0)
      by (vm_compute; reflexivity).
    assert (Hlen : length (GoBoard.stones r0) = 7%nat)
      by (vm_compute; reflexivity).
    clearbody r0. rewrite Hr in Hrun. injection Hrun as <-. exact Hlen.
Defined.

(** X21. In a game that is not over, the rectangles that [GoBoard] draws
    are on the empty cells of the board, so a click is never answered with
    "Invalid position" or "Position occupied"; while the AI is thinking a
    click calls nothing.  The marker of the last move is drawn, on a stone,
    whenever a move has been played. *)
Theorem GoBoard_in_game s :
  App.reachable s ->
  exists r,
    GoBoard.render (App.position s) (App.lastMove (App.gameState s)) = Done r /\
    (forall c, GoBoard.onClick true c = None) /\
    (forall c target,
       App.gameOver (App.gameState s) = false ->
       c ∈ GoBoard.hoverGuides r -> GoBoard.onClick false c = Some target ->
       exists s',
         App.handleMove s target.1 target.2 = Done s' /\
         App.errorMsg s' <> Some "Invalid position" /\
         App.errorMsg s' <> Some "Position occupied") /\
    (forall l, App.lastMove (App.gameState s) = Some l ->
       exists color,
         {| GoBoard.stoneAt := l; GoBoard.stoneColor := color;
            GoBoard.lastMoveMarker := true |} ∈ GoBoard.stones r) /\
    (forall st, st ∈ GoBoard.stones r -> GoBoard.lastMoveMarker st = true ->
       App.lastMove (App.gameState s) = Some (GoBoard.stoneAt st)).
Proof.
  intros Hinv%reachable_GameInv.
  destruct (renderCells_spec (App.position s)
              (App.lastMove (App.gameState s)) allCoords
              {| GoBoard.stones := []; GoBoard.hoverGuides := [] |}
              (proj2 (game_board s Hinv)))
    as (r & Hrun & Hguides & Hstones & _).
  { intros c. apply elem_of_allCoords. }
  exists r. split; [exact Hrun|]. split; [reflexivity|]. split; [|split].
  - intros c target Hover Hc [= <-].
    apply Hguides in Hc as [Hc|[Hc Hempty]];
      [by apply elem_of_nil in Hc|].
    apply elem_of_allCoords in Hc. destruct c as [x y]. cbn [fst snd].
    destruct (tryMakeMove_results (App.store s) (App.board (App.gameState s))
                x y (App.currentPlayer (App.gameState s))
                (App.history (App.gameState s)) (game_board s Hinv))
      as (h & r0 & Hmove & _ & _ & Hcases).
    destruct Hcases as [(Hoff & _)|[(_ & Hfull & _)|(_ & _ & Hcases)]].
    { unfold onBoard in Hc. cbn [fst snd] in Hc. congruence. }
    { by destruct Hfull. }
    destruct Hcases as [-> | [-> | [count ->]]].
    + eexists. split; [by apply (handleMove_rejected s x y h)|].
      split; intros Hno; discriminate Hno.
    + eexists. split; [by apply (handleMove_rejected s x y h)|].
      split; intros Hno; discriminate Hno.
    + eexists. split; [by apply (handleMove_accepted s x y h)|].
      split; intros Hno; discriminate Hno.
  - intros l Hl. pose proof (game_lastMove s Hinv) as Hlast.
    rewrite Hl in Hlast. destruct Hlast as [Hon Hstone].
    destruct (cellAt (App.position s) l) as [color|] eqn:Hcell; [|done].
    exists color. apply Hstones. right.
    cbn [GoBoard.stoneAt GoBoard.stoneColor GoBoard.lastMoveMarker].
    split; [by apply elem_of_allCoords|]. split; [done|].
    symmetry. by apply bool_decide_eq_true.
  - intros st Hst Hmark.
    apply Hstones in Hst as [Hst|(_ & _ & Hm)];
      [by apply elem_of_nil in Hst|].
    rewrite Hmark in Hm. symmetry in Hm. by apply bool_decide_eq_true in Hm.
Qed.

Lemma GoBoard_in_game_witness :
  exists r,
    GoBoard.render (App.position afterCapture) (Some (1, 0)) = Done r /\
    exists color,
      {| GoBoard.stoneAt := (1, 0); GoBoard.stoneColor := color;
         GoBoard.lastMoveMarker := true |} ∈ GoBoard.stones r.
Proof.
  destruct (GoBoard_in_game afterCapture) as (r & Hrun & _ & _ & Hmark & _).
  - apply reachable_afterCapture.
  - exists r.
    assert (Hl : App.lastMove (App.gameState afterCapture) = Some (1, 0))
      by (vm_compute; reflexivity).
    rewrite Hl in Hrun. split; [exact Hrun|]. apply Hmark. exact Hl.
Defined.

(** ** The geometry of the picture *)

(** X22. The picture of the board: the rectangle that takes the clicks of
    a cell is centered on the crossing of the two grid lines of the cell,
    lies inside the drawing, holds the whole stone of the cell, and
    overlaps the rectangle of no other cell. *)
Theorem GoBoard_geometry (a b : Coord) :
  onBoard a -> onBoard b ->
  let ra := GoBoard.guideRect a in
  let rb := GoBoard.guideRect b in
  (* centered on the crossing of the lines *)
  GoBoard.line_x1 (GoBoard.verticalLine a.1) = GoBoard.cx a.1 /\
  GoBoard.line_y1 (GoBoard.horizontalLine a.2) = GoBoard.cy a.2 /\
  2 * GoBoard.cx a.1
    = 2 * GoBoard.rect_x ra + GoBoard.rect_width ra /\
  2 * GoBoard.cy a.2
    = 2 * GoBoard.rect_y ra + GoBoard.rect_height ra /\
  GoBoard.line_y1 (GoBoard.verticalLine a.1) <= GoBoard.cy a.2
    <= GoBoard.line_y2 (GoBoard.verticalLine a.1) /\
  GoBoard.line_x1 (GoBoard.horizontalLine a.2) <= GoBoard.cx a.1
    <= GoBoard.line_x2 (GoBoard.horizontalLine a.2) /\
  (* inside the drawing *)
  0 <= GoBoard.rect_x ra /\
  GoBoard.rect_x ra + GoBoard.rect_width ra
    <= GoBoard.boardPixelSize /\
  0 <= GoBoard.rect_y ra /\
  GoBoard.rect_y ra + GoBoard.rect_height ra
    <= GoBoard.boardPixelSize /\
  (* the stone is inside *)
  GoBoard.rect_x ra <= GoBoard.cx a.1 - GoBoard.stoneRadius /\
  GoBoard.cx a.1 + GoBoard.stoneRadius
    <= GoBoard.rect_x ra + GoBoard.rect_width ra /\
  GoBoard.rect_y ra <= GoBoard.cy a.2 - GoBoard.stoneRadius /\
  GoBoard.cy a.2 + GoBoard.stoneRadius
    <= GoBoard.rect_y ra + GoBoard.rect_height ra /\
  (* no overlap *)
  (a <> b ->
   GoBoard.rect_x ra + GoBoard.rect_width ra <= GoBoard.rect_x rb \/
   GoBoard.rect_x rb + GoBoard.rect_width rb <= GoBoard.rect_x ra \/
   GoBoard.rect_y ra + GoBoard.rect_height ra <= GoBoard.rect_y rb \/
   GoBoard.rect_y rb + GoBoard.rect_height rb <= GoBoard.rect_y ra).
Proof.
  intros Ha%onBoard_spec Hb%onBoard_spec.
  destruct a as [ax ay], b as [bx b_y].
  cbv [GoBoard.guideRect GoBoard.verticalLine GoBoard.horizontalLine
       GoBoard.cx GoBoard.cy GoBoard.stoneRadius
       GoBoard.boardPixelSize GoBoard.cellSize GoBoard.padding
       GoBoard.rect_x GoBoard.rect_y GoBoard.rect_width
       GoBoard.rect_height GoBoard.line_x1 GoBoard.line_y1
       GoBoard.line_x2 GoBoard.line_y2 BOARD_SIZE fst snd] in *.
  change (30 / 2) with 15.
  repeat (split; [lia|]).
  intros Hne.
  assert (Hcase : ax <> bx \/ ay <> b_y).
  { destruct (decide (ax = bx)) as [->|]; [|by left].
    right. intros ->. by destruct Hne. }
  lia.
Qed.

Lemma GoBoard_geometry_witness :
  GoBoard.rect_x (GoBoard.guideRect (3, 4)) = 105 /\
  0 <= GoBoard.rect_x (GoBoard.guideRect (3, 4)) /\
  (GoBoard.rect_x (GoBoard.guideRect (3, 4))
     + GoBoard.rect_width (GoBoard.guideRect (3, 4))
     <= GoBoard.rect_x (GoBoard.guideRect (4, 4)) \/
   GoBoard.rect_x (GoBoard.guideRect (4, 4))
     + GoBoard.rect_width (GoBoard.guideRect (4, 4))
     <= GoBoard.rect_x (GoBoard.guideRect (3, 4)) \/
   GoBoard.rect_y (GoBoard.guideRect (3, 4))
     + GoBoard.rect_height (GoBoard.guideRect (3, 4))
     <= GoBoard.rect_y (GoBoard.guideRect (4, 4)) \/
   GoBoard.rect_y (GoBoard.guideRect (4, 4))
     + GoBoard.rect_height (GoBoard.guideRect (4, 4))
     <= GoBoard.rect_y (GoBoard.guideRect (3, 4))).
Proof.
  destruct (GoBoard_geometry (3, 4) (4, 4) eq_refl eq_refl)
    as (_ & _ & _ & _ & _ & _ & Hin & _ & _ & _ & _ & _ & _ & _ & Hapart).
  split; [reflexivity|]. split; [exact Hin|].
  apply Hapart. intros Hno. discriminate Hno.
Defined.

(** * The board in the prompt *)

Lemma chars_app a b :
  String.list_ascii_of_string (a +:+ b)
    = String.list_ascii_of_string a ++ String.list_ascii_of_string b.
Proof.
  induction a as [|ch a IH]; [reflexivity|].
  rewrite app_String. cbn [String.list_ascii_of_string]. by rewrite IH.
Qed.

Lemma get_chars s : forall n, String.get n s = String.list_ascii_of_string s !! n.
Proof.
  induction s as [|ch s IH]; intros [|n]; cbn [String.get String.list_ascii_of_string];
    try reflexivity.
  apply IH.
Qed.

Lemma length_chars s : String.length s = length (String.list_ascii_of_string s).
Proof. induction s as [|ch s IH]; [reflexivity|]. simpl. by rewrite IH. Qed.

Lemma chars_join sep first rest :
  String.list_ascii_of_string (Gemini.join sep (first :: rest)) =
    String.list_ascii_of_string first ++
    concat (map (fun item => String.list_ascii_of_string sep ++
                             String.list_ascii_of_string item) rest).
Proof.
  unfold Gemini.join. revert first.
  induction rest as [|item rest IH]; intros first.
  - simpl. by rewrite app_nil_r.
  - cbn [fold_left map concat]. rewrite IH, !chars_app, <- !app_assoc.
    reflexivity.
Qed.

(** The cells of a text made of blocks of [n] characters. *)
Lemma lookup_blocks {A : Type} (n : nat) (blocks : list (list A)) :
  Forall (fun b => length b = n) blocks ->
  forall i k, (k < n)%nat ->
    concat blocks !! (i * n + k)%nat = blocks !! i ≫= (.!! k).
Proof.
  induction 1 as [|b blocks Hb _ IH]; intros i k Hk; [done|].
  cbn [concat]. destruct i as [|i].
  - rewrite lookup_app_l by lia. reflexivity.
  - rewrite lookup_app_r by lia.
    replace (S i * n + k - length b)%nat with (i * n + k)%nat by lia.
    apply IH, Hk.
Qed.

Lemma chars_row (row : Row) :
  String.list_ascii_of_string (Gemini.join EmptyString (map Gemini.cellChar row))
    = concat (map (fun c => String.list_ascii_of_string (Gemini.cellChar c)) row).
Proof.
  destruct row as [|c row]; [reflexivity|].
  cbn [map]. rewrite chars_join. cbn [concat]. f_equal.
  rewrite map_map. reflexivity.
Qed.

Lemma row_lookup (row : Row) (x : nat) :
  String.list_ascii_of_string
    (Gemini.join EmptyString (map Gemini.cellChar row)) !! x
    = row !! x ≫= (fun c => String.get 0 (Gemini.cellChar c)).
Proof.
  rewrite chars_row.
  pose proof (lookup_blocks 1
                (map (fun c => String.list_ascii_of_string (Gemini.cellChar c))
                   row))
    as Hblocks.
  replace x with (x * 1 + 0)%nat at 1 by lia. rewrite Hblocks; [|..|lia].
  - change (map ?f) with (fmap (M:=list) f). rewrite list_lookup_fmap.
    destruct (row !! x) as [[[]|]|]; reflexivity.
  - apply Forall_forall. intros b Hb.
    apply list_elem_of_fmap in Hb as (c & -> & _).
    by destruct c as [[]|].
Qed.

Lemma length_row (row : Row) :
  length (String.list_ascii_of_string
            (Gemini.join EmptyString (map Gemini.cellChar row)))
    = length row.
Proof.
  rewrite chars_row. induction row as [|c row IH]; [reflexivity|].
  cbn [map concat]. rewrite length_app, IH. by destruct c as [[]|].
Qed.

(** The text with a line break before every line, the first one too. *)
Lemma chars_boardStr (g : Grid) :
  g <> [] ->
  Ascii.ascii_of_nat 10 :: String.list_ascii_of_string (Gemini.boardStr g) =
    concat (map (fun row : Row =>
                   Ascii.ascii_of_nat 10 ::
                   String.list_ascii_of_string
                     (Gemini.join EmptyString (map Gemini.cellChar row))) g).
Proof.
  destruct g as [|row g]; [done|]. intros _.
  unfold Gemini.boardStr. cbn [map]. rewrite chars_join.
  cbn [concat]. rewrite map_map. reflexivity.
Qed.

Lemma boardStr_lookup (g : Grid) (n : nat) :
  g <> [] ->
  String.list_ascii_of_string (Gemini.boardStr g) !! n =
    concat (map (fun row : Row =>
                   Ascii.ascii_of_nat 10 ::
                   String.list_ascii_of_string
                     (Gemini.join EmptyString (map Gemini.cellChar row))) g)
      !! S n.
Proof. intros Hne. rewrite <- (chars_boardStr g Hne). reflexivity. Qed.

(** X23. The text of the board in the prompt has 19 lines of 19
    characters: the character at column [x] of line [y] (the first line
    and column are 0) is that of the cell [(x, y)], [B], [W] or a dot, and
    the lines are separated by line breaks.  Two boards of the right shape
    with the same text are the same. *)
Theorem boardStr_cells g :
  wfGrid g ->
  String.length (Gemini.boardStr g) = 379%nat /\
  (forall x y, onBoard (x, y) ->
     String.get (Z.to_nat (20 * y + x)) (Gemini.boardStr g)
       = String.get 0 (Gemini.cellChar (cellAt g (x, y)))) /\
  (forall y, 0 <= y < 18 ->
     String.get (Z.to_nat (20 * y + 19)) (Gemini.boardStr g)
       = Some (Ascii.ascii_of_nat 10)) /\
  (forall g', wfGrid g' -> Gemini.boardStr g' = Gemini.boardStr g -> g' = g).
Proof.
  intros Hwf.
  assert (Hcells : forall g0, wfGrid g0 ->
            forall x y, onBoard (x, y) ->
              String.get (Z.to_nat (20 * y + x)) (Gemini.boardStr g0)
                = String.get 0 (Gemini.cellChar (cellAt g0 (x, y)))).
  { clear g Hwf. intros g [Hlen Hrows] x y Hxy.
    apply onBoard_spec in Hxy. cbn [fst snd] in Hxy.
    assert (Hne : g <> []) by (by destruct g).
    rewrite get_chars.
    rewrite (boardStr_lookup g _ Hne).
    replace (S (Z.to_nat (20 * y + x)))
      with (Z.to_nat y * 20 + S (Z.to_nat x))%nat by lia.
    rewrite (lookup_blocks 20); [| |lia].
    2:{ apply Forall_forall. intros b Hb.
        apply list_elem_of_fmap in Hb as (row & -> & Hrow).
        cbn [length]. rewrite length_row.
        rewrite Forall_forall in Hrows. by rewrite (Hrows row Hrow). }
    rewrite list_lookup_fmap. unfold cellAt, arrayGet. cbn [fst snd].
    destruct (Z.leb_spec 0 y); [|lia]. destruct (Z.leb_spec 0 x); [|lia].
    destruct (g !! Z.to_nat y) as [row|] eqn:Hrow.
    2:{ apply lookup_ge_None in Hrow. lia. }
    cbn [fmap option_fmap option_map mbind option_bind].
    change ((?a :: ?l) !! S ?n) with (l !! n).
    rewrite row_lookup.
    destruct (row !! Z.to_nat x) as [c|] eqn:Hc.
    2:{ apply lookup_ge_None in Hc.
        rewrite Forall_forall in Hrows.
        rewrite (Hrows row) in Hc; [lia|].
        by eapply list_elem_of_lookup_2. }
    reflexivity. }
  assert (Hne : g <> []) by (destruct Hwf as [Hlen _]; by destruct g).
  assert (Hlength : length (String.list_ascii_of_string (Gemini.boardStr g))
                    = 379%nat).
  { pose proof (f_equal length (chars_boardStr g Hne)) as Heq.
    cbn [length] in Heq.
    assert (Hsum : forall rows : Grid,
              Forall (fun row : Row => length row = 19%nat) rows ->
              length (concat (map (fun row : Row =>
                        Ascii.ascii_of_nat 10 ::
                        String.list_ascii_of_string
                          (Gemini.join EmptyString
                             (map Gemini.cellChar row))) rows))
                = (20 * length rows)%nat).
    { induction 1 as [|row rows Hrow _ IH]; [reflexivity|].
      cbn [map concat]. rewrite length_app, IH. cbn [length].
      rewrite length_row, Hrow. lia. }
    destruct Hwf as [Hlen Hrows]. rewrite (Hsum g Hrows), Hlen in Heq. lia. }
  split; [by rewrite length_chars|].
  split; [by apply Hcells|]. split.
  - intros y Hy. rewrite get_chars.
    rewrite (boardStr_lookup g _ Hne).
    replace (S (Z.to_nat (20 * y + 19)))
      with (S (Z.to_nat y) * 20 + 0)%nat by lia.
    destruct Hwf as [Hlen Hrows].
    rewrite (lookup_blocks 20); [| |lia].
    2:{ apply Forall_forall. intros b Hb.
        apply list_elem_of_fmap in Hb as (row & -> & Hrow).
        cbn [length]. rewrite length_row.
        rewrite Forall_forall in Hrows. by rewrite (Hrows row Hrow). }
    rewrite list_lookup_fmap.
    destruct (g !! S (Z.to_nat y)) as [row|] eqn:Hrow; [reflexivity|].
    apply lookup_ge_None in Hrow. lia.
  - intros g' Hwf' Heq. apply grid_ext; [done|done|].
    intros [x y] Hc.
    pose proof (Hcells g Hwf x y Hc) as H1.
    pose proof (Hcells g' Hwf' x y Hc) as H2.
    rewrite Heq, H1 in H2.
    destruct (cellAt g (x, y)) as [[]|], (cellAt g' (x, y)) as [[]|];
      try reflexivity; discriminate H2.
Qed.

Lemma boardStr_cells_witness :
  String.length (Gemini.boardStr koBefore) = 379%nat /\
  String.get (Z.to_nat (20 * 1 + 3)) (Gemini.boardStr koBefore)
    = String.get 0 (Gemini.cellChar (cellAt koBefore (3, 1))).
Proof.
  destruct (boardStr_cells koBefore) as (Hlen & Hcells & _).
  - apply wfGridb_sound. reflexivity.
  - split; [exact Hlen|]. apply (Hcells 3 1). reflexivity.
Defined.
